(** * Verification of the immigration-data ETL notebook

    A shallow embedding of [capstone_project.ipynb]: the dictionary parser
    (cell 7), the immigration cleaner (cells 14-17), the weather, demographic
    and airport dimension builders (cells 21-53), followed by the properties
    proved about them.

    Conventions of the embedding.
    - Text is ASCII: a Python [str] is a [string]; the matcher works on its
      list of characters.
    - A pandas column ([Series]) is a list of cells; a missing value
      (NaN / None) is the cell [NA].
    - Python and Spark exceptions are values of [exn]; code that can raise
      returns a [result].
    - In-place updates of a frame ([df[col] = ...]) are threaded through a
      state monad over the frame. *)

From Stdlib Require Import ZArith QArith Ascii String List Bool Lia.
From Stdlib Require Import Floats.SpecFloat Zpower.
From stdpp Require Import base option list gmap strings.

Local Open Scope string_scope.
Local Open Scope list_scope.
Local Open Scope Z_scope.

(** ** Exceptions and results *)

Inductive exn : Type :=
| KeyError
| ValueError
| TypeError
| OverflowError
| AnalysisException.

Inductive result (A : Type) : Type :=
| Ok (a : A)
| Err (e : exn).

Arguments Ok {A} a.
Arguments Err {A} e.

Definition rbind {A B : Type} (r : result A) (k : A -> result B) : result B :=
  match r with
  | Ok a => k a
  | Err e => Err e
  end.

#[global] Instance result_ret : MRet result := @Ok.
#[global] Instance result_bind : MBind result := fun A B k r => rbind r k.
#[global] Instance result_fmap : FMap result := fun A B f r => rbind r (fun a => Ok (f a)).

Definition is_ok {A : Type} (r : result A) : bool :=
  match r with
  | Ok _ => true
  | Err _ => false
  end.

(** ** Text *)

Module Text.

Abbreviation chars := (list ascii).

Definition code (c : ascii) : N := N_of_ascii c.

(** [str.isspace] on one ASCII character, which is also what [\s] matches
    in a [str] pattern: TAB, LF, VT, FF, CR, FS, GS, RS, US and space. *)
Definition isspace (c : ascii) : bool :=
  let n := code c in
  ((9 <=? n)%N && (n <=? 13)%N) || ((28 <=? n)%N && (n <=? 32)%N).

Definition islower (c : ascii) : bool :=
  let n := code c in (97 <=? n)%N && (n <=? 122)%N.

Definition upper_char (c : ascii) : ascii :=
  if islower c then ascii_of_N (code c - 32) else c.

(** [str.upper] *)
Definition upper (s : chars) : chars := fmap upper_char s.

Fixpoint lstrip (s : chars) : chars :=
  match s with
  | c :: s' => if isspace c then lstrip s' else s
  | [] => []
  end.

Definition rstrip (s : chars) : chars := rev (lstrip (rev s)).

(** [str.strip] without argument *)
Definition strip (s : chars) : chars := rstrip (lstrip s).

(** [s.split(sep, 1)]: the text before the first [sep] and, when there is
    one, the text after it. *)
Fixpoint split1 (sep : ascii) (s : chars) : chars * option chars :=
  match s with
  | [] => ([], None)
  | c :: s' =>
      if Ascii.eqb c sep then ([], Some s')
      else let '(a, b) := split1 sep s' in (c :: a, b)
  end.

Definition of_string (s : string) : chars := list_ascii_of_string s.
Definition to_string (s : chars) : string := string_of_list_ascii s.

#[global] Arguments of_string : simpl never.
#[global] Arguments to_string : simpl never.

End Text.

(** ** Regular expressions

    The six patterns of the notebook are sequences of single characters,
    character classes and [+] repetitions of a class, with one capturing
    group. [Regex.search] is [re.search] for such patterns: the leftmost
    start, each [+] greedy, giving characters back on failure. *)

Module Regex.

Import Text.

Inductive cls : Type :=
| Lit (c : ascii)        (* the character c *)
| Not (c : ascii)        (* [^c] *)
| Space.                 (* \s *)

Definition accepts (k : cls) (c : ascii) : bool :=
  match k with
  | Lit d => Ascii.eqb c d
  | Not d => negb (Ascii.eqb c d)
  | Space => isspace c
  end.

Inductive tok : Type :=
| One (k : cls)          (* k *)
| Plus (k : cls)         (* k+ *)
| Open                   (* ( *)
| Close.                 (* ) *)

Abbreviation regex := (list tok).

(** The group under construction is kept reversed in [g]; [rec] tells
    whether the cursor is inside the parentheses. *)
Definition push (rec : bool) (c : ascii) (g : chars) : chars :=
  if rec then c :: g else g.

(** Zero or more further characters of the class, the longest run first,
    then the continuation [k]. *)
Fixpoint greedy (cl : cls) (rec : bool)
    (k : chars -> chars -> option chars) (s g : chars) : option chars :=
  match s with
  | c :: s' =>
      if accepts cl c then
        match greedy cl rec k s' (push rec c g) with
        | Some r => Some r
        | None => k s g
        end
      else k s g
  | [] => k [] g
  end.

(** Match the pattern at the start of [s]; the result is group 1. *)
Fixpoint run (r : regex) (rec : bool) (s g : chars) : option chars :=
  match r with
  | [] => Some (rev g)
  | Open :: r' => run r' true s g
  | Close :: r' => run r' false s g
  | One cl :: r' =>
      match s with
      | c :: s' => if accepts cl c then run r' rec s' (push rec c g) else None
      | [] => None
      end
  | Plus cl :: r' =>
      match s with
      | c :: s' =>
          if accepts cl c then greedy cl rec (run r' rec) s' (push rec c g)
          else None
      | [] => None
      end
  end.

Fixpoint search (r : regex) (s : chars) : option chars :=
  match run r false s [] with
  | Some g => Some g
  | None =>
      match s with
      | [] => None
      | _ :: s' => search r s'
      end
  end.

Definition quote : ascii := "'"%char.
Definition hyphen : ascii := "-"%char.
Definition newline : ascii := ascii_of_N 10.

(** r'\'([^\']+)\'' *)
Definition re_quoted : regex :=
  [One (Lit quote); Open; Plus (Not quote); Close; One (Lit quote)].
(** r'\'([^\']+)' *)
Definition re_after_quote : regex :=
  [One (Lit quote); Open; Plus (Not quote); Close].
(** r'([^\']+)\'' *)
Definition re_before_quote : regex :=
  [Open; Plus (Not quote); Close; One (Lit quote)].
(** r'\s+([^\']+)' *)
Definition re_after_space : regex :=
  [Plus Space; Open; Plus (Not quote); Close].
(** r'([^\']+)\n' *)
Definition re_before_newline : regex :=
  [Open; Plus (Not quote); Close; One (Lit newline)].
(** r'-([^-]+)' *)
Definition re_after_hyphen : regex :=
  [One (Lit hyphen); Open; Plus (Not hyphen); Close].

End Regex.

Import Text Regex.

(** ** Cells, columns and frames *)

Inductive cell : Type :=
| NA                     (* NaN, None, NaT *)
| Str (s : string)
| Int (z : Z)
| Bool (b : bool).

#[global] Instance cell_eq_dec : EqDecision cell.
Proof. solve_decision. Defined.

Abbreviation Series := (list cell).

(** [Series.notnull()] / [Series.isnull()] on one value *)
Definition notnull (c : cell) : bool :=
  match c with
  | NA => false
  | _ => true
  end.

(** The elementwise [!=] of pandas: a missing value differs from every
    value, itself included. *)
Definition cell_ne (a b : cell) : bool :=
  match a, b with
  | NA, _ | _, NA => true
  | _, _ => negb (bool_decide (a = b))
  end.

(** A method of the [.str] accessor applied to one value: values that are
    not text give NaN. *)
Definition str_apply (f : chars -> option chars) (c : cell) : cell :=
  match c with
  | Str s =>
      match f (of_string s) with
      | Some r => Str (to_string r)
      | None => NA
      end
  | _ => NA
  end.

(** [s.str.extract(regex)] for a pattern with one group *)
Definition str_extract (r : regex) (s : Series) : Series :=
  fmap (str_apply (search r)) s.
(** [s.str.strip()] *)
Definition str_strip (s : Series) : Series :=
  fmap (str_apply (fun x => Some (strip x))) s.
(** [s.str.upper()] *)
Definition str_upper (s : Series) : Series :=
  fmap (str_apply (fun x => Some (upper x))) s.
(** [s.astype(str)]: a missing value becomes the text of NaN *)
Definition astype_str (s : Series) : Series :=
  fmap (fun c => match c with NA => Str "nan" | _ => c end) s.

(** A frame: its row labels and its named columns. Every column of a frame
    has one value per row label ([wf_frame]). *)
Record Frame : Type := mkFrame {
  index : list nat;
  columns : gmap string Series
}.

Definition nrows (df : Frame) : nat := length (index df).

Definition wf_frame (df : Frame) : Prop :=
  forall (c : string) (s : Series), columns df !! c = Some s -> length s = nrows df.

(** *** In-place operations on a frame *)

Definition FrameM (A : Type) : Type := Frame -> result (A * Frame).

#[global] Instance FrameM_ret : MRet FrameM := fun A a df => Ok (a, df).
#[global] Instance FrameM_bind : MBind FrameM := fun A B k m df =>
  match m df with
  | Ok (a, df') => k a df'
  | Err e => Err e
  end.

(** [df[col]] *)
Definition getcol (col : string) : FrameM Series := fun df =>
  match columns df !! col with
  | Some s => Ok (s, df)
  | None => Err KeyError
  end.

(** [df[col] = s] *)
Definition setcol (col : string) (s : Series) : FrameM unit := fun df =>
  Ok (tt, mkFrame (index df) (<[col := s]> (columns df))).

(** Cell 7:
<<
    def clean_field(df, col, regex):
        df[col] = df[col].str.extract(regex)
        df[col] = df[col].str.strip()
        df[col] = df[col].str.upper()
        return df[col]
>> *)
Definition clean_field (col : string) (r : regex) : FrameM Series :=
  c ← getcol col; _ ← setcol col (str_extract r c);
  c ← getcol col; _ ← setcol col (str_strip c);
  c ← getcol col; _ ← setcol col (str_upper c);
  getcol col.

(** The column that [clean_field] computes from the column [s] *)
Definition cleaned (r : regex) (s : Series) : Series :=
  str_upper (str_strip (str_extract r s)).

(** [df[target] = clean_field(df, col, regex)] *)
Definition assign_clean_field (target col : string) (r : regex) : FrameM unit :=
  s ← clean_field col r; setcol target s.

(** An in-place computation that leaves the row labels alone *)
Definition keeps_index {A : Type} (m : FrameM A) : Prop :=
  forall df a df', m df = Ok (a, df') -> index df' = index df.

(** Run an in-place computation and keep the frame. *)
Definition exec {A : Type} (m : FrameM A) (df : Frame) : result Frame :=
  match m df with
  | Ok (_, df') => Ok df'
  | Err e => Err e
  end.

(** ** The dictionary parser (cell 7) *)

Module Parser.

(** [int(text)]: surrounding whitespace, an optional sign, then decimal
    digits, where single underscores may separate digits. *)
Definition isdigit (c : ascii) : bool :=
  let n := code c in (48 <=? n)%N && (n <=? 57)%N.

Definition digit_value (c : ascii) : Z := Z.of_N (code c - 48).

Fixpoint digits (s : chars) (after_digit : bool) (acc : Z) : option Z :=
  match s with
  | [] => if after_digit then Some acc else None
  | c :: s' =>
      if isdigit c then digits s' true (10 * acc + digit_value c)
      else if Ascii.eqb c "_"%char && after_digit then digits s' false acc
      else None
  end.

Definition parse_int (s : chars) : option Z :=
  match strip s with
  | c :: s' =>
      if Ascii.eqb c "-"%char then Z.opp <$> digits s' false 0
      else if Ascii.eqb c "+"%char then digits s' false 0
      else digits (c :: s') false 0
  | [] => None
  end.

Definition int64_min : Z := - 2 ^ 63.
Definition int64_max : Z := 2 ^ 63 - 1.

(** One value of [s.astype(int)] on a column of Python objects *)
Definition cell_to_int (c : cell) : result cell :=
  match c with
  | Str s =>
      match parse_int (of_string s) with
      | Some z =>
          if (int64_min <=? z) && (z <=? int64_max) then Ok (Int z)
          else Err OverflowError
      | None => Err ValueError
      end
  | Int z => Ok (Int z)
  | Bool b => Ok (Int (if b then 1 else 0))
  | NA => Err ValueError
  end.

Fixpoint astype_int (s : Series) : result Series :=
  match s with
  | [] => Ok []
  | c :: s' => z ← cell_to_int c; r ← astype_int s'; Ok (z :: r)
  end.

(** [lines[a:b]] for [0 <= a <= b] *)
Definition slice (a b : nat) (lines : list string) : list string :=
  take (b - a) (drop a lines).

#[global] Arguments slice : simpl never.

(** [pd.DataFrame(rows)[0]]: a frame built from an empty list has no
    column [0]. *)
Definition column0 (rows : list string) : result Series :=
  match rows with
  | [] => Err KeyError
  | _ => Ok (fmap Str rows)
  end.

(** One row of [s.str.split(sep, n=1, expand=True)] *)
Definition split_cell (sep : ascii) (c : cell) : cell * option cell :=
  match c with
  | Str s =>
      let '(a, b) := split1 sep (of_string s) in
      (Str (to_string a), (fun x => Str (to_string x)) <$> b)
  | _ => (NA, None)
  end.

(** [s.str.split(sep, n=1, expand=True)]: the columns [0] and, when some
    row holds the separator, [1]; shorter rows are padded with None. *)
Definition split_expand (sep : ascii) (s : Series) : list Series :=
  let parts := fmap (split_cell sep) s in
  if existsb (fun p => bool_decide (is_Some (snd p))) parts
  then [fmap fst parts; fmap (fun p => default NA (snd p)) parts]
  else [fmap fst parts].

(** [df[i]] on a frame whose columns are labelled [0, 1, ...] *)
Definition column (i : nat) (cols : list Series) : result Series :=
  match cols !! i with
  | Some s => Ok s
  | None => Err KeyError
  end.

(** [df.columns = names] on a frame with a fresh range index *)
Definition set_names (names : list string) (cols : list Series) : result Frame :=
  if bool_decide (length names = length cols) then
    Ok (mkFrame (seq 0 (length (default [] (head cols))))
                (list_to_map (zip names cols)))
  else Err ValueError.

(** [df[col] = df[col].astype(int)] *)
Definition assign_astype_int (col : string) : FrameM unit := fun df =>
  match getcol col df with
  | Ok (s, df') =>
      match astype_int s with
      | Ok s' => setcol col s' df'
      | Err e => Err e
      end
  | Err e => Err e
  end.

Definition eq_sign : ascii := "="%char.
Definition comma : ascii := ","%char.

Definition parse_cntyl (lines : list string) : result Frame :=
  rows ← column0 (slice 9 297 lines);
  df ← set_names ["i94cntyl"; "country"] (split_expand eq_sign rows);
  exec (_ ← assign_clean_field "country" "country" re_quoted;
        assign_astype_int "i94cntyl") df.

Definition parse_port (lines : list string) : result Frame :=
  rows ← column0 (slice 302 962 lines);
  let df_port := split_expand eq_sign rows in
  value ← column 1 df_port;
  let df_port_comma_split := split_expand comma value in
  c0 ← column 0 df_port_comma_split;
  let df_port := <[1%nat := c0]> df_port in
  c1 ← column 1 df_port_comma_split;
  let df_port := df_port ++ [c1] in
  df ← set_names ["i94port"; "port"; "addr"] df_port;
  exec (_ ← assign_clean_field "i94port" "i94port" re_quoted;
        _ ← assign_clean_field "port" "port" re_after_quote;
        assign_clean_field "addr" "addr" re_before_quote) df.

Definition parse_mode (lines : list string) : result Frame :=
  rows ← column0 (slice 972 976 lines);
  df ← set_names ["i94mode"; "mode"] (split_expand eq_sign rows);
  exec (_ ← assign_clean_field "mode" "mode" re_quoted;
        assign_clean_field "i94mode" "i94mode" re_after_space) df.

Definition parse_addr (lines : list string) : result Frame :=
  rows ← column0 (slice 981 1036 lines);
  df ← set_names ["i94addr"; "state"] (split_expand eq_sign rows);
  exec (_ ← assign_clean_field "i94addr" "i94addr" re_quoted;
        assign_clean_field "state" "state" re_quoted) df.

Definition parse_visa (lines : list string) : result Frame :=
  rows ← column0 (slice 1046 1049 lines);
  df ← set_names ["i94visa"; "visa"] (split_expand eq_sign rows);
  exec (assign_clean_field "visa" "visa" re_before_newline) df.



(** What the parser needs of a line *)
Definition key_of (line : string) : chars := fst (split1 eq_sign (of_string line)).

Definition has_char (c : ascii) (line : string) : bool :=
  bool_decide (c ∈ of_string line).

(** The text before the first [=] is an integer that [int] accepts. *)
Definition int_key (line : string) : bool :=
  match parse_int (key_of line) with
  | Some z => (int64_min <=? z) && (z <=? int64_max)
  | None => false
  end.

(** The text after the first [=] holds a comma. *)
Definition comma_value (line : string) : bool :=
  match snd (split1 eq_sign (of_string line)) with
  | Some v => bool_decide (comma ∈ v)
  | None => false
  end.

(** The two columns of a split line *)
Definition key_cell (sep : ascii) (line : string) : cell :=
  Str (to_string (fst (split1 sep (of_string line)))).

Definition value_cell (sep : ascii) (line : string) : cell :=
  match snd (split1 sep (of_string line)) with
  | Some v => Str (to_string v)
  | None => NA
  end.

(** The two parts of a value split at its first comma *)
Definition before_comma (c : cell) : cell := fst (split_cell comma c).
Definition after_comma (c : cell) : cell := default NA (snd (split_cell comma c)).



End Parser.

(** ** Frame operations shared by the dimension builders *)

(** The entries of [l] at the positions where the mask holds: [l[mask]]. *)
Fixpoint select {A : Type} (mask : list bool) (l : list A) : list A :=
  match mask, l with
  | b :: mask', x :: l' => if b then x :: select mask' l' else select mask' l'
  | _, _ => []
  end.

(** [df[mask]]: rows keep their labels. *)
Definition filter_rows (mask : list bool) (df : Frame) : Frame :=
  mkFrame (select mask (index df)) (select mask <$> columns df).

(** [df.reset_index(drop=True)] *)
Definition reset_index (df : Frame) : Frame :=
  mkFrame (seq 0 (nrows df)) (columns df).

(** [df.drop([col], axis=1)] *)
Definition drop_column (col : string) (df : Frame) : result Frame :=
  match columns df !! col with
  | Some _ => Ok (mkFrame (index df) (delete col (columns df)))
  | None => Err KeyError
  end.

Module Merge.

(** The value of a column at a row position *)
Definition at_row (s : Series) (i : nat) : cell := default NA (s !! i).

(** Positions of the right rows whose key equals [k], in row order.
    Missing keys match missing keys, as in pandas. *)
Fixpoint matches (k : cell) (rkeys : Series) (j : nat) : list nat :=
  match rkeys with
  | [] => []
  | k' :: rkeys' =>
      if bool_decide (k' = k) then j :: matches k rkeys' (S j)
      else matches k rkeys' (S j)
  end.

(** The rows of a left join: every left position, in order, paired with
    each matching right position, or with none when nothing matches. *)
Definition join_row (rkeys : Series) (i : nat) (k : cell) : list (nat * option nat) :=
  match matches k rkeys 0 with
  | [] => [(i, None)]
  | js => fmap (fun j => (i, Some j)) js
  end.

Fixpoint indexers (lkeys rkeys : Series) (i n : nat) : list (nat * option nat) :=
  match n with
  | O => []
  | S n' => join_row rkeys i (at_row lkeys i) ++ indexers lkeys rkeys (S i) n'
  end.

Definition take_left (ix : list (nat * option nat)) (s : Series) : Series :=
  fmap (fun p => at_row s (fst p)) ix.

Definition take_right (ix : list (nat * option nat)) (s : Series) : Series :=
  fmap (fun p => match snd p with Some j => at_row s j | None => NA end) ix.

(** Columns present on both sides get the suffixes [_x] and [_y]; a key
    column with the same name on both sides appears once, with the left
    values. *)
Definition left_name (right : Frame) (left_on right_on c : string) : string :=
  if bool_decide (is_Some (columns right !! c))
     && negb (bool_decide (c = left_on) && bool_decide (c = right_on))
  then c +:+ "_x" else c.

Definition right_name (left : Frame) (c : string) : string :=
  if bool_decide (is_Some (columns left !! c)) then c +:+ "_y" else c.

Definition left_columns (ix : list (nat * option nat)) (left right : Frame)
    (left_on right_on : string) : list (string * Series) :=
  fmap (fun p => (left_name right left_on right_on (fst p), take_left ix (snd p)))
      (map_to_list (columns left)).

Definition right_columns (ix : list (nat * option nat)) (left right : Frame)
    (left_on right_on : string) : list (string * Series) :=
  fmap (fun p => (right_name left (fst p), take_right ix (snd p)))
      (filter (fun p => negb (bool_decide (fst p = left_on) && bool_decide (fst p = right_on)))
              (map_to_list (columns right))).

(** [pd.merge(left=left, right=right, left_on=.., right_on=.., how='left')] *)
Definition merge_left (left right : Frame) (left_on right_on : string) : result Frame :=
  match columns left !! left_on, columns right !! right_on with
  | Some lkeys, Some rkeys =>
      let ix := indexers lkeys rkeys 0 (nrows left) in
      Ok (mkFrame (seq 0 (length ix))
            (list_to_map (left_columns ix left right left_on right_on
                          ++ right_columns ix left right left_on right_on)))
  | _, _ => Err KeyError
  end.

End Merge.

(** ** The airport dimension (cells 46-53) *)

Module Airport.

Import Merge.

(** Cell 46 *)
Definition join (df_port df_airport : Frame) : result Frame :=
  df ← merge_left df_port df_airport "i94port" "ident";
  drop_column "ident" df.

(** The mask of cell 51:
    [(df['type'].notnull()) & (df['iso_region_state'] != df['addr'])] *)
Definition outlier (type iso_region_state addr : cell) : bool :=
  notnull type && cell_ne iso_region_state addr.

Fixpoint outlier_mask (type iso_region_state addr : Series) : list bool :=
  match type, iso_region_state, addr with
  | t :: type', s :: state', a :: addr' =>
      outlier t s a :: outlier_mask type' state' addr'
  | _, _, _ => []
  end.

(** [df.index.isin(labels)] *)
Definition index_isin (labels : list nat) (df : Frame) : Series :=
  fmap (fun i => Bool (bool_decide (i ∈ labels))) (index df).

(** Cells 51 and 53, on the joined frame [df_airport_dwh] *)
Definition flag : FrameM unit :=
  _ ← assign_clean_field "iso_region_state" "iso_region" re_after_hyphen;
  type ← getcol "type";
  iso_region_state ← getcol "iso_region_state";
  addr ← getcol "addr";
  df ← (fun df => Ok (df, df));
  let df_airport_dwh_outliers :=
    filter_rows (outlier_mask type iso_region_state addr) df in
  setcol "false_join" (index_isin (index df_airport_dwh_outliers) df).

Definition airport_dwh (df_port df_airport : Frame) : result Frame :=
  df ← join df_port df_airport;
  exec flag df.

End Airport.

(** ** Spark tables *)

Module Spark.

(** Binary64, as specified by [SpecFloat] *)
Definition prec : Z := 53.
Definition emax : Z := 1024.

Inductive scell : Type :=
| SNull
| SDouble (x : spec_float)
| SInt (z : Z)
| SString (s : string)
| SDate (year month day : Z).

#[global] Instance spec_float_eq_dec : EqDecision spec_float.
Proof. solve_decision. Defined.

#[global] Instance scell_eq_dec : EqDecision scell.
Proof. solve_decision. Defined.

Record SparkDF : Type := mkSparkDF {
  schema : list string;
  rows : list (list scell)
}.

Fixpoint position (c : string) (names : list string) : option nat :=
  match names with
  | [] => None
  | n :: names' => if bool_decide (n = c) then Some O else S <$> position c names'
  end.

Definition field (i : nat) (row : list scell) : scell := default SNull (row !! i).

(** The values of a column; an unknown name fails the analysis. *)
Definition column (df : SparkDF) (c : string) : result (list scell) :=
  match position c (schema df) with
  | Some i => Ok (fmap (field i) (rows df))
  | None => Err AnalysisException
  end.

(** [df.count()] *)
Definition count (df : SparkDF) : Z := Z.of_nat (length (rows df)).

(** [df.drop] of a list of names: names that are not columns are ignored. *)
Definition drop (cols : list string) (df : SparkDF) : SparkDF :=
  let keep := fmap (fun c => negb (bool_decide (c ∈ cols))) (schema df) in
  mkSparkDF (select keep (schema df)) (fmap (select keep) (rows df)).

(** [df.withColumn(c, f(df[c]))] for a column [c] of [df] *)
Definition withColumn (c : string) (f : scell -> result scell) (df : SparkDF)
    : result SparkDF :=
  match position c (schema df) with
  | Some i =>
      rows' ← mapM (M := result) (fun row => v ← f (field i row); Ok (<[i := v]> row)) (rows df);
      Ok (mkSparkDF (schema df) rows')
  | None => Err AnalysisException
  end.

(** [col.isNull()] *)
Definition isNull (v : scell) : bool :=
  match v with
  | SNull => true
  | _ => false
  end.

(** The cast of text to double trims the text first, as Java's
    [String.trim] does: the characters up to the space are removed at
    both ends. *)
Fixpoint ltrim (s : chars) : chars :=
  match s with
  | c :: s' => if (code c <=? 32)%N then ltrim s' else s
  | [] => []
  end.

Definition trim (s : chars) : chars := rev (ltrim (rev (ltrim s))).

(** [isnan(col)]: text is first cast to double, and the text of NaN is
    cast to NaN. *)
Definition isnan (v : scell) : bool :=
  match v with
  | SDouble S754_nan => true
  | SString s =>
      let t := to_string (trim (of_string s)) in
      bool_decide (t = "NaN") || bool_decide (t = "+NaN") || bool_decide (t = "-NaN")
  | _ => false
  end.

(** A long as a double *)
Definition double_of_long (n : Z) : spec_float :=
  binary_normalize prec emax n 0 false.

(** [a / b] on longs: the quotient of the two doubles, null when [b = 0] *)
Definition divide (a b : Z) : option spec_float :=
  if b =? 0 then None
  else Some (SFdiv prec emax (double_of_long a) (double_of_long b)).

(** The integer part of a double, towards zero *)
Definition truncate (x : spec_float) : Z :=
  match x with
  | S754_finite s m e =>
      let a := if 0 <=? e then Z.pos m * 2 ^ e else Z.pos m / 2 ^ (- e) in
      if s then - a else a
  | _ => 0
  end.

Definition int_min : Z := - 2 ^ 31.
Definition int_max : Z := 2 ^ 31 - 1.

(** The cast of a double to a 32-bit integer: NaN gives 0, values out of
    range give the nearest bound. *)
Definition double_to_int (x : spec_float) : Z :=
  match x with
  | S754_nan => 0
  | S754_infinity s => if s then int_min else int_max
  | _ => Z.max int_min (Z.min int_max (truncate x))
  end.

(** The cast of text to a 32-bit integer: an optional sign, digits, and
    an optional fraction that is dropped; anything else, or a value out
    of range, gives null. *)
Fixpoint all_digits (s : chars) : bool :=
  match s with
  | [] => true
  | c :: s' => Parser.isdigit c && all_digits s'
  end.

Fixpoint int_digits (s : chars) (acc : Z) : option Z :=
  match s with
  | [] => Some acc
  | c :: s' =>
      if Ascii.eqb c "."%char then (if all_digits s' then Some acc else None)
      else if Parser.isdigit c then int_digits s' (10 * acc + Parser.digit_value c)
      else None
  end.

Definition string_to_int (s : chars) : option Z :=
  let signed (neg : bool) (body : chars) :=
    match body with
    | [] => None
    | _ =>
        z ← int_digits body 0;
        let v := if neg then - z else z in
        if (int_min <=? v) && (v <=? int_max) then Some v else None
    end in
  match s with
  | [] => None
  | c :: s' =>
      if Ascii.eqb c "-"%char then signed true s'
      else if Ascii.eqb c "+"%char then signed false s'
      else signed false s
  end.

(** [col.cast('integer')] *)
Definition cast_integer (v : scell) : scell :=
  match v with
  | SNull => SNull
  | SDouble x => SInt (double_to_int x)
  | SInt z => SInt z
  | SString s =>
      match string_to_int (of_string s) with
      | Some z => SInt z
      | None => SNull
      end
  | SDate _ _ _ => SNull
  end.

(** [df.select(c).distinct()]: Spark returns the distinct values in no
    particular order; the model lists each value once. *)
Definition distinct (df : SparkDF) (c : string) : result (list scell) :=
  remove_dups <$> column df c.

End Spark.

(** ** Calendar dates, after [datetime] *)

Module Calendar.

Record date : Type := mkDate { year : Z; month : Z; day : Z }.

#[global] Instance date_eq_dec : EqDecision date.
Proof. solve_decision. Defined.

Definition MAXORDINAL : Z := 3652059.

Definition DAYS_IN_MONTH : list Z :=
  [-1; 31; 28; 31; 30; 31; 30; 31; 31; 30; 31; 30; 31].

Definition DAYS_BEFORE_MONTH : list Z :=
  [-1; 0; 31; 59; 90; 120; 151; 181; 212; 243; 273; 304; 334].

Definition item (l : list Z) (i : Z) : Z := nth (Z.to_nat i) l 0.

Definition is_leap (y : Z) : bool :=
  (y mod 4 =? 0) && (negb (y mod 100 =? 0) || (y mod 400 =? 0)).

Definition days_before_year (y : Z) : Z :=
  let y := y - 1 in y * 365 + y / 4 - y / 100 + y / 400.

Definition days_in_month (y m : Z) : Z :=
  if (m =? 2) && is_leap y then 29 else item DAYS_IN_MONTH m.

Definition days_before_month (y m : Z) : Z :=
  item DAYS_BEFORE_MONTH m + (if (2 <? m) && is_leap y then 1 else 0).

Definition ymd2ord (d : date) : Z :=
  days_before_year (year d) + days_before_month (year d) (month d) + day d.

Definition DI400Y : Z := 146097.
Definition DI100Y : Z := 36524.
Definition DI4Y : Z := 1461.

Definition ord2ymd (n : Z) : date :=
  let n := n - 1 in
  let n400 := n / DI400Y in
  let n := n mod DI400Y in
  let y := n400 * 400 + 1 in
  let n100 := n / DI100Y in
  let n := n mod DI100Y in
  let n4 := n / DI4Y in
  let n := n mod DI4Y in
  let n1 := n / 365 in
  let n := n mod 365 in
  let y := y + n100 * 100 + n4 * 4 + n1 in
  if (n1 =? 4) || (n100 =? 4) then mkDate (y - 1) 12 31
  else
    let leapyear := (n1 =? 3) && (negb (n4 =? 24) || (n100 =? 3)) in
    let m := Z.shiftr (n + 50) 5 in
    let preceding :=
      item DAYS_BEFORE_MONTH m + (if (2 <? m) && leapyear then 1 else 0) in
    if n <? preceding then
      let m := m - 1 in
      let preceding :=
        preceding - (item DAYS_IN_MONTH m + (if (m =? 2) && leapyear then 1 else 0)) in
      mkDate y m (n - preceding + 1)
    else mkDate y m (n - preceding + 1).

(** A date of the proleptic Gregorian calendar that [datetime] can hold *)
Definition valid (d : date) : Prop :=
  1 <= year d <= 9999 /\ 1 <= month d <= 12 /\
  1 <= day d <= days_in_month (year d) (month d).

(** The largest number of days of a [timedelta] *)
Definition timedelta_max : Z := 999999999.

Definition epoch : date := mkDate 1960 1 1.

(** One day of the first 400 years: [d] is a date of these years whose
    ordinal is [n]. *)
Definition cycle_date (n : Z) (d : date) : bool :=
  (ymd2ord d =? n)
  && (1 <=? year d) && (year d <=? 400)
  && ((145731 <? n) || (year d <=? 399))
  && (1 <=? month d) && (month d <=? 12)
  && (1 <=? day d) && (day d <=? days_in_month (year d) (month d)).

Definition cycle_day (n : Z) : bool := (DI400Y <? n) || cycle_date n (ord2ymd n).

(** [f] holds on the [2 ^ depth] integers from [lo] on. *)
Fixpoint range_all (depth : nat) (f : Z -> bool) (lo : Z) : bool :=
  match depth with
  | O => f lo
  | S d => range_all d f lo && range_all d f (lo + 2 ^ Z.of_nat d)
  end.

(** Moving a date by whole cycles of 400 years *)
Definition shift (k : Z) (d : date) : date :=
  mkDate (year d + 400 * k) (month d) (day d).

End Calendar.

(** ** The immigration cleaner (cells 14-17) *)

Module Immigration.

Import Spark Calendar.

(** [isnan(c) | col(c).isNull()] *)
Definition is_missing (v : scell) : bool := isnan v || isNull v.

(** [count(when(isnan(c) | col(c).isNull(), c))] *)
Definition null_count (df : SparkDF) (c : string) : result Z :=
  vs ← column df c; Ok (Z.of_nat (length (filter (fun v => is_missing v = true) vs))).

(** One entry of [df_sas_nulls]; it is None when the table has no row. *)
Definition null_fraction (df : SparkDF) (c : string) : result (option spec_float) :=
  n ← null_count df c; Ok (divide n (count df)).

(** The double nearest to the literal [0.9] *)
Definition threshold : spec_float := S754_finite false 8106479329266893 (-53).

(** The mantissa of the threshold *)
Definition threshold_mantissa : Z := 8106479329266893.

(** Rounding to nearest, ties to even *)
Definition rounds_up (q : Z) (l : location) : bool :=
  match l with
  | loc_Inexact Gt => true
  | loc_Inexact Eq => Z.odd q
  | _ => false
  end.

(** What is left of the location after one more bit is shifted out *)
Definition shifted_location (q : Z) (l : location) : location :=
  loc_of_shr_record
    (Build_shr_record (q / 2) (Z.odd q)
       (match l with loc_Exact => false | _ => true end)).

(** [x > 0.9]; comparing None with a float raises. *)
Definition exceeds (x : option spec_float) : result bool :=
  match x with
  | Some f => Ok (SFltb threshold f)
  | None => Err TypeError
  end.

(** The test of the loop, on the exact counts *)
Definition above_threshold (df : SparkDF) (c : string) : bool :=
  match null_count df c with
  | Ok n => 9 * count df <? 10 * n
  | Err _ => false
  end.

(** The exact fraction of missing values of a column *)
Definition null_ratio (n total : Z) : Q := n # Z.to_pos total.

(** The words of the specification: a value that is null or NaN. A text
    value is NaN when its cast to double is, that is when the trimmed
    text reads NaN, with or without a sign. *)
Definition null_or_nan (v : scell) : Prop :=
  match v with
  | SNull => True
  | SDouble x => x = S754_nan
  | SString s => to_string (trim (of_string s)) ∈ ["NaN"; "+NaN"; "-NaN"]
  | _ => False
  end.

#[global] Instance null_or_nan_dec v : Decision (null_or_nan v).
Proof. destruct v; apply _. Defined.

(** The null-or-NaN values of the column at position [i], counted over
    the rows of the table *)
Definition missing_cells (df : SparkDF) (i : nat) : Z :=
  Z.of_nat (length (filter (fun row => null_or_nan (field i row)) (rows df))).

Fixpoint empty_cols_loop (df : SparkDF) (cols : list string) : result (list string) :=
  match cols with
  | [] => Ok []
  | c :: cols' =>
      x ← null_fraction df c;
      b ← exceeds x;
      rest ← empty_cols_loop df cols';
      Ok (if (b : bool) then c :: rest else rest)
  end.

Definition empty_cols (df : SparkDF) : result (list string) :=
  empty_cols_loop df (schema df).

Definition df_sas_clean_a (df_sas : SparkDF) : result SparkDF :=
  cols ← empty_cols df_sas; Ok (drop cols df_sas).

(** [dropna(how='all', subset=['cicid'])] keeps the rows whose [cicid] is
    neither null nor, for a double, NaN. *)
Definition has_value (v : scell) : bool :=
  match v with
  | SNull | SDouble S754_nan => false
  | _ => true
  end.

Definition df_sas_clean_b (a : SparkDF) : result SparkDF :=
  match position "cicid" (schema a) with
  | Some i =>
      Ok (mkSparkDF (schema a) (filter (fun row => has_value (field i row) = true) (rows a)))
  | None => Err AnalysisException
  end.

Definition integer_columns : list string :=
  ["cicid"; "i94yr"; "i94mon"; "i94cit"; "i94res"; "arrdate"; "i94mode";
   "i94bir"; "count"; "i94visa"; "depdate"; "biryear"; "admnum"].

Fixpoint cast_columns (cols : list string) (df : SparkDF) : result SparkDF :=
  match cols with
  | [] => Ok df
  | c :: cols' =>
      df' ← withColumn c (fun v => Ok (cast_integer v)) df;
      cast_columns cols' df'
  end.

Definition df_sas_clean_c (b : SparkDF) : result SparkDF :=
  cast_columns integer_columns b.

(** Cell 17:
<<
  def date_add_(days):
      date = datetime.strptime('1960-01-01', "%Y-%m-%d")
      return date + timedelta(days)
>>
    [timedelta] and the sum raise OverflowError outside their ranges. *)
Definition date_add_ (days : Z) : result date :=
  if timedelta_max <? Z.abs days then Err OverflowError
  else
    let n := ymd2ord epoch + days in
    if (0 <? n) && (n <=? MAXORDINAL) then Ok (ord2ymd n)
    else Err OverflowError.

(** The function as a column expression of type date. After the cast
    the column holds integers and nulls; a null reaches the function as
    None, which [timedelta] rejects. *)
Definition date_add_udf (v : scell) : result scell :=
  match v with
  | SInt n => d ← date_add_ n; Ok (SDate (year d) (month d) (day d))
  | _ => Err TypeError
  end.

Definition df_sas_clean_d (c : SparkDF) : result SparkDF :=
  df ← withColumn "arrdate" date_add_udf c;
  withColumn "depdate" date_add_udf df.

Definition df_sas_clean_e (d : SparkDF) : SparkDF := drop ["i94yr"; "i94mon"] d.

(** The five steps in order; every column is evaluated. *)
Definition df_immigration_dwh (df_sas : SparkDF) : result SparkDF :=
  a ← df_sas_clean_a df_sas;
  b ← df_sas_clean_b a;
  c ← df_sas_clean_c b;
  d ← df_sas_clean_d c;
  Ok (df_sas_clean_e d).

End Immigration.

(** [df[col]] on a frame that is not modified *)
Definition frame_col (col : string) (df : Frame) : result Series :=
  match columns df !! col with
  | Some s => Ok s
  | None => Err KeyError
  end.

(** [df[col].iloc[i]] *)
Definition iloc (df : Frame) (col : string) (i : nat) : option cell :=
  s ← columns df !! col; s !! i.

(** [name.endswith(suffix)] *)
Definition ends_with (suffix name : string) : bool :=
  bool_decide (take (length (of_string suffix)) (rev (of_string name))
               = rev (of_string suffix)).

(** A column name that is not the result of a renaming by [merge] *)
Definition plain (name : string) : bool :=
  negb (ends_with "_x" name) && negb (ends_with "_y" name).

(** ** The weather dimension (cells 21, 29, 31) *)

Module Weather.

Import Spark Merge.

(** One value of [toPandas()]. The two columns read here were cast to
    integer by the cleaner: they hold integers and nulls. *)
Definition to_pandas (v : scell) : cell :=
  match v with
  | SInt z => Int z
  | SString s => Str s
  | _ => NA
  end.

(** [a + b] on two values *)
Definition cell_add (a b : cell) : cell :=
  match a, b with
  | Int x, Int y => Int (x + y)
  | Str x, Str y => Str (x +:+ y)
  | _, _ => NA
  end.

(** [a + b] on two columns with range indexes: the sum label by label,
    and NaN at the labels that only the longer column has. *)
Fixpoint series_add (a b : Series) : Series :=
  match a, b with
  | x :: a', y :: b' => cell_add x y :: series_add a' b'
  | [], _ => fmap (fun _ => NA) b
  | _, [] => fmap (fun _ => NA) a
  end.

(** [int(x)] for the entries [x] with [str(x) != 'nan'] *)
Fixpoint ints (s : Series) : result (list Z) :=
  match s with
  | [] => Ok []
  | NA :: s' => ints s'
  | Int z :: s' => r ← ints s'; Ok (z :: r)
  | Bool b :: s' => r ← ints s'; Ok ((if b then 1 else 0) :: r)
  | Str x :: s' =>
      if bool_decide (x = "nan") then ints s'
      else
        match Parser.parse_int (of_string x) with
        | Some z => r ← ints s'; Ok (z :: r)
        | None => Err ValueError
        end
  end.

(** Cell 31:
<<
  i94cntyl_in_sas = list(set(
      df_immigration_dwh.select("i94cit").distinct().toPandas()['i94cit']
      + df_immigration_dwh.select("i94res").distinct().toPandas()['i94res']))
  i94cntyl_in_sas = [int(x) for x in i94cntyl_in_sas if str(x) != 'nan']
>> *)
Definition i94cntyl_in_sas (df_immigration_dwh : SparkDF) : result (list Z) :=
  i94cit ← distinct df_immigration_dwh "i94cit";
  i94res ← distinct df_immigration_dwh "i94res";
  ints (remove_dups (series_add (fmap to_pandas i94cit) (fmap to_pandas i94res))).

(** [s.isin(codes)] on one value *)
Definition isin (codes : list Z) (c : cell) : bool :=
  match c with
  | Int z => bool_decide (z ∈ codes)
  | _ => false
  end.

(** Cell 21, first part. The dates stay in their text form: the model
    leaves [pd.to_datetime] out. *)
Definition normalise_weather (raw : list Series) : result Frame :=
  df ← Parser.set_names
         ["date"; "average_temperature"; "average_temperature_uncertainty"; "country"]
         raw;
  df ← exec (c ← getcol "country"; setcol "country" (astype_str (str_upper c))) df;
  t ← frame_col "average_temperature" df;
  Ok (filter_rows (fmap notnull t) df).

(** Cell 21, last line *)
Definition normalise_cntyl (df_cntyl : Frame) : result Frame :=
  exec (c ← getcol "country"; setcol "country" (astype_str (str_upper c))) df_cntyl.

(** Cell 29 *)
Definition join (df_weather df_cntyl : Frame) : result Frame :=
  merge_left df_weather df_cntyl "country" "country".

(** Cell 31, the filters *)
Definition restrict (codes : list Z) (df_weather_dwh : Frame) : result Frame :=
  c ← frame_col "i94cntyl" df_weather_dwh;
  let df := filter_rows (fmap notnull c) df_weather_dwh in
  c ← frame_col "i94cntyl" df;
  let df := filter_rows (fmap (isin codes) c) df in
  Ok (reset_index df).

Definition weather_dwh (raw_weather : list Series) (df_cntyl : Frame)
    (df_immigration_dwh : SparkDF) : result Frame :=
  df_weather ← normalise_weather raw_weather;
  df_cntyl ← normalise_cntyl df_cntyl;
  joined ← join df_weather df_cntyl;
  codes ← i94cntyl_in_sas df_immigration_dwh;
  restrict codes joined.

(** The set the filter is meant to use: the values of either column *)
Definition country_codes (df_immigration_dwh : SparkDF) : result (list Z) :=
  i94cit ← distinct df_immigration_dwh "i94cit";
  i94res ← distinct df_immigration_dwh "i94res";
  ints (remove_dups (fmap to_pandas i94cit ++ fmap to_pandas i94res)).

End Weather.

(** ** The race distribution (cell 39) *)

Module Demographics.

(** The three columns of [df_demo] that the cell reads, row by row *)
Record demo_row : Type := mkRow {
  state_code : cell;
  race : cell;
  count : cell
}.

Fixpoint rows_of (state_code race count : Series) : list demo_row :=
  match state_code, race, count with
  | s :: state_code', r :: race', c :: count' =>
      mkRow s r c :: rows_of state_code' race' count'
  | _, _, _ => []
  end.

Definition demo_rows (df_demo : Frame) : result (list demo_row) :=
  s ← frame_col "state_code" df_demo;
  r ← frame_col "race" df_demo;
  c ← frame_col "count" df_demo;
  Ok (rows_of s r c).

(** A count as a number; [sum] skips missing values. *)
Definition numeric (c : cell) : Z :=
  match c with
  | Int z => z
  | _ => 0
  end.

Definition total (rows : list demo_row) : Z :=
  foldr Z.add 0 (numeric <$> (count <$> rows)).

(** The rows of the group [k] *)
Definition group {K : Type} `{EqDecision K} (key : demo_row -> option K) (k : K)
    (rows : list demo_row) : list demo_row :=
  filter (fun r => key r = Some k) rows.

(** [df.groupby(keys)['count'].agg('sum')]: one entry per key, rows with a
    missing key left out. pandas sorts the keys; the model lists each key
    once. *)
Definition groupby_sum {K : Type} `{EqDecision K} (key : demo_row -> option K)
    (rows : list demo_row) : list (K * Z) :=
  (fun k => (k, total (group key k rows))) <$> remove_dups (omap key rows).

Fixpoint assoc {K V : Type} `{EqDecision K} (k : K) (l : list (K * V)) : option V :=
  match l with
  | [] => None
  | (k', v) :: l' => if decide (k' = k) then Some v else assoc k l'
  end.

(** [groupby(['state_code'])] *)
Definition key1 (r : demo_row) : option cell :=
  if notnull (state_code r) then Some (state_code r) else None.

(** [groupby(['state_code', 'race'])] *)
Definition key2 (r : demo_row) : option (cell * cell) :=
  if notnull (state_code r) && notnull (race r)
  then Some (state_code r, race r) else None.

(** [a / b] on two numbers of a column: a rational, or not a finite
    number when [b] is zero. *)
Definition divide (a b : Z) : option Q :=
  if b =? 0 then None else Some (inject_Z a / inject_Z b)%Q.

(** The join of the two sums and the division *)
Definition fractions (rows : list demo_row) : list ((cell * cell) * option Q) :=
  let count := groupby_sum key2 rows in
  let count_total := groupby_sum key1 rows in
  (fun r => (fst r, match assoc (fst (fst r)) count_total with
                    | Some t => divide (snd r) t
                    | None => None
                    end))
  <$> count.

(** Cell 39: the fraction of every (state_code, race) pair *)
Definition df_demo_race_dwh (df_demo : Frame) : result (list ((cell * cell) * option Q)) :=
  rows ← demo_rows df_demo; Ok (fractions rows).

(** The fractions listed for one state, and their sum *)
Definition fractions_of (s : cell) (out : list ((cell * cell) * option Q)) : list (option Q) :=
  snd <$> filter (fun r => fst (fst r) = s) out.

(** Sums of integers and of rationals *)
Definition Zsum (l : list Z) : Z := foldr Z.add 0 l.
Definition Qsum (l : list Q) : Q := foldr Qplus 0%Q l.

(** The key of the row is one of [ks]. *)
Definition keyed_in {K : Type} (key : demo_row -> option K) (ks : list K)
    (r : demo_row) : Prop :=
  match key r with
  | Some k => k ∈ ks
  | None => False
  end.

#[global] Instance keyed_in_dec {K : Type} `{EqDecision K}
  (key : demo_row -> option K) (ks : list K) (r : demo_row) :
  Decision (keyed_in key ks r).
Proof. unfold keyed_in. destruct (key r); apply _. Defined.

Fixpoint sum_fractions (l : list (option Q)) : option Q :=
  match l with
  | [] => Some 0%Q
  | Some q :: l' => (fun r => (q + r)%Q) <$> sum_fractions l'
  | None :: l' => None
  end.

End Demographics.

(** A country code that is one of [codes] *)
Definition code_in (codes : list Z) (v : cell) : Prop :=
  match v with
  | Int z => z ∈ codes
  | _ => False
  end.

#[global] Instance code_in_dec codes v : Decision (code_in codes v).
Proof. destruct v; simpl; apply _. Defined.

(** ** The quality check (cell 25) *)

Module Quality.

(** One row of the summary *)
Record col_attributes (D : Type) : Type := mkAttributes {
  dtype : D;
  count : nat;
  count_null : nat;
  unique_values : nat
}.

Arguments mkAttributes {D} _ _ _ _.
Arguments dtype {D} _.
Arguments count {D} _.
Arguments count_null {D} _.
Arguments unique_values {D} _.

Section Check.

(** The type that pandas reports for a column is left open: the cells of
    the model carry none. *)
Context {D : Type} (dtype_of : Series -> D).

(** Python compares True with 1 and False with 0 as equal. *)
Definition py_value (c : cell) : cell :=
  match c with
  | Bool b => Int (if b then 1 else 0)
  | _ => c
  end.

(** [s.count()]: the values that are not missing *)
Definition s_count (s : Series) : nat :=
  length (filter (fun c => notnull c = true) s).

(** [s.nunique()]: the distinct values that are not missing *)
Definition nunique (s : Series) : nat :=
  length (remove_dups (py_value <$> filter (fun c => notnull c = true) s)).

Definition describe (s : Series) : col_attributes D :=
  let count := s_count s in
  mkAttributes (dtype_of s) count (length s - count) (nunique s).

Definition unique_message : string := "The dataframe has a unique index.".
Definition warning_message : string :=
  "Warning: The dataframe does not have a unique index.".

(** The line that is printed, and the summary that is returned *)
Definition dataframe_quality_check (df : Frame)
    : string * gmap string (col_attributes D) :=
  (if bool_decide (NoDup (index df)) then unique_message else warning_message,
   describe <$> columns df).

End Check.

End Quality.

(** ** The wording of the specification

    The specification describes [iso_region_state] as the text that follows
    the last hyphen of the region code. [spec_after_last] follows these
    words; it is compared with what [clean_field] computes. *)

Fixpoint spec_before_first (sep : ascii) (s : chars) : chars :=
  match s with
  | [] => []
  | c :: s' => if Ascii.eqb c sep then [] else c :: spec_before_first sep s'
  end.

Definition spec_after_last (sep : ascii) (s : chars) : chars :=
  rev (spec_before_first sep (rev s)).

(** Shapes of text used to state what the patterns extract *)
Definition no (c : ascii) (s : chars) : Prop := Forall (fun x => x <> c) s.
Definition only (c : ascii) (s : chars) : Prop := Forall (fun x => x = c) s.
(** [rest] does not continue a run of characters other than [c] *)
Definition stops_at (c : ascii) (rest : chars) : Prop :=
  rest = [] \/ exists rest', rest = c :: rest'.

(** Text made of whitespace, and text that does not start with it *)
Definition blank_text (s : chars) : Prop := Forall (fun x => isspace x = true) s.
Definition starts_solid (s : chars) : Prop :=
  match s with
  | [] => False
  | x :: _ => isspace x = false
  end.

(** ** Sample tables *)

Module Samples.

(** Four ports; the last one is no airport identifier. *)
Definition ports : Frame :=
  mkFrame [0; 1; 2; 3]%nat
    {[ "i94port" := [Str "ABC"; Str "XYZ"; Str "QQQ"; Str "NOP"];
       "port" := [Str "ABBEVILLE"; Str "XYLO"; Str "QUEBEC"; Str "NOPE"];
       "addr" := [Str "TX"; Str "AK"; NA; Str "FL"] ]}.

(** Airports with pairwise distinct identifiers *)
Definition airports : Frame :=
  mkFrame [0; 1; 2]%nat
    {[ "ident" := [Str "XYZ"; Str "ABC"; Str "QQQ"];
       "type" := [Str "small_airport"; Str "heliport"; Str "large_airport"];
       "iso_region" := [Str "US-AK"; Str "CA-ON"; Str "US-U-A"] ]}.

(** Two airports share the identifier ABC. *)
Definition airports_dup : Frame :=
  mkFrame [0; 1; 2]%nat
    {[ "ident" := [Str "XYZ"; Str "ABC"; Str "ABC"];
       "type" := [Str "small_airport"; Str "heliport"; Str "large_airport"];
       "iso_region" := [Str "US-AK"; Str "CA-ON"; Str "US-TX"] ]}.

(** The airport QQQ has no region code. *)
Definition airports_noregion : Frame :=
  mkFrame [0; 1; 2]%nat
    {[ "ident" := [Str "XYZ"; Str "ABC"; Str "QQQ"];
       "type" := [Str "small_airport"; Str "heliport"; Str "large_airport"];
       "iso_region" := [Str "US-AK"; Str "CA-ON"; NA] ]}.

Definition value {A : Type} (default : A) (r : result A) : A :=
  match r with
  | Ok a => a
  | Err _ => default
  end.

(** The airport dimension built from [ports] and [airports] *)
Definition airport_dim : Frame :=
  Eval vm_compute in
    value (mkFrame [] ∅) (Airport.airport_dwh ports airports).

(** City rows of two states; one row of CA has no race. *)
Definition demo : Frame :=
  mkFrame [0; 1; 2; 3; 4]%nat
    {[ "state_code" := [Str "CA"; Str "CA"; Str "TX"; Str "CA"; Str "TX"];
       "race" := [Str "White"; NA; Str "Asian"; Str "White"; Str "White"];
       "count" := [Int 10; Int 10; Int 5; Int 20; Int 15] ]}.

Definition nl : string := String (ascii_of_N 10) "".

(** A descriptor file of 1049 lines with the five blocks at their places *)
Definition labels : list string :=
  replicate 9 nl
  ++ replicate 288 ("   582 =  'MEXICO Air Sea, and Not Reported' " +:+ nl)
  ++ replicate 5 nl
  ++ replicate 660 ("   'ALC'	=	'ALCAN, AK             '" +:+ nl)
  ++ replicate 10 nl
  ++ replicate 4 ("	1 = 'Air'" +:+ nl)
  ++ replicate 5 nl
  ++ replicate 55 ("	'AL'='ALABAMA'" +:+ nl)
  ++ replicate 10 nl
  ++ replicate 3 ("   1 = Business" +:+ nl).


(** A port range of two lines; the second has no state. *)
Definition port_lines : list string :=
  replicate 302 nl
  ++ [ "   'ALC'	=	'ALCAN, AK             '" +:+ nl;
       "   'XXX'	=	'NOT REPORTED/UNKNOWN  '" +:+ nl ].

Definition dbl (n : Z) : Spark.scell := Spark.SDouble (Spark.double_of_long n).

(** A raw immigration table: a column that is mostly null, then the
    thirteen numeric columns. Two rows carry the identity 1, one row has a
    null identity and one a NaN identity. *)
Definition immigration_raw : Spark.SparkDF :=
  Spark.mkSparkDF ("occup" :: Immigration.integer_columns)
    [ [Spark.SNull; dbl 1; dbl 2016; dbl 4; dbl 582; dbl 582; dbl 20566;
       dbl 1; dbl 30; dbl 1; dbl 2; dbl 20570; dbl 1986; dbl 123];
      [Spark.SNull; dbl 1; dbl 2016; dbl 4; dbl 582; dbl 582; dbl 20567;
       dbl 1; dbl 41; dbl 1; dbl 2; dbl 20571; dbl 1975; dbl 124];
      [Spark.SNull; Spark.SNull; dbl 2016; dbl 4; dbl 582; dbl 582; dbl 20566;
       dbl 1; dbl 30; dbl 1; dbl 2; dbl 20570; dbl 1986; dbl 125];
      [Spark.SString "STU"; Spark.SDouble S754_nan; dbl 2016; dbl 4; dbl 582;
       dbl 582; dbl 20566; dbl 1; dbl 30; dbl 1; dbl 2; dbl 20570; dbl 1986; dbl 126];
      [Spark.SNull; dbl 2; dbl 2016; dbl 4; dbl 582; dbl 582; dbl 20568;
       dbl 1; dbl 52; dbl 1; dbl 2; dbl 20572; dbl 1964; dbl 127] ].

(** Ten rows: an identity, a column with nine nulls, a column of nulls *)
Definition sparse : Spark.SparkDF :=
  Spark.mkSparkDF ["cicid"; "nine_of_ten"; "all_null"]
    ([dbl 1; Spark.SString "x"; Spark.SNull]
     :: ((fun i => [dbl i; Spark.SNull; Spark.SNull]) <$> [2; 3; 4; 5; 6; 7; 8; 9; 10])).

(** A table of 2 000 000 000 000 001 rows with one column, which is null
    in 1 800 000 000 000 001 of them *)
Definition vast : Spark.SparkDF :=
  Spark.mkSparkDF ["occup"]
    (replicate (Z.to_nat 1800000000000001) [Spark.SNull]
     ++ replicate (Z.to_nat 200000000000000) [Spark.SString "STU"]).

Definition immigration_dim : Spark.SparkDF :=
  Eval vm_compute in
    value (Spark.mkSparkDF [] []) (Immigration.df_immigration_dwh immigration_raw).

(** Weather rows for two countries and a country lookup with both *)
Definition weather_raw : list Series :=
  [ [Str "2000-01-01"; Str "2000-02-01"; Str "2000-01-01"];
    [Int 4; Int 6; Int 21];
    [Int 1; Int 1; Int 1];
    [Str "France"; Str "France"; Str "Atlantis"] ].

Definition cntyl : Frame :=
  mkFrame [0; 1]%nat
    {[ "i94cntyl" := [Int 582; Int 1164];
       "country" := [Str "FRANCE"; Str "ATLANTIS"] ]}.

End Samples.

(** * Properties *)

(** ** In-place updates *)

Section FrameFacts.

Implicit Types (df : Frame) (col : string) (s : Series) (r : regex).

Lemma length_cleaned r s : length (cleaned r s) = length s.
Proof. unfold cleaned, str_upper, str_strip, str_extract. by rewrite !length_fmap. Qed.

Lemma cleaned_lookup r s (i : nat) :
  cleaned r s !! i =
  (fun c => str_apply (fun x => Some (upper x))
              (str_apply (fun x => Some (strip x)) (str_apply (search r) c)))
  <$> s !! i.
Proof.
  unfold cleaned, str_upper, str_strip, str_extract.
  rewrite !list_lookup_fmap. by destruct (s !! i).
Qed.

(** [clean_field] overwrites the column it reads and returns it. *)
Lemma clean_field_run col r df :
  clean_field col r df =
  match columns df !! col with
  | Some s => Ok (cleaned r s, mkFrame (index df) (<[col := cleaned r s]> (columns df)))
  | None => Err KeyError
  end.
Proof.
  unfold clean_field, mbind, FrameM_bind, getcol, setcol; simpl.
  destruct (columns df !! col) as [s|] eqn:E; [|done].
  simpl. rewrite lookup_insert_eq. simpl.
  rewrite lookup_insert_eq. simpl.
  by rewrite lookup_insert_eq, !insert_insert_eq.
Qed.

Lemma assign_clean_field_run target col r df :
  assign_clean_field target col r df =
  match columns df !! col with
  | Some s =>
      Ok (tt, mkFrame (index df)
                (<[target := cleaned r s]> (<[col := cleaned r s]> (columns df))))
  | None => Err KeyError
  end.
Proof.
  unfold assign_clean_field, mbind, FrameM_bind.
  rewrite clean_field_run.
  by destruct (columns df !! col).
Qed.

End FrameFacts.

(** ** Row selection *)

Section SelectFacts.

Context {A : Type}.
Implicit Types (mask : list bool) (l : list A).

Lemma select_elem_of mask l x : x ∈ select mask l -> x ∈ l.
Proof.
  revert l; induction mask as [|b mask IH]; intros [|y l]; simpl; try by inversion 1.
  destruct b; rewrite ?elem_of_cons; intros H; auto; destruct H; auto.
Qed.

Lemma select_lookup mask l i x :
  NoDup l -> l !! i = Some x ->
  x ∈ select mask l <-> mask !! i = Some true.
Proof.
  revert l i; induction mask as [|b mask IH]; intros [|y l] i Hnd Hi; simpl;
    try done.
  - split; [by inversion 1 | by destruct i].
  - inversion Hnd as [|? ? Hy Hl]; subst.
    destruct i as [|i]; simpl in *.
    + injection Hi as ->. destruct b.
      * split; [done | intros _; apply elem_of_cons; by left].
      * split; [|done]. intros Hx. by apply select_elem_of in Hx.
    + assert (x ≠ y) as Hne.
      { intros ->. apply Hy. by eapply list_elem_of_lookup_2. }
      destruct b; rewrite ?elem_of_cons; specialize (IH l i Hl Hi); tauto.
Qed.

End SelectFacts.

(** ** Left joins *)

Module MergeFacts.

Import Merge.

Lemma matches_absent k rkeys j : k ∉ rkeys -> matches k rkeys j = [].
Proof.
  revert j; induction rkeys as [|k' rkeys IH]; intros j Hk; simpl; [done|].
  apply not_elem_of_cons in Hk as [Hne Hk].
  rewrite bool_decide_eq_false_2 by congruence. by apply IH.
Qed.

Lemma matches_unique k rkeys j : NoDup rkeys -> (length (matches k rkeys j) <= 1)%nat.
Proof.
  revert j; induction rkeys as [|k' rkeys IH]; intros j Hnd; simpl; [lia|].
  inversion Hnd as [|? ? Hk' Hrest]; subst.
  case_bool_decide as Hk; [|by apply IH].
  subst k'. rewrite matches_absent by done. simpl; lia.
Qed.

Lemma join_row_length_ge rkeys i k : (1 <= length (join_row rkeys i k))%nat.
Proof.
  unfold join_row. destruct (matches k rkeys 0); simpl; lia.
Qed.

Lemma join_row_length_unique rkeys i k :
  NoDup rkeys -> length (join_row rkeys i k) = 1%nat.
Proof.
  intros Hnd. pose proof (matches_unique k rkeys 0 Hnd) as H.
  unfold join_row. destruct (matches k rkeys 0) as [|j [|j' js]]; simpl in *; lia.
Qed.

Lemma indexers_length_ge lkeys rkeys i n :
  (n <= length (indexers lkeys rkeys i n))%nat.
Proof.
  revert i; induction n as [|n IH]; intros i; simpl; [lia|].
  rewrite length_app. specialize (IH (S i)).
  pose proof (join_row_length_ge rkeys i (at_row lkeys i)). lia.
Qed.

Lemma indexers_length_unique lkeys rkeys i n :
  NoDup rkeys -> length (indexers lkeys rkeys i n) = n.
Proof.
  intros Hnd. revert i; induction n as [|n IH]; intros i; simpl; [done|].
  rewrite length_app, IH, join_row_length_unique by done. lia.
Qed.

(** The shape of the frame that [merge_left] returns *)
Lemma merge_left_inv left right left_on right_on df :
  merge_left left right left_on right_on = Ok df ->
  exists lkeys rkeys,
    columns left !! left_on = Some lkeys /\ columns right !! right_on = Some rkeys /\
    index df = seq 0 (length (indexers lkeys rkeys 0 (nrows left))) /\
    wf_frame df.
Proof.
  unfold merge_left.
  destruct (columns left !! left_on) as [lkeys|] eqn:El; [|done].
  destruct (columns right !! right_on) as [rkeys|] eqn:Er; [|done].
  intros [= <-]. exists lkeys, rkeys. repeat split; try done.
  intros c s Hc. unfold nrows; simpl. rewrite length_seq.
  apply elem_of_list_to_map_2, elem_of_app in Hc as [Hc|Hc].
  - unfold left_columns in Hc. apply list_elem_of_fmap in Hc as (p & [= -> ->] & _).
    unfold take_left. by rewrite length_fmap.
  - unfold right_columns in Hc. apply list_elem_of_fmap in Hc as (p & [= -> ->] & _).
    unfold take_right. by rewrite length_fmap.
Qed.

Lemma merge_left_nrows_ge left right left_on right_on df :
  merge_left left right left_on right_on = Ok df -> (nrows left <= nrows df)%nat.
Proof.
  intros (lkeys & rkeys & _ & _ & Hix & _)%merge_left_inv.
  unfold nrows at 2. rewrite Hix, length_seq. apply indexers_length_ge.
Qed.

Lemma merge_left_nrows_unique left right left_on right_on df rkeys :
  merge_left left right left_on right_on = Ok df ->
  columns right !! right_on = Some rkeys -> NoDup rkeys ->
  nrows df = nrows left.
Proof.
  intros (lkeys & rkeys' & _ & Hr & Hix & _)%merge_left_inv Hr' Hnd.
  rewrite Hr in Hr'. injection Hr' as ->.
  unfold nrows at 1. rewrite Hix, length_seq. by apply indexers_length_unique.
Qed.

End MergeFacts.

(** ** The airport dimension *)

Module AirportFacts.

Import Merge Airport MergeFacts.

Lemma outlier_mask_lookup type state addr (i : nat) t s a :
  type !! i = Some t -> state !! i = Some s -> addr !! i = Some a ->
  outlier_mask type state addr !! i = Some (outlier t s a).
Proof.
  revert state addr i.
  induction type as [|t' type IH]; intros [|s' state] [|a' addr] [|i]; simpl;
    try done.
  - by intros [= ->] [= ->] [= ->].
  - apply IH.
Qed.

(** The comparison [!=]: on text it is inequality of the text, and a
    missing value is unequal to everything. *)
Lemma cell_ne_text a b : cell_ne (Str a) (Str b) = true <-> a <> b.
Proof.
  simpl. rewrite negb_true_iff, bool_decide_eq_false. split; congruence.
Qed.

Lemma cell_ne_missing c : cell_ne NA c = true /\ cell_ne c NA = true.
Proof. by destruct c. Qed.

(** [!=] holds when one of the two values is missing, also when both are,
    and when both are there and are not the same. *)
Lemma cell_ne_iff a b : cell_ne a b = true <-> a = NA \/ b = NA \/ a <> b.
Proof.
  destruct a, b; simpl; rewrite ?negb_true_iff, ?bool_decide_eq_false;
    (split; intros H;
     [(by left) || (by right; left) || (by right; right)
     |done || (by destruct H as [H|[H|H]])]).
Qed.

(** Cells 51 and 53 as one step on the joined frame *)
Lemma flag_run df :
  exec flag df =
  match columns df !! "iso_region", columns df !! "type", columns df !! "addr" with
  | Some region, Some type, Some addr =>
      let state := cleaned re_after_hyphen region in
      Ok (mkFrame (index df)
            (<["false_join" :=
                 (fun i => Bool (bool_decide
                    (i ∈ select (outlier_mask type state addr) (index df))))
                 <$> index df]>
               (<["iso_region_state" := state]>
                  (<["iso_region" := state]> (columns df)))))
  | _, _, _ => Err KeyError
  end.
Proof.
  unfold exec, flag, mbind at 1 2 3 4 5, FrameM_bind.
  rewrite assign_clean_field_run.
  destruct (columns df !! "iso_region") as [region|] eqn:Er; [|done].
  unfold getcol, setcol; simpl.
  rewrite lookup_insert_ne, lookup_insert_ne by done.
  destruct (columns df !! "type") as [type|] eqn:Et; [|done].
  simpl. rewrite lookup_insert_eq. simpl.
  rewrite lookup_insert_ne, lookup_insert_ne by done.
  destruct (columns df !! "addr") as [addr|] eqn:Ea; [|done].
  done.
Qed.

Lemma join_inv df_port df_airport joined :
  join df_port df_airport = Ok joined ->
  exists merged,
    merge_left df_port df_airport "i94port" "ident" = Ok merged /\
    index joined = index merged /\ wf_frame joined /\ NoDup (index joined).
Proof.
  unfold join, mbind, result_bind, rbind.
  destruct (merge_left _ _ _ _) as [merged|] eqn:Em; [|done].
  unfold drop_column. destruct (columns merged !! "ident"); [|done].
  intros [= <-]. exists merged. repeat split; simpl.
  - apply merge_left_inv in Em as (? & ? & _ & _ & _ & Hwf).
    intros c s Hc. unfold nrows; simpl in *.
    apply lookup_delete_Some in Hc as [_ Hc]. by apply (Hwf c s).
  - apply merge_left_inv in Em as (? & ? & _ & _ & -> & _). apply NoDup_seq.
Qed.

(** The airport dimension in terms of the joined frame *)
Lemma airport_dwh_inv df_port df_airport out :
  airport_dwh df_port df_airport = Ok out ->
  exists joined region type addr,
    join df_port df_airport = Ok joined /\
    columns joined !! "iso_region" = Some region /\
    columns joined !! "type" = Some type /\
    columns joined !! "addr" = Some addr /\
    out = mkFrame (index joined)
            (<["false_join" :=
                 (fun i => Bool (bool_decide
                    (i ∈ select (outlier_mask type (cleaned re_after_hyphen region) addr)
                           (index joined))))
                 <$> index joined]>
               (<["iso_region_state" := cleaned re_after_hyphen region]>
                  (<["iso_region" := cleaned re_after_hyphen region]> (columns joined)))).
Proof.
  intros Hout.
  unfold airport_dwh, mbind, result_bind, rbind in Hout.
  destruct (join df_port df_airport) as [joined|] eqn:Ej; [|done].
  rewrite flag_run in Hout.
  destruct (columns joined !! "iso_region") as [region|] eqn:Er; [|done].
  destruct (columns joined !! "type") as [type|] eqn:Et; [|done].
  destruct (columns joined !! "addr") as [addr|] eqn:Ea; [|done].
  injection Hout as <-. by exists joined, region, type, addr.
Qed.

End AirportFacts.

Section AirportClaims.

Import Merge Airport MergeFacts AirportFacts.

(** C5, as the code has it. A left join ([pd.merge(..., how='left')]) never
    loses a row of the left table, and it has exactly as many rows as the
    left table when the key values of the right table are pairwise
    distinct. So the airport dimension has as many rows as the port
    lookup table whenever no two airports share an identifier, and the
    joined weather table has as many rows as the weather table whenever no
    two lookup rows share a country name. *)
Theorem left_join_row_count :
  (forall left right left_on right_on df rkeys,
      merge_left left right left_on right_on = Ok df ->
      columns right !! right_on = Some rkeys ->
      (nrows left <= nrows df)%nat /\ (NoDup rkeys -> nrows df = nrows left)) /\
  (forall df_port df_airport out ident,
      airport_dwh df_port df_airport = Ok out ->
      columns df_airport !! "ident" = Some ident -> NoDup ident ->
      nrows out = nrows df_port) /\
  (forall df_weather df_cntyl joined country,
      Weather.join df_weather df_cntyl = Ok joined ->
      columns df_cntyl !! "country" = Some country -> NoDup country ->
      nrows joined = nrows df_weather).
Proof.
  split; [|split].
  - intros left right left_on right_on df rkeys Hm Hr. split.
    + by eapply merge_left_nrows_ge.
    + intros Hnd. by eapply merge_left_nrows_unique.
  - intros df_port df_airport out ident Hout Hid Hnd.
    apply airport_dwh_inv in Hout as (joined & ? & ? & ? & Ej & _ & _ & _ & ->).
    destruct (join_inv _ _ _ Ej) as (merged & Em & Hix & _ & _).
    unfold nrows at 1; simpl.
    rewrite Hix. by eapply merge_left_nrows_unique.
  - intros df_weather df_cntyl joined country Hj Hc Hnd.
    by eapply merge_left_nrows_unique.
Qed.

(** C5 as stated fails: the port ABC matches two airports, and the
    airport dimension has five rows for four ports. *)
Lemma left_join_duplicates_rows :
  nrows <$> airport_dwh Samples.ports Samples.airports_dup = Ok 5%nat /\
  nrows Samples.ports = 4%nat.
Proof. split; reflexivity. Qed.

Lemma left_join_row_count_witness :
  nrows <$> airport_dwh Samples.ports Samples.airports = Ok (nrows Samples.ports).
Proof.
  destruct (airport_dwh Samples.ports Samples.airports) as [out|] eqn:E;
    [|by vm_compute in E].
  simpl. f_equal.
  apply (proj1 (proj2 left_join_row_count) Samples.ports Samples.airports out
           [Str "XYZ"; Str "ABC"; Str "QQQ"] E).
  - reflexivity.
  - compute_done.
Defined.

(** C6, as the code has it. In the airport dimension the flag
    [false_join] of a row is true exactly when the row has an airport
    type and its [iso_region_state] is unequal to its [addr] in the sense
    of [!=]: one of the two is missing, or both are missing, or both are
    there and are not the same value. Computing the flag removes no row
    and changes no other column of the joined table than [iso_region]
    (which the cleaning helper overwrites). *)
Theorem false_join_iff df_port df_airport out :
  airport_dwh df_port df_airport = Ok out ->
  exists joined type state addr flags,
    join df_port df_airport = Ok joined /\
    index out = index joined /\
    (forall c, c <> "iso_region" -> c <> "iso_region_state" -> c <> "false_join" ->
               columns out !! c = columns joined !! c) /\
    columns out !! "type" = Some type /\
    columns out !! "iso_region_state" = Some state /\
    columns out !! "addr" = Some addr /\
    columns out !! "false_join" = Some flags /\
    length flags = nrows joined /\
    forall i : nat, (i < nrows out)%nat ->
      exists t s a b,
        type !! i = Some t /\ state !! i = Some s /\ addr !! i = Some a /\
        flags !! i = Some (Bool b) /\
        (b = true <-> t <> NA /\ (s = NA \/ a = NA \/ s <> a)).
Proof.
  intros (joined & region & type & addr & Ej & Er & Et & Ea & ->)%airport_dwh_inv.
  destruct (join_inv _ _ _ Ej) as (merged & Em & Hix & Hwf & Hnd).
  set (state := cleaned re_after_hyphen region).
  exists joined, type, state, addr,
    ((fun i => Bool (bool_decide
        (i ∈ select (outlier_mask type state addr) (index joined)))) <$> index joined).
  simpl. split; [done|]. split; [done|]. split.
  { intros c H1 H2 H3. by rewrite !lookup_insert_ne. }
  split. { by rewrite !lookup_insert_ne. }
  split. { by rewrite lookup_insert_ne, lookup_insert_eq. }
  split. { by rewrite !lookup_insert_ne. }
  split. { by rewrite lookup_insert_eq. }
  split. { by rewrite length_fmap. }
  intros i Hi. unfold nrows in Hi; simpl in Hi.
  pose proof (Hwf _ _ Et) as Lt. pose proof (Hwf _ _ Ea) as La.
  pose proof (Hwf _ _ Er) as Lr. unfold nrows in Lt, La, Lr.
  assert (length state = length (index joined)) as Ls.
  { unfold state. by rewrite length_cleaned. }
  destruct (lookup_lt_is_Some_2 type i) as [t Ht]; [lia|].
  destruct (lookup_lt_is_Some_2 state i) as [s Hs]; [lia|].
  destruct (lookup_lt_is_Some_2 addr i) as [a Ha]; [lia|].
  destruct (lookup_lt_is_Some_2 (index joined) i) as [x Hx]; [lia|].
  exists t, s, a, (bool_decide (x ∈ select (outlier_mask type state addr) (index joined))).
  split; [done|]. split; [done|]. split; [done|].
  split; [by rewrite list_lookup_fmap, Hx|].
  rewrite bool_decide_eq_true, (select_lookup _ _ _ _ Hnd Hx),
    (outlier_mask_lookup _ _ _ _ _ _ _ Ht Hs Ha).
  rewrite <- cell_ne_iff.
  unfold outlier. split.
  - intros [= Hb]. apply andb_prop in Hb as [Hb Hne]. by destruct t.
  - intros [Hna Hne]. rewrite Hne. by destruct t.
Qed.

Lemma false_join_iff_witness :
  airport_dwh Samples.ports Samples.airports = Ok Samples.airport_dim /\
  exists joined type state addr flags,
    join Samples.ports Samples.airports = Ok joined /\
    index Samples.airport_dim = index joined /\
    (forall c, c <> "iso_region" -> c <> "iso_region_state" -> c <> "false_join" ->
               columns Samples.airport_dim !! c = columns joined !! c) /\
    columns Samples.airport_dim !! "type" = Some type /\
    columns Samples.airport_dim !! "iso_region_state" = Some state /\
    columns Samples.airport_dim !! "addr" = Some addr /\
    columns Samples.airport_dim !! "false_join" = Some flags /\
    length flags = nrows joined /\
    forall i : nat, (i < nrows Samples.airport_dim)%nat ->
      exists t s a b,
        type !! i = Some t /\ state !! i = Some s /\ addr !! i = Some a /\
        flags !! i = Some (Bool b) /\
        (b = true <-> t <> NA /\ (s = NA \/ a = NA \/ s <> a)).
Proof.
  split; [reflexivity|].
  apply (false_join_iff Samples.ports Samples.airports Samples.airport_dim).
  reflexivity.
Defined.

(** C6 as stated fails for a matched row whose two values are both
    missing: the port QQQ has no state and its airport has no region
    code, the two do not differ, and the row is flagged. *)
Lemma false_join_flags_two_missing_values :
  exists out,
    airport_dwh Samples.ports Samples.airports_noregion = Ok out /\
    columns out !! "i94port" = Some [Str "ABC"; Str "XYZ"; Str "QQQ"; Str "NOP"] /\
    columns out !! "type"
      = Some [Str "heliport"; Str "small_airport"; Str "large_airport"; NA] /\
    columns out !! "iso_region_state" = Some [Str "ON"; Str "AK"; NA; NA] /\
    columns out !! "addr" = Some [Str "TX"; Str "AK"; NA; Str "FL"] /\
    columns out !! "false_join"
      = Some [Bool true; Bool false; Bool true; Bool false].
Proof. eexists. by repeat split. Qed.

(** The flags of the sample: Abbeville (TX) matched a heliport in
    Ontario, Xylo (AK) an airport in Alaska, Quebec (no state) an airport
    of region U, and Nope matched nothing. *)
Example false_join_sample :
  columns Samples.airport_dim !! "false_join"
  = Some [Bool true; Bool false; Bool true; Bool false].
Proof. reflexivity. Qed.

End AirportClaims.

(** ** The pattern of the region code *)

Module RegexFacts.

Lemma of_to_string (l : chars) : of_string (to_string l) = l.
Proof. apply list_ascii_of_string_of_list_ascii. Qed.

Lemma to_of_string (s : string) : to_string (of_string s) = s.
Proof. apply string_of_list_ascii_of_string. Qed.

Lemma accepts_not c x : accepts (Not c) x = true <-> x <> c.
Proof.
  simpl. rewrite negb_true_iff. split.
  - intros H ->. by rewrite Ascii.eqb_refl in H.
  - intros H. by apply Ascii.eqb_neq.
Qed.

(** A run whose continuation is the end of the pattern takes the whole
    run of accepted characters. *)
Lemma greedy_to_end c seg rest g :
  no c seg -> stops_at c rest ->
  greedy (Not c) true (run [Close] true) (seg ++ rest) g = Some (rev g ++ seg).
Proof.
  intros Hseg Hrest. revert g.
  induction Hseg as [|x seg Hx Hseg IH]; intros g; simpl.
  - rewrite app_nil_r.
    destruct Hrest as [->|[rest' ->]]; simpl; [done|].
    by rewrite Ascii.eqb_refl.
  - apply Ascii.eqb_neq in Hx. rewrite Hx. simpl.
    rewrite IH. simpl. by rewrite <- app_assoc.
Qed.

Lemma run_after_hyphen_match seg rest :
  seg <> [] -> no hyphen seg -> stops_at hyphen rest ->
  run re_after_hyphen false (hyphen :: seg ++ rest) [] = Some seg.
Proof.
  intros Hne Hseg Hrest. destruct seg as [|x seg]; [done|].
  inversion Hseg as [|? ? Hx Hseg']; subst.
  simpl. apply Ascii.eqb_neq in Hx. rewrite Hx. simpl.
  by rewrite greedy_to_end.
Qed.

Lemma run_after_hyphen_other x s :
  x <> hyphen -> run re_after_hyphen false (x :: s) [] = None.
Proof. intros Hx%Ascii.eqb_neq. simpl. by rewrite Hx. Qed.

Lemma run_after_hyphen_double s :
  run re_after_hyphen false (hyphen :: hyphen :: s) [] = None.
Proof. reflexivity. Qed.

(** The first hyphen-free segment that follows a hyphen *)
Lemma search_after_hyphen u hy seg rest :
  no hyphen u -> hy <> [] -> only hyphen hy ->
  seg <> [] -> no hyphen seg -> stops_at hyphen rest ->
  search re_after_hyphen (u ++ hy ++ seg ++ rest) = Some seg.
Proof.
  intros Hu Hne Hhy Hs Hseg Hrest.
  induction Hu as [|x u Hx Hu IHu]; simpl app.
  - revert Hne. induction Hhy as [|x hy -> Hhy IH]; intros Hne; [done|].
    destruct hy as [|y hy].
    + simpl app. unfold search; fold search.
      by rewrite run_after_hyphen_match.
    + inversion Hhy; subst. simpl app.
      unfold search; fold search. rewrite run_after_hyphen_double.
      by apply IH.
  - unfold search; fold search. by rewrite run_after_hyphen_other.
Qed.

Lemma search_after_hyphen_none u hy :
  no hyphen u -> only hyphen hy -> search re_after_hyphen (u ++ hy) = None.
Proof.
  intros Hu Hhy.
  induction Hu as [|x u Hx Hu IH]; simpl app.
  - induction Hhy as [|x hy -> Hhy IH]; [done|].
    destruct hy as [|y hy]; [done|].
    inversion Hhy; subst.
    unfold search; fold search. by rewrite run_after_hyphen_double.
  - unfold search; fold search. by rewrite run_after_hyphen_other.
Qed.

Lemma spec_before_first_app c a b :
  no c a -> spec_before_first c (a ++ c :: b) = a.
Proof.
  induction 1 as [|x a Hx Ha IH]; simpl.
  - by rewrite Ascii.eqb_refl.
  - apply Ascii.eqb_neq in Hx. by rewrite Hx, IH.
Qed.

Lemma spec_after_last_app c a b :
  no c b -> spec_after_last c (a ++ c :: b) = b.
Proof.
  intros Hb. unfold spec_after_last.
  rewrite rev_app_distr. simpl. rewrite <- app_assoc. simpl.
  rewrite spec_before_first_app; [apply rev_involutive|].
  unfold no. by apply Forall_rev.
Qed.








(** The derived value of one row *)
Lemma cleaned_row_match r region (i : nat) l seg :
  region !! i = Some (Str (to_string l)) -> search r l = Some seg ->
  cleaned r region !! i = Some (Str (to_string (upper (strip seg)))).
Proof.
  intros Hi Hs. rewrite cleaned_lookup, Hi. simpl.
  rewrite of_to_string, Hs. simpl. by rewrite !of_to_string.
Qed.

Lemma cleaned_row_none r region (i : nat) l :
  region !! i = Some (Str (to_string l)) -> search r l = None ->
  cleaned r region !! i = Some NA.
Proof.
  intros Hi Hs. rewrite cleaned_lookup, Hi. simpl.
  by rewrite of_to_string, Hs.
Qed.

End RegexFacts.

Section RegionStateClaim.

Import Airport AirportFacts RegexFacts.

(** C7, as the code has it. In the airport dimension [iso_region_state]
    is computed from the joined [iso_region] column by the pattern
    [-([^-]+)]: for every row it is the first non-empty hyphen-free
    segment that follows a hyphen of the region code, stripped and
    uppercased; it is missing when the code has no such segment, as in a
    code without hyphen or a code that ends with its only hyphen, and
    when the code is missing. For a region code with one hyphen and text
    after it this is the text after the last hyphen. *)
Theorem iso_region_state_first_segment :
  (forall df_port df_airport out,
      airport_dwh df_port df_airport = Ok out ->
      exists joined region,
        join df_port df_airport = Ok joined /\
        columns joined !! "iso_region" = Some region /\
        columns out !! "iso_region_state" = Some (cleaned re_after_hyphen region)) /\
  (forall (region : Series) (i : nat) u hy seg rest,
      region !! i = Some (Str (to_string (u ++ hy ++ seg ++ rest))) ->
      no hyphen u -> hy <> [] -> only hyphen hy ->
      seg <> [] -> no hyphen seg -> stops_at hyphen rest ->
      cleaned re_after_hyphen region !! i
      = Some (Str (to_string (upper (strip seg))))) /\
  (forall (region : Series) (i : nat) u hy,
      region !! i = Some (Str (to_string (u ++ hy))) ->
      no hyphen u -> only hyphen hy ->
      cleaned re_after_hyphen region !! i = Some NA) /\
  (forall (region : Series) (i : nat) a b,
      region !! i = Some (Str (to_string (a ++ hyphen :: b))) ->
      no hyphen a -> b <> [] -> no hyphen b ->
      cleaned re_after_hyphen region !! i
      = Some (Str (to_string (upper (strip (spec_after_last hyphen (a ++ hyphen :: b))))))) /\
  (forall (region : Series) (i : nat),
      region !! i = Some NA ->
      cleaned re_after_hyphen region !! i = Some NA).
Proof.
  split; [|split; [|split; [|split]]].
  - intros df_port df_airport out
      (joined & region & type & addr & Ej & Er & Et & Ea & ->)%airport_dwh_inv.
    exists joined, region. simpl.
    rewrite (lookup_insert_ne _ "false_join" "iso_region_state") by done.
    by rewrite lookup_insert_eq.
  - intros region i u hy seg rest Hi Hu Hne Hhy Hs Hseg Hrest.
    eapply cleaned_row_match; [done|]. by apply search_after_hyphen.
  - intros region i u hy Hi Hu Hhy.
    eapply cleaned_row_none; [done|]. by apply search_after_hyphen_none.
  - intros region i a b Hi Ha Hne Hb.
    rewrite spec_after_last_app by done.
    eapply cleaned_row_match; [done|].
    pose proof (search_after_hyphen a [hyphen] b []) as H.
    simpl in H. rewrite app_nil_r in H. apply H; try done.
    + by repeat constructor.
    + by left.
  - intros region i Hi. by rewrite cleaned_lookup, Hi.
Qed.

Lemma iso_region_state_first_segment_witness :
  ([Str "US-U-A"] : Series) !! 0%nat
    = Some (Str (to_string (of_string "US" ++ [hyphen] ++ of_string "U" ++ of_string "-A"))) /\
  no hyphen (of_string "US") /\ [hyphen] <> [] /\ only hyphen [hyphen] /\
  of_string "U" <> [] /\ no hyphen (of_string "U") /\
  stops_at hyphen (of_string "-A") /\
  cleaned re_after_hyphen [Str "US-U-A"] !! 0%nat
  = Some (Str (to_string (upper (strip (of_string "U"))))).
Proof.
  assert (no hyphen (of_string "US")) as Hu by (by repeat constructor).
  assert (only hyphen [hyphen]) as Hhy by (by repeat constructor).
  assert (no hyphen (of_string "U")) as Hseg by (by repeat constructor).
  assert (stops_at hyphen (of_string "-A")) as Hrest by (right; by eexists).
  split; [reflexivity|]. split; [exact Hu|]. split; [done|].
  split; [exact Hhy|]. split; [done|]. split; [exact Hseg|].
  split; [exact Hrest|].
  by apply (proj1 (proj2 iso_region_state_first_segment) [Str "US-U-A"] 0%nat
              (of_string "US") [hyphen] (of_string "U") (of_string "-A")).
Defined.

(** C7 as stated fails: the airport of region US-U-A gets the state U,
    and the text after the last hyphen of its region code is A. *)
Lemma iso_region_state_not_after_last_hyphen :
  exists joined,
    join Samples.ports Samples.airports = Ok joined /\
    columns joined !! "iso_region"
      = Some [Str "CA-ON"; Str "US-AK"; Str "US-U-A"; NA] /\
    columns Samples.airport_dim !! "iso_region_state"
      = Some [Str "ON"; Str "AK"; Str "U"; NA] /\
    to_string (upper (strip (spec_after_last hyphen (of_string "US-U-A")))) = "A".
Proof. eexists. by repeat split. Qed.

End RegionStateClaim.

Section RegionOverwriteClaim.

Import Airport AirportFacts RegexFacts.



(** In the sample the region codes CA-ON, US-AK and US-U-A have become
    ON, AK and U. *)
Example iso_region_sample :
  columns Samples.airport_dim !! "iso_region"
  = Some [Str "ON"; Str "AK"; Str "U"; NA].
Proof. reflexivity. Qed.

End RegionOverwriteClaim.

(** ** The immigration table and the country codes *)

Section ImmigrationSamples.

Import Spark Immigration Weather.

(** Step 2 of the cleaner: whatever the table, no row that is kept has a
    null or NaN identity, and the cast of such a double is an integer. *)
Lemma clean_b_cicid_has_value a b vs :
  df_sas_clean_b a = Ok b -> column b "cicid" = Ok vs ->
  Forall (fun v => has_value v = true) vs.
Proof.
  unfold df_sas_clean_b, column.
  destruct (position "cicid" (schema a)) as [i|] eqn:Ei; [|done].
  intros [= <-]. cbn [schema rows]. rewrite Ei. intros [= <-].
  apply Forall_fmap, Forall_forall. intros row Hrow.
  by apply list_elem_of_filter in Hrow as [Hrow _].
Qed.

Lemma cast_integer_double x : exists z, cast_integer (SDouble x) = SInt z.
Proof. by eexists. Qed.

(** C1 on the sample table. The cleaner removes the two rows without an
    identity and keeps both rows of identity 1: [dropna] is the only
    operation on rows, nothing removes duplicates. *)
Theorem cleaner_keeps_duplicate_cicid :
  df_immigration_dwh Samples.immigration_raw = Ok Samples.immigration_dim /\
  column Samples.immigration_dim "cicid" = Ok [SInt 1; SInt 1; SInt 2].
Proof. split; vm_compute; reflexivity. Qed.

(** C2 on the sample tables. Both country columns of the immigration table
    hold the code 582 only. The list that the filter uses holds 582 + 582,
    the sum of the two columns label by label, and not 582: the rows of
    France (582) are dropped and the row of code 1164 is retained. *)
Theorem weather_filter_uses_sums :
  i94cntyl_in_sas Samples.immigration_dim = Ok [1164] /\
  country_codes Samples.immigration_dim = Ok [582] /\
  exists out,
    weather_dwh Samples.weather_raw Samples.cntyl Samples.immigration_dim = Ok out /\
    frame_col "i94cntyl" out = Ok [Int 1164] /\
    frame_col "country" out = Ok [Str "ATLANTIS"].
Proof.
  split; [vm_compute; reflexivity|]. split; [vm_compute; reflexivity|].
  eexists. split; [vm_compute; reflexivity|]. split; vm_compute; reflexivity.
Qed.

End ImmigrationSamples.

(** ** The dictionary parser *)

Module ParserFacts.

Import Parser.

Lemma keeps_index_getcol col : keeps_index (getcol col).
Proof.
  intros df a df'. unfold getcol.
  destruct (columns df !! col); [|done]. by intros [= _ <-].
Qed.

Lemma keeps_index_setcol col s : keeps_index (setcol col s).
Proof. intros df a df'. unfold setcol. by intros [= _ <-]. Qed.

Lemma keeps_index_bind {A B : Type} (m : FrameM A) (k : A -> FrameM B) :
  keeps_index m -> (forall a, keeps_index (k a)) -> keeps_index (m ≫= k).
Proof.
  intros Hm Hk df b df'. unfold mbind, FrameM_bind.
  destruct (m df) as [[a df1]|] eqn:E; [|done].
  intros H. rewrite (Hk a _ _ _ H). by eapply Hm.
Qed.

Lemma keeps_index_assign_clean_field target col r :
  keeps_index (assign_clean_field target col r).
Proof.
  intros df a df'. rewrite assign_clean_field_run.
  destruct (columns df !! col); [|done]. by intros [= _ <-].
Qed.

Lemma keeps_index_assign_astype_int col : keeps_index (assign_astype_int col).
Proof.
  intros df a df'. unfold assign_astype_int, getcol, setcol.
  destruct (columns df !! col); [|done].
  destruct (astype_int _); [|done]. by intros [= _ <-].
Qed.


Create HintDb keeps.

#[local] Hint Resolve keeps_index_getcol keeps_index_setcol keeps_index_bind
  keeps_index_assign_clean_field keeps_index_assign_astype_int : keeps.

(** *** Ranges of lines *)

Lemma length_slice a b (lines : list string) :
  (b <= length lines)%nat -> length (slice a b lines) = (b - a)%nat.
Proof. intros H. unfold slice. rewrite length_take, length_drop. lia. Qed.

Lemma column0_inv rows s :
  column0 rows = Ok s -> s = Str <$> rows /\ rows <> [].
Proof. destruct rows; [done|]. by intros [= <-]. Qed.

(** *** Splitting *)



(** *** Row counts of the tables that are returned *)

Ltac table_nrows H :=
  unfold mbind, result_bind, rbind in H;
  match type of H with
  | context [column0 ?rows] =>
      let E := fresh "E" in
      destruct (column0 rows) as [?s|] eqn:E; [|done];
      apply column0_inv in E as [-> _]
  end.







(** *** Lines on which the parser succeeds *)

Lemma split1_some c (s : chars) : c ∈ s -> is_Some (snd (split1 c s)).
Proof.
  induction s as [|x s IH]; [by inversion 1|].
  intros Hc. simpl. destruct (Ascii.eqb x c) eqn:E; [by eexists|].
  apply Ascii.eqb_neq in E. apply elem_of_cons in Hc as [->|Hc]; [done|].
  specialize (IH Hc). destruct (split1 c s) as [a b]. done.
Qed.

Lemma split_cell_line sep line :
  split_cell sep (Str line)
  = (key_cell sep line, (fun x => Str (to_string x)) <$> snd (split1 sep (of_string line))).
Proof.
  unfold split_cell, key_cell. by destruct (split1 sep (of_string line)).
Qed.

(** A range with a separator splits into two columns. *)
Lemma split_expand_lines sep rows :
  existsb (has_char sep) rows = true ->
  split_expand sep (Str <$> rows) = [key_cell sep <$> rows; value_cell sep <$> rows].
Proof.
  intros H. unfold split_expand.
  rewrite <- !list_fmap_compose.
  replace (existsb _ _) with true.
  - f_equal; [|f_equal]; apply list_fmap_ext; intros i line _; cbv [compose];
      rewrite split_cell_line; simpl; [done|].
    unfold value_cell. by destruct (snd (split1 sep (of_string line))).
  - symmetry. apply existsb_exists in H as (line & Hin & Hc).
    apply existsb_exists. exists (split_cell sep (Str line)). split.
    + apply in_map_iff. by exists line.
    + rewrite split_cell_line. simpl. apply bool_decide_eq_true_2.
      apply bool_decide_eq_true_1 in Hc. apply (split1_some sep) in Hc.
      destruct Hc as [v ->]. by eexists.
Qed.

Lemma astype_int_ok (s : Series) :
  Forall (fun c => is_ok (cell_to_int c) = true) s -> is_ok (astype_int s) = true.
Proof.
  induction 1 as [|c s Hc Hs IH]; [done|]. simpl.
  unfold mbind, result_bind, rbind.
  destruct (cell_to_int c); [|done]. by destruct (astype_int s).
Qed.

Lemma int_key_cell line :
  int_key line = true -> is_ok (cell_to_int (key_cell eq_sign line)) = true.
Proof.
  unfold int_key, key_cell, key_of, cell_to_int.
  rewrite RegexFacts.of_to_string.
  destruct (parse_int _) as [z|]; [|done]. by intros ->.
Qed.

Lemma slice_nonempty a b (lines : list string) :
  (a < b)%nat -> (b <= length lines)%nat -> slice a b lines <> [].
Proof.
  intros Hab Hb Hnil. apply (f_equal length) in Hnil.
  rewrite length_slice in Hnil by done. simpl in Hnil. lia.
Qed.

Lemma column0_ok rows : rows <> [] -> column0 rows = Ok (Str <$> rows).
Proof. by destruct rows. Qed.

Ltac lookup_cols :=
  repeat first [rewrite lookup_insert_eq | rewrite lookup_insert_ne by done].

Lemma parse_cntyl_ok lines :
  (297 <= length lines)%nat ->
  existsb (has_char eq_sign) (slice 9 297 lines) = true ->
  forallb int_key (slice 9 297 lines) = true ->
  is_ok (parse_cntyl lines) = true.
Proof.
  intros Hlen Heq Hint. unfold parse_cntyl.
  rewrite column0_ok by (apply slice_nonempty; lia).
  unfold mbind at 1, result_bind, rbind.
  rewrite split_expand_lines by done.
  unfold set_names. simpl.
  unfold exec, mbind, FrameM_bind. rewrite assign_clean_field_run. simpl.
  lookup_cols.
  unfold assign_astype_int, getcol, setcol. simpl.
  lookup_cols.
  assert (is_ok (astype_int (key_cell eq_sign <$> slice 9 297 lines)) = true) as Hk.
  { apply astype_int_ok, Forall_fmap, Forall_forall. intros line Hin.
    apply int_key_cell. rewrite forallb_forall in Hint. apply Hint.
    by apply list_elem_of_In. }
  by destruct (astype_int _).
Qed.

Lemma parse_mode_ok lines :
  (976 <= length lines)%nat ->
  existsb (has_char eq_sign) (slice 972 976 lines) = true ->
  is_ok (parse_mode lines) = true.
Proof.
  intros Hlen Heq. unfold parse_mode.
  rewrite column0_ok by (apply slice_nonempty; lia).
  unfold mbind at 1, result_bind, rbind.
  rewrite split_expand_lines by done.
  unfold set_names. simpl.
  unfold exec, mbind, FrameM_bind. rewrite assign_clean_field_run. simpl.
  lookup_cols.
  rewrite assign_clean_field_run. simpl.
  by lookup_cols.
Qed.

Lemma parse_addr_ok lines :
  (1036 <= length lines)%nat ->
  existsb (has_char eq_sign) (slice 981 1036 lines) = true ->
  is_ok (parse_addr lines) = true.
Proof.
  intros Hlen Heq. unfold parse_addr.
  rewrite column0_ok by (apply slice_nonempty; lia).
  unfold mbind at 1, result_bind, rbind.
  rewrite split_expand_lines by done.
  unfold set_names. simpl.
  unfold exec, mbind, FrameM_bind. rewrite assign_clean_field_run. simpl.
  lookup_cols.
  rewrite assign_clean_field_run. simpl.
  by lookup_cols.
Qed.

Lemma parse_visa_ok lines :
  (1049 <= length lines)%nat ->
  existsb (has_char eq_sign) (slice 1046 1049 lines) = true ->
  is_ok (parse_visa lines) = true.
Proof.
  intros Hlen Heq. unfold parse_visa.
  rewrite column0_ok by (apply slice_nonempty; lia).
  unfold mbind at 1, result_bind, rbind.
  rewrite split_expand_lines by done.
  unfold set_names. simpl.
  unfold exec. rewrite assign_clean_field_run. simpl.
  by lookup_cols.
Qed.

(** A column with a cell that holds the separator splits in two. *)
Lemma split_expand_two sep (s : Series) x :
  Str x ∈ s -> sep ∈ of_string x ->
  exists k v, split_expand sep s = [k; v].
Proof.
  intros Hx Hsep. unfold split_expand.
  replace (existsb _ _) with true; [by eexists _, _|].
  symmetry. apply existsb_exists. exists (split_cell sep (Str x)). split.
  - apply in_map_iff. exists (Str x). split; [done|]. by apply list_elem_of_In.
  - rewrite split_cell_line. simpl. apply bool_decide_eq_true_2.
    destruct (split1_some sep _ Hsep) as [v ->]. by eexists.
Qed.

Lemma comma_value_cell rows :
  existsb comma_value rows = true ->
  existsb (has_char eq_sign) rows = true /\
  exists x, Str x ∈ value_cell eq_sign <$> rows /\ comma ∈ of_string x.
Proof.
  intros (line & Hin & Hc)%existsb_exists. unfold comma_value in Hc.
  destruct (snd (split1 eq_sign (of_string line))) as [v|] eqn:Ev; [|done].
  apply bool_decide_eq_true_1 in Hc. split.
  - apply existsb_exists. exists line. split; [done|].
    apply bool_decide_eq_true_2.
    destruct (decide (eq_sign ∈ of_string line)) as [|Hno]; [done|].
    exfalso. clear -Ev Hno. revert v Ev.
    induction (of_string line) as [|c l IH]; intros v Ev; [done|].
    simpl in Ev. apply not_elem_of_cons in Hno as [Hc Hl].
    destruct (Ascii.eqb c eq_sign) eqn:E; [by apply Ascii.eqb_eq in E|].
    destruct (split1 eq_sign l) as [a b] eqn:Es. simpl in *. subst b.
    by eapply IH.
  - exists (to_string v). split.
    + apply list_elem_of_fmap. exists line. split; [|by apply list_elem_of_In].
      unfold value_cell. by rewrite Ev.
    + by rewrite RegexFacts.of_to_string.
Qed.

Lemma parse_port_ok lines :
  (962 <= length lines)%nat ->
  existsb comma_value (slice 302 962 lines) = true ->
  is_ok (parse_port lines) = true.
Proof.
  intros Hlen [Heq (x & Hx & Hc)]%comma_value_cell. unfold parse_port.
  rewrite column0_ok by (apply slice_nonempty; lia).
  unfold mbind at 1, result_bind, rbind.
  rewrite split_expand_lines by done.
  destruct (split_expand_two comma _ x Hx Hc) as (p0 & p1 & Hs).
  set (K := key_cell eq_sign <$> slice 302 962 lines) in *.
  set (V := value_cell eq_sign <$> slice 302 962 lines) in *.
  change (column 1 [K; V]) with (Ok V : result Series).
  unfold mbind, result_bind, rbind. rewrite Hs.
  unfold column, set_names. simpl.
  unfold exec, mbind, FrameM_bind. rewrite assign_clean_field_run. simpl.
  lookup_cols.
  rewrite assign_clean_field_run. simpl.
  lookup_cols.
  rewrite assign_clean_field_run. simpl.
  by lookup_cols.
Qed.


(** *** The files on which the parser succeeds *)

Lemma split1_none sep s : no sep s -> split1 sep s = (s, None).
Proof.
  induction 1 as [|x k Hx Hk IH]; simpl; [done|].
  apply Ascii.eqb_neq in Hx. by rewrite Hx, IH.
Qed.

(** A range without separator splits into one column. *)
Lemma split_expand_lines_none sep rows :
  existsb (has_char sep) rows = false ->
  split_expand sep (Str <$> rows) = [key_cell sep <$> rows].
Proof.
  intros H. unfold split_expand.
  rewrite <- !list_fmap_compose.
  replace (existsb _ _) with false.
  - f_equal. apply list_fmap_ext; intros i line _; cbv [compose].
    by rewrite split_cell_line.
  - symmetry. apply not_true_is_false. intros (p & Hin & Hp)%existsb_exists.
    apply in_map_iff in Hin as (line & <- & Hin).
    cbv [compose] in Hp. rewrite split_cell_line in Hp. simpl in Hp.
    apply bool_decide_eq_true_1 in Hp.
    assert (existsb (has_char sep) rows = true) as Ht; [|congruence].
    apply existsb_exists. exists line. split; [done|].
    apply bool_decide_eq_true_2.
    destruct (decide (sep ∈ of_string line)) as [|Hno]; [done|].
    exfalso. rewrite split1_none in Hp.
    + simpl in Hp. by destruct Hp.
    + apply Forall_forall. intros x Hx ->. done.
Qed.





Lemma slice_nil a b (lines : list string) :
  (length lines <= a)%nat -> slice a b lines = [].
Proof. intros H. unfold slice. rewrite drop_ge by done. apply take_nil. Qed.









End ParserFacts.

Section ParserClaim.

Import Parser ParserFacts.




End ParserClaim.

(** ** The race distribution *)

Module DemographicsFacts.

Import Demographics.

Lemma Zsum_add {A : Type} (f g : A -> Z) (l : list A) :
  Zsum ((fun x => f x + g x) <$> l) = Zsum (f <$> l) + Zsum (g <$> l).
Proof. unfold Zsum. induction l as [|x l IH]; csimpl; [done|]. rewrite IH. lia. Qed.

Lemma Zsum_ext {A : Type} (f g : A -> Z) (l : list A) :
  (forall x, x ∈ l -> f x = g x) -> Zsum (f <$> l) = Zsum (g <$> l).
Proof.
  unfold Zsum. induction l as [|x l IH]; intros H; csimpl; [done|].
  rewrite H, IH; [done| |apply elem_of_cons; by left].
  intros y Hy. apply H, elem_of_cons. by right.
Qed.

(** The row [v] is counted under one key at most. *)
Lemma Zsum_indicator {K : Type} `{EqDecision K} (k0 : K) (v : Z) (ks : list K) :
  NoDup ks ->
  Zsum ((fun k => if decide (k0 = k) then v else 0) <$> ks)
  = if decide (k0 ∈ ks) then v else 0.
Proof.
  unfold Zsum. induction 1 as [|k ks Hk Hnd IH]; csimpl; [done|].
  rewrite IH. destruct (decide (k0 = k)) as [->|Hne].
  - rewrite decide_False by done. rewrite decide_True; [lia|].
    apply elem_of_cons; by left.
  - destruct (decide (k0 ∈ ks)) as [Hin|Hout].
    + rewrite decide_True; [lia|]. apply elem_of_cons; by right.
    + rewrite decide_False; [lia|]. rewrite elem_of_cons. tauto.
Qed.

Section Groups.

Context {K : Type} `{EqDecision K}.
Variable key : demo_row -> option K.

Lemma total_cons r rows : total (r :: rows) = numeric (count r) + total rows.
Proof. reflexivity. Qed.

Lemma group_cons k r rows :
  total (group key k (r :: rows))
  = (if decide (key r = Some k) then numeric (count r) else 0) + total (group key k rows).
Proof.
  unfold group. rewrite filter_cons.
  destruct (decide (key r = Some k)); [by rewrite total_cons|lia].
Qed.

(** The sums of pairwise distinct groups add up to the sum of the rows that
    belong to one of them. *)
Lemma sum_of_groups ks rows :
  NoDup ks ->
  Zsum ((fun k => total (group key k rows)) <$> ks)
  = total (filter (keyed_in key ks) rows).
Proof.
  intros Hnd. induction rows as [|r rows IH].
  - unfold Zsum. clear Hnd. induction ks as [|k ks IHk]; csimpl; [done|].
    by rewrite IHk.
  - rewrite (Zsum_ext _ (fun k => (if decide (key r = Some k) then numeric (count r) else 0)
                                  + total (group key k rows)))
      by (intros; apply group_cons).
    rewrite Zsum_add, IH, filter_cons.
    assert (Zsum ((fun k => if decide (key r = Some k) then numeric (count r) else 0) <$> ks)
            = if decide (keyed_in key ks r) then numeric (count r) else 0) as ->.
    { destruct (decide (keyed_in key ks r)) as [Hin|Hout]; unfold keyed_in in *;
        destruct (key r) as [k0|] eqn:Ek; try done.
      - rewrite (Zsum_ext _ (fun k => if decide (k0 = k) then numeric (count r) else 0)).
        + rewrite Zsum_indicator by done. by rewrite decide_True.
        + intros k _. destruct (decide (k0 = k)) as [->|Hne].
          * by rewrite decide_True.
          * rewrite decide_False; [done|congruence].
      - rewrite (Zsum_ext _ (fun k => if decide (k0 = k) then numeric (count r) else 0)).
        + rewrite Zsum_indicator by done. by rewrite decide_False.
        + intros k _. destruct (decide (k0 = k)) as [->|Hne].
          * by rewrite decide_True.
          * rewrite decide_False; [done|congruence].
      - rewrite (Zsum_ext _ (fun _ => 0)).
        + clear. unfold Zsum. induction ks; csimpl; [done|]. lia.
        + intros k _. by rewrite decide_False. }
    destruct (decide (keyed_in key ks r)); [by rewrite total_cons|lia].
Qed.

Lemma assoc_groupby k rows :
  assoc k (groupby_sum key rows)
  = if decide (k ∈ omap key rows) then Some (total (group key k rows)) else None.
Proof.
  unfold groupby_sum.
  assert (forall ks, assoc k ((fun k => (k, total (group key k rows))) <$> ks)
                     = if decide (k ∈ ks) then Some (total (group key k rows)) else None)
    as Hks.
  { induction ks as [|k' ks IH]; csimpl; [done|].
    destruct (decide (k' = k)) as [->|Hne].
    - rewrite decide_True; [done|]. apply elem_of_cons; by left.
    - rewrite IH. destruct (decide (k ∈ ks)).
      + rewrite decide_True; [done|]. apply elem_of_cons; by right.
      + rewrite decide_False; [done|]. rewrite elem_of_cons. intuition congruence. }
  rewrite Hks. destruct (decide (k ∈ omap key rows)).
  - rewrite decide_True; [done|]. by apply elem_of_remove_dups.
  - rewrite decide_False; [done|]. by rewrite elem_of_remove_dups.
Qed.

End Groups.

Lemma filter_ext_elem {A : Type} (P Q : A -> Prop)
    `{forall x, Decision (P x)} `{forall x, Decision (Q x)} (l : list A) :
  (forall x, x ∈ l -> P x <-> Q x) -> filter P l = filter Q l.
Proof.
  induction l as [|x l IH]; intros Hl; [done|].
  rewrite !filter_cons.
  assert (P x <-> Q x) as Hx by (apply Hl, elem_of_cons; by left).
  rewrite IH by (intros y Hy; apply Hl, elem_of_cons; by right).
  destruct (decide (P x)), (decide (Q x)); tauto.
Qed.

(** *** Rational sums *)

Lemma sum_fractions_some {A : Type} (f : A -> Q) (l : list A) :
  sum_fractions ((fun x => Some (f x)) <$> l) = Some (Qsum (f <$> l)).
Proof. unfold Qsum. induction l as [|x l IH]; csimpl; [done|]. by rewrite IH. Qed.

Lemma Qsum_div {A : Type} (f : A -> Z) (d : Z) (l : list A) :
  (Qsum ((fun x => inject_Z (f x) / inject_Z d) <$> l)
   == inject_Z (Zsum (f <$> l)) / inject_Z d)%Q.
Proof.
  unfold Qsum, Zsum. induction l as [|x l IH]; csimpl.
  - unfold Qdiv. ring.
  - rewrite IH, inject_Z_plus. unfold Qdiv. ring.
Qed.

Lemma Qdiv_self (d : Z) : d <> 0 -> (inject_Z d / inject_Z d == 1)%Q.
Proof.
  intros Hd. field. intros H0. apply Hd.
  unfold Qeq in H0. simpl in H0. lia.
Qed.

Lemma filter_fmap {A B : Type} (f : A -> B) (P : B -> Prop)
    `{forall y, Decision (P y)} (l : list A) :
  filter P (f <$> l) = f <$> filter (fun x => P (f x)) l.
Proof.
  induction l as [|x l IH]; [done|]. csimpl.
  rewrite !filter_cons, IH. by destruct (decide (P (f x))).
Qed.

Lemma notnull_iff c : notnull c = true <-> c <> NA.
Proof. by destruct c. Qed.

Lemma key1_some r s : key1 r = Some s <-> state_code r = s /\ s <> NA.
Proof.
  unfold key1. destruct (notnull (state_code r)) eqn:E.
  - apply notnull_iff in E. split; [intros [= <-]|intros [-> _]]; done.
  - split; [done|]. intros [<- H]. by apply notnull_iff in H; congruence.
Qed.

Lemma key2_some r k :
  key2 r = Some k <->
  k = (state_code r, race r) /\ state_code r <> NA /\ race r <> NA.
Proof.
  unfold key2.
  destruct (notnull (state_code r)) eqn:E1, (notnull (race r)) eqn:E2; simpl;
    rewrite <- ?notnull_iff, ?E1, ?E2; split; try done;
    try (intros [= <-]; done); try (by intros (-> & _ & _));
    intros (_ & H1 & H2); congruence.
Qed.

(** The fractions listed for a state, in terms of its groups *)
Lemma fractions_of_state rows s T :
  assoc s (groupby_sum key1 rows) = Some T -> T <> 0 ->
  fractions_of s (fractions rows)
  = (fun k => Some (inject_Z (total (group key2 k rows)) / inject_Z T)%Q)
    <$> filter (fun k => fst k = s) (remove_dups (omap key2 rows)).
Proof.
  intros HT Hne. unfold fractions_of, fractions, groupby_sum.
  rewrite !filter_fmap, <- !list_fmap_compose.
  apply list_fmap_ext. intros i k Hk. cbv [compose]. simpl.
  apply list_elem_of_lookup_2, list_elem_of_filter in Hk as [Hs _].
  simpl in Hs. rewrite Hs.
  change (assoc s ((fun k => (k, total (group key1 k rows))) <$> remove_dups (omap key1 rows)))
    with (assoc s (groupby_sum key1 rows)).
  rewrite HT. unfold divide. by rewrite (proj2 (Z.eqb_neq T 0) Hne).
Qed.

End DemographicsFacts.

Section RaceClaim.

Import Demographics DemographicsFacts.

(** C8, as the code has it. For every state code whose total count is not
    zero and whose rows all carry a race, the fractions listed for the
    state, added as exact rationals, give 1. *)
Theorem race_fractions_sum_to_one df_demo rows out s T :
  demo_rows df_demo = Ok rows ->
  df_demo_race_dwh df_demo = Ok out ->
  assoc s (groupby_sum key1 rows) = Some T -> T <> 0 ->
  (forall r, r ∈ rows -> state_code r = s -> race r <> NA) ->
  exists q, sum_fractions (fractions_of s out) = Some q /\ (q == 1)%Q.
Proof.
  intros Hrows Hout HT Hne Hrace.
  unfold df_demo_race_dwh, mbind, result_bind, rbind in Hout.
  rewrite Hrows in Hout. injection Hout as <-.
  rewrite (fractions_of_state _ _ _ HT Hne), sum_fractions_some.
  eexists. split; [done|].
  rewrite Qsum_div.
  set (ks := filter (fun k => fst k = s) (remove_dups (omap key2 rows))).
  assert (NoDup ks) as Hnd by (apply NoDup_filter, NoDup_remove_dups).
  rewrite (sum_of_groups key2 ks rows Hnd).
  rewrite assoc_groupby in HT.
  destruct (decide (s ∈ omap key1 rows)) as [Hs|]; [|done].
  injection HT as HT.
  assert (filter (keyed_in key2 ks) rows = group key1 s rows) as ->.
  { unfold group. apply filter_ext_elem. intros r Hr. unfold keyed_in.
    rewrite key1_some. split.
    - destruct (key2 r) as [k|] eqn:Ek; [|done]. intros Hk.
      apply list_elem_of_filter in Hk as [Hk _].
      apply key2_some in Ek as (-> & H1 & _). simpl in Hk.
      split; [done|congruence].
    - intros [Hst Hna].
      assert (key2 r = Some (s, race r)) as Ek.
      { apply key2_some. rewrite Hst. repeat split; [done|]. by apply Hrace. }
      rewrite Ek. apply list_elem_of_filter. split; [done|].
      apply elem_of_remove_dups, list_elem_of_omap. by exists r. }
  rewrite HT. by apply Qdiv_self.
Qed.

Lemma race_fractions_sum_to_one_witness :
  exists q,
    sum_fractions
      (fractions_of (Str "TX") (Samples.value [] (df_demo_race_dwh Samples.demo)))
    = Some q /\ (q == 1)%Q.
Proof.
  apply (race_fractions_sum_to_one Samples.demo
           (Samples.value [] (demo_rows Samples.demo)) _ (Str "TX") 20).
  - reflexivity.
  - reflexivity.
  - reflexivity.
  - lia.
  - intros r Hr Hs. vm_compute in Hr.
    repeat (apply elem_of_cons in Hr as [->|Hr]; [by (discriminate Hs || done)|]).
    by apply elem_of_nil in Hr.
Defined.

(** C8 as stated fails: California has a total of 40 and one city row
    without a race; its only listed fraction is 30/40. *)
Lemma race_fractions_missing_race :
  exists out q,
    df_demo_race_dwh Samples.demo = Ok out /\
    assoc (Str "CA") (groupby_sum key1 (Samples.value [] (demo_rows Samples.demo)))
      = Some 40 /\
    sum_fractions (fractions_of (Str "CA") out) = Some q /\ ~ (q == 1)%Q.
Proof.
  eexists _, _. split; [reflexivity|]. split; [reflexivity|].
  split; [reflexivity|]. by vm_compute.
Qed.

End RaceClaim.

(** ** Dates *)

Module CalendarFacts.

Import Calendar.

Lemma range_all_spec depth f lo n :
  range_all depth f lo = true -> lo <= n < lo + 2 ^ Z.of_nat depth -> f n = true.
Proof.
  revert lo. induction depth as [|d IH]; intros lo H Hn.
  - simpl in *. by replace n with lo by lia.
  - rewrite Nat2Z.inj_succ, Z.pow_succ_r in Hn by lia.
    simpl in H. apply andb_prop in H as [H1 H2].
    destruct (Z.lt_ge_cases n (lo + 2 ^ Z.of_nat d)).
    + apply (IH lo); [done|lia].
    + apply (IH (lo + 2 ^ Z.of_nat d)); [done|lia].
Qed.

(** The days 1 .. 131072 and 131073 .. 147456 *)
Lemma cycle_checked_low : range_all 17 cycle_day 1 = true.
Proof. vm_cast_no_check (eq_refl true). Qed.

Lemma cycle_checked_high : range_all 14 cycle_day 131073 = true.
Proof. vm_cast_no_check (eq_refl true). Qed.

Lemma cycle_date_spec n d :
  cycle_date n d = true ->
  ymd2ord d = n /\ 1 <= year d <= 400 /\ (year d <= 399 \/ 145731 < n) /\
  1 <= month d <= 12 /\ 1 <= day d <= days_in_month (year d) (month d).
Proof.
  unfold cycle_date. intros Hc.
  repeat (apply andb_prop in Hc as [Hc ?]).
  repeat match goal with
         | H : (_ <=? _) = true |- _ => apply Z.leb_le in H
         | H : (_ =? _) = true |- _ => apply Z.eqb_eq in H
         | H : (_ || _) = true |- _ => apply orb_prop in H as [H|H]
         | H : (_ <? _) = true |- _ => apply Z.ltb_lt in H
         end; repeat split; try done; ((by left) || (by right)).
Qed.

Lemma cycle_day_ok n : 1 <= n <= DI400Y -> cycle_date n (ord2ymd n) = true.
Proof.
  intros Hn.
  assert (cycle_day n = true) as H.
  { destruct (Z.lt_ge_cases n 131073).
    - apply (range_all_spec 17 cycle_day 1 n cycle_checked_low).
      change (2 ^ Z.of_nat 17) with 131072. lia.
    - apply (range_all_spec 14 cycle_day 131073 n cycle_checked_high).
      change (2 ^ Z.of_nat 14) with 16384. unfold DI400Y in Hn. lia. }
  unfold cycle_day in H. apply orb_prop in H as [H|H]; [|done].
  apply Z.ltb_lt in H. lia.
Qed.

Lemma is_leap_shift y k : is_leap (y + 400 * k) = is_leap y.
Proof.
  unfold is_leap.
  replace ((y + 400 * k) mod 4) with (y mod 4)
    by (replace (y + 400 * k) with (y + (100 * k) * 4) by lia; by rewrite Z_mod_plus_full).
  replace ((y + 400 * k) mod 100) with (y mod 100)
    by (replace (y + 400 * k) with (y + (4 * k) * 100) by lia; by rewrite Z_mod_plus_full).
  replace ((y + 400 * k) mod 400) with (y mod 400)
    by (replace (y + 400 * k) with (y + k * 400) by lia; by rewrite Z_mod_plus_full).
  done.
Qed.

Lemma days_before_year_shift y k :
  days_before_year (y + 400 * k) = days_before_year y + DI400Y * k.
Proof.
  unfold days_before_year, DI400Y.
  replace ((y + 400 * k - 1) / 4) with ((y - 1) / 4 + 100 * k)
    by (replace (y + 400 * k - 1) with (y - 1 + (100 * k) * 4) by lia;
        by rewrite Z.div_add).
  replace ((y + 400 * k - 1) / 100) with ((y - 1) / 100 + 4 * k)
    by (replace (y + 400 * k - 1) with (y - 1 + (4 * k) * 100) by lia;
        by rewrite Z.div_add).
  replace ((y + 400 * k - 1) / 400) with ((y - 1) / 400 + k)
    by (replace (y + 400 * k - 1) with (y - 1 + k * 400) by lia;
        by rewrite Z.div_add).
  lia.
Qed.

Lemma ymd2ord_shift k d : ymd2ord (shift k d) = ymd2ord d + DI400Y * k.
Proof.
  unfold ymd2ord, shift, days_before_month; simpl.
  rewrite days_before_year_shift, is_leap_shift. lia.
Qed.

Lemma days_in_month_shift y m k : days_in_month (y + 400 * k) m = days_in_month y m.
Proof. unfold days_in_month. by rewrite is_leap_shift. Qed.

Lemma ord2ymd_shift m k :
  1 <= m <= DI400Y -> ord2ymd (m + DI400Y * k) = shift k (ord2ymd m).
Proof.
  unfold DI400Y. intros Hm. unfold ord2ymd, shift, DI400Y.
  replace ((m + 146097 * k - 1) / 146097) with k
    by (replace (m + 146097 * k - 1) with (m - 1 + k * 146097) by lia;
        rewrite Z.div_add by lia; rewrite Z.div_small; lia).
  replace ((m + 146097 * k - 1) mod 146097) with (m - 1)
    by (replace (m + 146097 * k - 1) with (m - 1 + k * 146097) by lia;
        rewrite Z_mod_plus_full; rewrite Z.mod_small; lia).
  rewrite (Z.div_small (m - 1) 146097), (Z.mod_small (m - 1) 146097) by lia.
  repeat match goal with
         | |- context [if ?c then _ else _] => destruct c
         end; simpl; f_equal; lia.
Qed.

(** Every ordinal that [datetime] can hold is the ordinal of its calendar
    date, and this date is valid. *)
Lemma ord2ymd_roundtrip n :
  1 <= n <= MAXORDINAL ->
  ymd2ord (ord2ymd n) = n /\ valid (ord2ymd n).
Proof.
  unfold MAXORDINAL. intros Hn.
  assert (exists m k, n = m + DI400Y * k /\ 1 <= m <= DI400Y /\ 0 <= k <= 24)
    as (m & k & Hnm & Hm & Hk).
  { exists ((n - 1) mod DI400Y + 1), ((n - 1) / DI400Y). unfold DI400Y.
    pose proof (Z.div_mod (n - 1) 146097).
    pose proof (Z.mod_pos_bound (n - 1) 146097).
    assert (0 <= (n - 1) / 146097) by (apply Z.div_pos; lia).
    assert ((n - 1) / 146097 < 25) by (apply Z.div_lt_upper_bound; lia).
    lia. }
  subst n.
  destruct (cycle_date_spec m _ (cycle_day_ok m Hm)) as (Hord & Hy & Hy' & Hmo & Hd).
  rewrite ord2ymd_shift, ymd2ord_shift by done.
  split; [lia|]. unfold valid, shift; cbn [year month day].
  rewrite days_in_month_shift.
  unfold DI400Y in *. lia.
Qed.

End CalendarFacts.

Section DateClaim.

Import Calendar CalendarFacts Immigration.

Lemma date_add_in_range n :
  - 715509 <= n <= 2936549 -> date_add_ n = Ok (ord2ymd (ymd2ord epoch + n)).
Proof.
  intros Hn. unfold date_add_, timedelta_max, MAXORDINAL.
  change (ymd2ord epoch) with 715510.
  rewrite (proj2 (Z.ltb_ge _ _)) by lia.
  rewrite (proj2 (Z.ltb_lt _ _)), (proj2 (Z.leb_le _ _)) by lia. done.
Qed.

(** C4, as the code has it. [date_add_] is a function of the integer
    offset: offset 0 gives 1960-01-01 and offset 1 gives 1960-01-02. For
    every offset [n] from -715509 to 2936549 it gives the valid calendar
    date whose day number is that of 1960-01-01 plus [n], so that different
    offsets give different dates; for every other offset it raises
    OverflowError, the date being outside the years 1 to 9999. *)
Theorem date_add_is_epoch_plus_days :
  date_add_ 0 = Ok (mkDate 1960 1 1) /\
  date_add_ 1 = Ok (mkDate 1960 1 2) /\
  (forall n, - 715509 <= n <= 2936549 ->
     exists d, date_add_ n = Ok d /\ valid d /\ ymd2ord d = ymd2ord epoch + n) /\
  (forall n n' d, date_add_ n = Ok d -> date_add_ n' = Ok d -> n = n') /\
  (forall n, n < - 715509 \/ 2936549 < n -> date_add_ n = Err OverflowError).
Proof.
  assert (forall n, n < - 715509 \/ 2936549 < n -> date_add_ n = Err OverflowError)
    as Hout.
  { intros n Hn. unfold date_add_, timedelta_max, MAXORDINAL.
    change (ymd2ord epoch) with 715510.
    destruct (999999999 <? Z.abs n); [done|].
    destruct Hn as [Hn|Hn].
    - by rewrite (proj2 (Z.ltb_ge 0 (715510 + n))) by lia.
    - rewrite (proj2 (Z.leb_gt (715510 + n) 3652059)) by lia.
      by destruct (0 <? 715510 + n). }
  assert (forall n d, date_add_ n = Ok d ->
            - 715509 <= n <= 2936549 /\ valid d /\ ymd2ord d = ymd2ord epoch + n)
    as Hin.
  { intros n d Hd.
    destruct (Z.lt_ge_cases n (- 715509)) as [Hlo|Hlo];
      [rewrite Hout in Hd by lia; done|].
    destruct (Z.lt_ge_cases 2936549 n) as [Hhi|Hhi];
      [rewrite Hout in Hd by lia; done|].
    rewrite date_add_in_range in Hd by lia. injection Hd as <-.
    destruct (ord2ymd_roundtrip (ymd2ord epoch + n)) as [Hr Hv].
    { change (ymd2ord epoch) with 715510. unfold MAXORDINAL. lia. }
    split; [lia|]. by split. }
  split; [reflexivity|]. split; [reflexivity|].
  split; [|split; [|exact Hout]].
  - intros n Hn. exists (ord2ymd (ymd2ord epoch + n)).
    split; [by apply date_add_in_range|].
    by apply (Hin n), date_add_in_range.
  - intros n n' d H H'.
    apply Hin in H as (_ & _ & H). apply Hin in H' as (_ & _ & H').
    rewrite H in H'. lia.
Qed.

Lemma date_add_is_epoch_plus_days_witness :
  - 715509 <= 20566 <= 2936549 /\
  exists d, date_add_ 20566 = Ok d /\ valid d /\ ymd2ord d = ymd2ord epoch + 20566.
Proof.
  split; [lia|].
  apply (proj1 (proj2 (proj2 date_add_is_epoch_plus_days)) 20566). lia.
Defined.

(** An arrival on day 20566 is an arrival on 22 April 2016. *)
Example date_add_sample : date_add_ 20566 = Ok (mkDate 2016 4 22).
Proof. reflexivity. Qed.

(** C4 as stated fails for offsets beyond the calendar of [datetime]: the
    day before 0001-01-01 and the day after 9999-12-31 raise. *)
Lemma date_add_raises_out_of_range :
  date_add_ (- 715510) = Err OverflowError /\
  date_add_ 2936550 = Err OverflowError.
Proof. split; reflexivity. Qed.

End DateClaim.

(** ** Doubles *)

Module FloatFacts.

Import Spark Immigration.

Lemma digits2_pos_bounds p :
  2 ^ (Z.pos (digits2_pos p) - 1) <= Z.pos p < 2 ^ Z.pos (digits2_pos p).
Proof.
  induction p as [p IH|p IH|]; simpl digits2_pos.
  - rewrite Pos2Z.inj_succ.
    replace (Z.succ (Z.pos (digits2_pos p)) - 1) with (Z.succ (Z.pos (digits2_pos p) - 1)) by lia.
    rewrite !Z.pow_succ_r by lia. lia.
  - rewrite Pos2Z.inj_succ.
    replace (Z.succ (Z.pos (digits2_pos p)) - 1) with (Z.succ (Z.pos (digits2_pos p) - 1)) by lia.
    rewrite !Z.pow_succ_r by lia. lia.
  - simpl. lia.
Qed.

Lemma digits2_pos_unique p d :
  2 ^ (d - 1) <= Z.pos p < 2 ^ d -> Z.pos (digits2_pos p) = d.
Proof.
  intros [Hlo Hhi]. pose proof (digits2_pos_bounds p) as [Blo Bhi].
  assert (0 < d).
  { destruct (Z.lt_ge_cases 0 d); [done|].
    assert (2 ^ d <= 2 ^ 0) by (apply Z.pow_le_mono_r; lia). simpl in *. lia. }
  assert (Z.pos (digits2_pos p) - 1 < d).
  { apply (Z.pow_lt_mono_r_iff 2); lia. }
  assert (d - 1 < Z.pos (digits2_pos p)).
  { apply (Z.pow_lt_mono_r_iff 2); lia. }
  lia.
Qed.

Lemma fexp_small e : - 1021 <= e -> fexp prec emax e = e - 53.
Proof. unfold fexp, emin, prec, emax. lia. Qed.

(** Rounding a mantissa of 53 bits with nothing to round *)
Lemma binary_round_aux_exact m e :
  2 ^ 52 <= Z.pos m < 2 ^ 53 -> - 1074 <= e <= 971 ->
  binary_round_aux prec emax false (Z.pos m) e loc_Exact = S754_finite false m e.
Proof.
  intros Hm He.
  assert (Z.pos (digits2_pos m) = 53) as Hd by (by apply digits2_pos_unique).
  unfold binary_round_aux, shr_fexp. cbn [Zdigits2 shr_record_of_loc].
  rewrite Hd, fexp_small by lia.
  replace (53 + e - 53 - e) with 0 by lia. cbn [shr shr_m loc_of_shr_record round_nearest_even].
  cbn [Zdigits2]. rewrite Hd, fexp_small by lia.
  replace (53 + e - 53 - e) with 0 by lia. cbn [shr shr_m].
  unfold prec, emax. by rewrite (proj2 (Z.leb_le e (1024 - 53))) by lia.
Qed.

(** A positive long below [2 ^ 53] is a double: its mantissa has 53 bits. *)
Lemma double_of_long_pos c :
  0 < c < 2 ^ 53 ->
  exists m e,
    double_of_long c = S754_finite false m e /\
    2 ^ 52 <= Z.pos m < 2 ^ 53 /\ - 52 <= e <= 0 /\ Z.pos m = c * 2 ^ (- e).
Proof.
  intros Hc. destruct c as [|p|p]; try lia.
  unfold double_of_long, binary_normalize, binary_round.
  pose proof (digits2_pos_bounds p) as [Blo Bhi].
  set (d := Z.pos (digits2_pos p)) in *.
  assert (1 <= d <= 53) as Hd.
  { split; [unfold d; lia|].
    destruct (Z.lt_ge_cases 53 d); [|done].
    assert (2 ^ 53 <= 2 ^ (d - 1)) by (apply Z.pow_le_mono_r; lia). lia. }
  rewrite Z.add_0_r, fexp_small by lia. unfold shl_align.
  destruct (d - 53 - 0) as [|q|q] eqn:Eq; try lia.
  - exists p, 0. assert (d = 53) as Hd53 by lia. rewrite Hd53 in *.
    rewrite binary_round_aux_exact by (simpl in *; lia).
    repeat split; simpl in *; lia.
  - assert (Z.pos (Pos.iter xO p q) = Z.pos p * 2 ^ Z.pos q) as Hm.
    { change (Pos.iter xO p q) with (shift_pos q p).
      rewrite shift_pos_correct. change (Z.pow_pos 2 q) with (2 ^ Z.pos q).
      apply Z.mul_comm. }
    assert (Z.pos q = 53 - d) as Hq by lia.
    assert (2 ^ 52 <= Z.pos p * 2 ^ Z.pos q < 2 ^ 53) as Hr.
    { rewrite Hq.
      assert (2 ^ 52 = 2 ^ (d - 1) * 2 ^ (53 - d)) as ->
        by (rewrite <- Z.pow_add_r by lia; f_equal; lia).
      assert (2 ^ 53 = 2 ^ d * 2 ^ (53 - d)) as ->
        by (rewrite <- Z.pow_add_r by lia; f_equal; lia).
      assert (0 < 2 ^ (53 - d)) by (apply Z.pow_pos_nonneg; lia).
      split; [apply Z.mul_le_mono_nonneg_r | apply Z.mul_lt_mono_pos_r]; lia. }
    exists (Pos.iter xO p q), (d - 53).
    rewrite binary_round_aux_exact by lia.
    repeat split; try lia.
    rewrite Hm. f_equal. f_equal. lia.
Qed.


Lemma div_eucl_div_mod a b : Z.div_eucl a b = (a / b, a mod b).
Proof. unfold Z.div, Z.modulo. by destruct (Z.div_eucl a b). Qed.

(** The quotient of two doubles with 53-bit mantissas, before rounding *)
Lemma SFdiv_finite m1 e1 m2 e2 :
  2 ^ 52 <= Z.pos m1 < 2 ^ 53 -> 2 ^ 52 <= Z.pos m2 < 2 ^ 53 ->
  - 52 <= e1 <= 0 -> - 52 <= e2 <= 0 ->
  SFdiv prec emax (S754_finite false m1 e1) (S754_finite false m2 e2)
  = binary_round_aux prec emax false
      (Z.pos m1 * 2 ^ 53 / Z.pos m2) (e1 - e2 - 53)
      (new_location (Z.pos m2) ((Z.pos m1 * 2 ^ 53) mod Z.pos m2)).
Proof.
  intros H1 H2 He1 He2.
  unfold SFdiv, SFdiv_core_binary. cbn [Zdigits2 xorb].
  rewrite (digits2_pos_unique m1 53), (digits2_pos_unique m2 53) by done.
  rewrite fexp_small by lia.
  replace (Z.min (53 + e1 - (53 + e2) - 53) (e1 - e2)) with (e1 - e2 - 53) by lia.
  replace (e1 - e2 - (e1 - e2 - 53)) with 53 by lia.
  cbv iota. rewrite Z.shiftl_mul_pow2 by lia.
  by rewrite div_eucl_div_mod.
Qed.

Lemma round_nearest_even_eq q l :
  round_nearest_even q l = if rounds_up q l then q + 1 else q.
Proof.
  destruct l as [|[]]; simpl; try done.
  rewrite <- Z.negb_odd. by destruct (Z.odd q).
Qed.

Lemma loc_of_record_of_loc q l : loc_of_shr_record (shr_record_of_loc q l) = l.
Proof. by destruct l as [|[]]. Qed.

Lemma shr_m_record_of_loc q l : shr_m (shr_record_of_loc q l) = q.
Proof. by destruct l as [|[]]. Qed.

Lemma shr_1_pos p r s :
  shr_1 (Build_shr_record (Z.pos p) r s)
  = Build_shr_record (Z.pos p / 2) (Z.odd (Z.pos p)) (r || s).
Proof.
  destruct p as [p|p|]; simpl shr_1; f_equal.
  - rewrite Pos2Z.inj_xI. apply Z.div_unique with 1; lia.
  - rewrite Pos2Z.inj_xO. apply Z.div_unique with 0; lia.
Qed.

(** The last step of [binary_round_aux]: a rounded mantissa of 53 bits
    stays, the mantissa [2 ^ 53] moves to the next exponent. *)
Lemma renormalise m e :
  2 ^ 52 <= m <= 2 ^ 53 -> - 1074 <= e <= 950 ->
  (let '(mrs, e') := shr_fexp prec emax m e loc_Exact in
   match shr_m mrs with
   | Z0 => S754_zero false
   | Z.pos p => if e' <=? emax - prec then S754_finite false p e' else S754_infinity false
   | Z.neg _ => S754_nan
   end)
  = if m <? 2 ^ 53 then S754_finite false (Z.to_pos m) e
    else S754_finite false (Z.to_pos (2 ^ 52)) (e + 1).
Proof.
  intros Hm He. destruct m as [|p|p]; try lia.
  unfold shr_fexp. cbn [Zdigits2 shr_record_of_loc].
  destruct (Z.ltb_spec (Z.pos p) (2 ^ 53)) as [Hlt|Hge].
  - rewrite (digits2_pos_unique p 53), fexp_small by lia.
    replace (53 + e - 53 - e) with 0 by lia. cbn [shr shr_m].
    unfold prec, emax. by rewrite (proj2 (Z.leb_le e (1024 - 53))) by lia.
  - assert (p = 9007199254740992%positive) as -> by lia.
    change (Z.pos (digits2_pos 9007199254740992)) with 54.
    rewrite fexp_small by lia.
    replace (54 + e - 53 - e) with 1 by lia.
    cbn [shr SpecFloat.iter_pos]. rewrite shr_1_pos. cbn [shr_m].
    change (Z.pos 9007199254740992 / 2) with (Z.pos 4503599627370496).
    unfold prec, emax. by rewrite (proj2 (Z.leb_le (e + 1) (1024 - 53))) by lia.
Qed.

Lemma binary_round_aux_53 q e l :
  2 ^ 52 <= q < 2 ^ 53 -> - 1074 <= e <= 900 ->
  binary_round_aux prec emax false q e l
  = let m := round_nearest_even q l in
    if m <? 2 ^ 53 then S754_finite false (Z.to_pos m) e
    else S754_finite false (Z.to_pos (2 ^ 52)) (e + 1).
Proof.
  intros Hq He. destruct q as [|p|p]; try lia.
  unfold binary_round_aux. unfold shr_fexp at 1. cbn [Zdigits2].
  rewrite (digits2_pos_unique p 53), fexp_small by lia.
  replace (53 + e - 53 - e) with 0 by lia. cbn [shr].
  rewrite loc_of_record_of_loc, shr_m_record_of_loc.
  cbv zeta. apply renormalise; [|lia].
  rewrite round_nearest_even_eq. destruct (rounds_up _ _); lia.
Qed.

Lemma binary_round_aux_54 q e l :
  2 ^ 53 <= q < 2 ^ 54 -> - 1074 <= e <= 900 ->
  binary_round_aux prec emax false q e l
  = let m := round_nearest_even (q / 2) (shifted_location q l) in
    if m <? 2 ^ 53 then S754_finite false (Z.to_pos m) (e + 1)
    else S754_finite false (Z.to_pos (2 ^ 52)) (e + 1 + 1).
Proof.
  intros Hq He. destruct q as [|p|p]; try lia.
  unfold binary_round_aux. unfold shr_fexp at 1. cbn [Zdigits2].
  rewrite (digits2_pos_unique p 54), fexp_small by lia.
  replace (54 + e - 53 - e) with 1 by lia. cbn [shr SpecFloat.iter_pos].
  assert (shr_1 (shr_record_of_loc (Z.pos p) l)
          = Build_shr_record (Z.pos p / 2) (Z.odd (Z.pos p))
              (match l with loc_Exact => false | _ => true end)) as ->.
  { destruct l as [|[]]; unfold shr_record_of_loc; by rewrite shr_1_pos. }
  cbn [shr_m]. fold (shifted_location (Z.pos p) l).
  cbv zeta. apply renormalise; [|lia].
  assert (2 ^ 52 <= Z.pos p / 2 < 2 ^ 53).
  { split; [apply Z.div_le_lower_bound; lia|apply Z.div_lt_upper_bound; lia]. }
  rewrite round_nearest_even_eq. destruct (rounds_up _ _); lia.
Qed.

(** Comparing the threshold with a positive double *)
Lemma threshold_ltb m e :
  SFltb Immigration.threshold (S754_finite false m e)
  = (- 53 <? e) || ((e =? - 53) && (8106479329266893 <? Z.pos m)).
Proof.
  unfold SFltb, SFcompare, Immigration.threshold.
  destruct (Z.compare_spec (- 53) e) as [<-|Hlt|Hgt].
  - simpl. rewrite Pos.compare_cont_spec. simpl.
    unfold Z.ltb. simpl. by destruct (8106479329266893 ?= m)%positive.
  - by rewrite (proj2 (Z.ltb_lt _ _)) by lia.
  - rewrite (proj2 (Z.ltb_ge _ _)) by lia.
    by rewrite (proj2 (Z.eqb_neq _ _)) by lia.
Qed.


Lemma new_location_spec m r :
  0 < m -> 0 <= r < m ->
  new_location m r = if r =? 0 then loc_Exact else loc_Inexact (2 * r ?= m).
Proof.
  intros Hm Hr. unfold new_location, new_location_even, new_location_odd.
  destruct (Z.even m) eqn:Em; [done|].
  destruct (r =? 0); [done|]. f_equal.
  assert (Z.odd m = true) as Ho by (by rewrite <- Z.negb_even, Em).
  apply Z.odd_spec in Ho as [k Hk].
  destruct (Z.compare_spec (2 * r + 1) m), (Z.compare_spec (2 * r) m); try done; lia.
Qed.

(** The rounded quotient is above the threshold mantissa exactly when twice
    the exact quotient reaches [2 threshold_mantissa + 1]. *)
Lemma round_above_M q r m :
  0 < m -> 0 <= r < m -> 0 <= q ->
  threshold_mantissa < round_nearest_even q (new_location m r) <-> (2 * threshold_mantissa + 1) * m <= 2 * (q * m + r).
Proof.
  intros Hm Hr Hq. rewrite round_nearest_even_eq, new_location_spec by done.
  unfold threshold_mantissa.
  destruct (Z.lt_trichotomy q 8106479329266893) as [Hlt|[->|Hgt]].
  - assert (q * m <= 8106479329266892 * m) by (apply Z.mul_le_mono_nonneg_r; lia).
    destruct (rounds_up _ _); split; lia.
  - destruct (Z.eqb_spec r 0) as [->|Hr0]; simpl rounds_up.
    + split; lia.
    + destruct (Z.compare_spec (2 * r) m); simpl; split; lia.
  - assert (8106479329266894 * m <= q * m) by (apply Z.mul_le_mono_nonneg_r; lia).
    destruct (rounds_up _ _); split; lia.
Qed.

Lemma round_shifted_above_M q l :
  0 <= q ->
  threshold_mantissa < round_nearest_even (q / 2) (shifted_location q l) <-> 2 * threshold_mantissa + 1 <= q.
Proof.
  intros Hq. rewrite round_nearest_even_eq. unfold shifted_location, threshold_mantissa.
  pose proof (Z.div_mod q 2 ltac:(lia)) as Hdm.
  pose proof (Z.mod_pos_bound q 2 ltac:(lia)) as Hb.
  rewrite Zodd_mod.
  destruct (Z.lt_trichotomy (q / 2) 8106479329266893) as [Hlt|[Heq|Hgt]].
  - destruct (rounds_up _ _); split; lia.
  - rewrite Heq.
    destruct (Z.eqb_spec (q mod 2) 1) as [H1|H1]; destruct l as [|[]]; simpl;
      split; lia.
  - destruct (rounds_up _ _); split; lia.
Qed.

Lemma pow2_pos e : 0 < 2 ^ e \/ e < 0.
Proof. destruct (Z.lt_ge_cases e 0); [by right|left]. by apply Z.pow_pos_nonneg. Qed.

Lemma pow2_split a b : 0 <= a -> 0 <= b -> 2 ^ (a + b) = 2 ^ a * 2 ^ b.
Proof. intros. by apply Z.pow_add_r. Qed.

(** Comparing the null fraction with the threshold, in integers *)
Lemma exceeds_threshold c t :
  0 <= c <= t -> 0 < t < 2 ^ 50 ->
  Immigration.exceeds (divide c t) = Ok (9 * t <? 10 * c).
Proof.
  intros Hc Ht. unfold divide, Immigration.exceeds.
  rewrite (proj2 (Z.eqb_neq t 0)) by lia. f_equal.
  destruct (double_of_long_pos t) as (m2 & e2 & -> & Hm2 & He2 & Hv2); [lia|].
  destruct (Z.eq_dec c 0) as [->|Hc0].
  { simpl. symmetry. apply Z.ltb_ge. lia. }
  destruct (double_of_long_pos c) as (m1 & e1 & -> & Hm1 & He1 & Hv1); [lia|].
  rewrite SFdiv_finite by done.
  set (a := Z.pos m1) in *. set (b := Z.pos m2) in *. clearbody a b. clear m1 m2.
  rename a into m1, b into m2.
  set (q := m1 * 2 ^ 53 / m2).
  set (r := (m1 * 2 ^ 53) mod m2).
  assert (m1 * 2 ^ 53 = m2 * q + r) as Hqr by (apply Z.div_mod; lia).
  assert (0 <= r < m2) as Hr by (apply Z.mod_pos_bound; lia).
  clearbody q r.
  assert (0 < 2 ^ (- e1)) as Hp1 by (apply Z.pow_pos_nonneg; lia).
  assert (0 < 2 ^ (- e2)) as Hp2 by (apply Z.pow_pos_nonneg; lia).
  (* the exponent of c is not above the exponent of t *)
  assert (e1 <= e2) as He.
  { destruct (Z.lt_ge_cases e2 e1) as [Hgt|]; [|done]. exfalso.
    assert (2 ^ (- e2) = 2 ^ (e1 - e2) * 2 ^ (- e1)) as Hs
      by (rewrite <- pow2_split by lia; f_equal; lia).
    assert (2 <= 2 ^ (e1 - e2)) by (change 2 with (2 ^ 1) at 1; apply Z.pow_le_mono_r; lia).
    assert (c * 2 ^ (- e1) <= t * 2 ^ (- e1)) by (apply Z.mul_le_mono_nonneg_r; lia).
    assert (2 * (t * 2 ^ (- e1)) <= 2 ^ (e1 - e2) * (t * 2 ^ (- e1)))
      by (apply Z.mul_le_mono_nonneg_r; lia).
    rewrite Hv2, Hs in Hm2. rewrite Hv1 in Hm1.
    replace (t * (2 ^ (e1 - e2) * 2 ^ (- e1))) with (2 ^ (e1 - e2) * (t * 2 ^ (- e1)))
      in Hm2 by ring.
    lia. }
  destruct (Z.lt_ge_cases m1 m2) as [Hlt|Hge].
  - (* the quotient has 53 bits *)
    assert (2 ^ 52 <= q < 2 ^ 53) as Hq.
    { split.
      - destruct (Z.lt_ge_cases q (2 ^ 52)) as [Hq|]; [exfalso|done].
        assert (m2 * (q + 1) <= m2 * 2 ^ 52) by (apply Z.mul_le_mono_nonneg_l; lia).
        assert (m2 * 2 ^ 52 < 2 ^ 53 * 2 ^ 52) by (apply Z.mul_lt_mono_pos_r; lia).
        assert (2 ^ 52 * 2 ^ 53 <= m1 * 2 ^ 53) by (apply Z.mul_le_mono_nonneg_r; lia).
        lia.
      - destruct (Z.lt_ge_cases q (2 ^ 53)) as [|Hq]; [done|exfalso].
        assert (m2 * 2 ^ 53 <= m2 * q) by (apply Z.mul_le_mono_nonneg_l; lia).
        assert (m1 * 2 ^ 53 < m2 * 2 ^ 53) by (apply Z.mul_lt_mono_pos_r; lia).
        lia. }
    rewrite binary_round_aux_53 by lia. cbv zeta.
    pose proof (round_above_M q r m2 ltac:(lia) Hr ltac:(lia)) as HM.
    set (m := round_nearest_even q (new_location m2 r)) in *.
    assert (2 ^ 52 <= m <= 2 ^ 53) as Hmr.
    { unfold m. rewrite round_nearest_even_eq. destruct (rounds_up _ _); lia. }
    destruct (Z.eq_dec e1 e2) as [->|Hne].
    + (* same exponent: the mantissas decide *)
      assert (m1 = c * 2 ^ (- e2) /\ m2 = t * 2 ^ (- e2)) as [Hc1 Ht1] by done.
      assert ((2 * threshold_mantissa + 1) * m2 <= 2 * (q * m2 + r) <-> 9 * t < 10 * c) as Hiff.
      { replace (q * m2 + r) with (m1 * 2 ^ 53) by lia. unfold threshold_mantissa. subst m1 m2.
        replace ((2 * 8106479329266893 + 1) * (t * 2 ^ (- e2)))
          with ((16212958658533787 * t) * 2 ^ (- e2)) by ring.
        replace (2 * (c * 2 ^ (- e2) * 2 ^ 53))
          with ((18014398509481984 * c) * 2 ^ (- e2)) by ring.
        rewrite <- Z.mul_le_mono_pos_r by done. lia. }
      replace (e2 - e2 - 53) with (- 53) by lia.
      destruct (Z.ltb_spec m (2 ^ 53)); rewrite threshold_ltb.
      * rewrite Z2Pos.id by lia. simpl "<?" at 1. simpl "=?".
        cbn [orb andb]. fold threshold_mantissa.
        destruct (Z.ltb_spec threshold_mantissa m), (Z.ltb_spec (9 * t) (10 * c)); try done; lia.
      * simpl. symmetry. apply Z.ltb_lt. apply Hiff, HM. unfold threshold_mantissa. lia.
    + (* c has a smaller exponent: the quotient is below one half *)
      assert (2 ^ (- e1) = 2 ^ (e2 - e1) * 2 ^ (- e2)) as Hs
        by (rewrite <- pow2_split by lia; f_equal; lia).
      assert (2 <= 2 ^ (e2 - e1))
        by (change 2 with (2 ^ 1) at 1; apply Z.pow_le_mono_r; lia).
      assert (c * 2 ^ (e2 - e1) < t).
      { apply (Z.mul_lt_mono_pos_r (2 ^ (- e2))); [done|].
        rewrite <- Z.mul_assoc, <- Hs. lia. }
      assert (c * 2 <= c * 2 ^ (e2 - e1)) by (apply Z.mul_le_mono_nonneg_l; lia).
      assert (2 * c < t) by lia.
      rewrite (proj2 (Z.ltb_ge (9 * t) (10 * c))) by lia.
      destruct (Z.ltb_spec m (2 ^ 53)); rewrite threshold_ltb.
      * rewrite (proj2 (Z.ltb_ge _ _)), (proj2 (Z.eqb_neq _ _)) by lia. done.
      * rewrite (proj2 (Z.ltb_ge _ _)) by lia. simpl.
        by destruct (e1 - e2 - 53 + 1 =? - 53).
  - (* the quotient has 54 bits *)
    assert (2 ^ 53 <= q < 2 ^ 54) as Hq.
    { split.
      - destruct (Z.lt_ge_cases q (2 ^ 53)) as [Hq|]; [exfalso|done].
        assert (m2 * (q + 1) <= m2 * 2 ^ 53) by (apply Z.mul_le_mono_nonneg_l; lia).
        assert (m2 * 2 ^ 53 <= m1 * 2 ^ 53) by (apply Z.mul_le_mono_nonneg_r; lia).
        lia.
      - destruct (Z.lt_ge_cases q (2 ^ 54)) as [|Hq]; [done|exfalso].
        assert (m2 * 2 ^ 54 <= m2 * q) by (apply Z.mul_le_mono_nonneg_l; lia).
        assert (2 ^ 52 * 2 ^ 54 <= m2 * 2 ^ 54) by (apply Z.mul_le_mono_nonneg_r; lia).
        assert (m1 * 2 ^ 53 < 2 ^ 53 * 2 ^ 53) by (apply Z.mul_lt_mono_pos_r; lia).
        lia. }
    rewrite binary_round_aux_54 by lia. cbv zeta.
    pose proof (round_shifted_above_M q (new_location m2 r) ltac:(lia)) as HM.
    set (m := round_nearest_even (q / 2) (shifted_location q (new_location m2 r))) in *.
    assert (2 ^ 52 <= m <= 2 ^ 53) as Hmr.
    { assert (2 ^ 52 <= q / 2 < 2 ^ 53).
      { split; [apply Z.div_le_lower_bound; lia|apply Z.div_lt_upper_bound; lia]. }
      unfold m. rewrite round_nearest_even_eq. destruct (rounds_up _ _); lia. }
    destruct (Z.eq_dec e1 e2) as [->|Hne];
      [|destruct (Z.eq_dec e1 (e2 - 1)) as [->|Hne']].
    + (* same exponent: c = t, the quotient is one *)
      assert (t <= c).
      { apply (Z.mul_le_mono_pos_r _ _ (2 ^ (- e2))); [done|lia]. }
      assert (c = t) by lia.
      rewrite (proj2 (Z.ltb_lt (9 * t) (10 * c))) by lia.
      destruct (Z.ltb_spec m (2 ^ 53)); rewrite threshold_ltb;
        by rewrite (proj2 (Z.ltb_lt _ _)) by lia.
    + (* one exponent apart: the mantissas decide *)
      assert (2 ^ (- (e2 - 1)) = 2 * 2 ^ (- e2)) as Hs.
      { replace (- (e2 - 1)) with (1 + - e2) by lia. by rewrite pow2_split by lia. }
      assert (2 * threshold_mantissa + 1 <= q <-> 9 * t < 10 * c) as Hiff.
      { assert (2 * threshold_mantissa + 1 <= q <-> (2 * threshold_mantissa + 1) * m2 <= m1 * 2 ^ 53) as ->.
        { rewrite Hqr. split; intros H.
          - assert (m2 * (2 * threshold_mantissa + 1) <= m2 * q) by (apply Z.mul_le_mono_nonneg_l; lia).
            lia.
          - destruct (Z.lt_ge_cases q (2 * threshold_mantissa + 1)) as [Hq'|]; [exfalso|done].
            assert (m2 * (q + 1) <= m2 * (2 * threshold_mantissa + 1))
              by (apply Z.mul_le_mono_nonneg_l; lia).
            lia. }
        unfold threshold_mantissa. rewrite Hv1, Hv2, Hs.
        replace ((2 * 8106479329266893 + 1) * (t * 2 ^ (- e2)))
          with ((16212958658533787 * t) * 2 ^ (- e2)) by ring.
        replace (c * (2 * 2 ^ (- e2)) * 2 ^ 53)
          with ((18014398509481984 * c) * 2 ^ (- e2)) by ring.
        rewrite <- Z.mul_le_mono_pos_r by done. lia. }
      replace (e2 - 1 - e2 - 53 + 1) with (- 53) by lia.
      destruct (Z.ltb_spec m (2 ^ 53)); rewrite threshold_ltb.
      * rewrite Z2Pos.id by lia. simpl "<?" at 1. simpl "=?".
        cbn [orb andb]. fold threshold_mantissa.
        destruct (Z.ltb_spec threshold_mantissa m), (Z.ltb_spec (9 * t) (10 * c)); try done; lia.
      * simpl. symmetry. apply Z.ltb_lt. apply Hiff, HM. unfold threshold_mantissa. lia.
    + (* further apart: the quotient is below one half *)
      assert (2 ^ (- e1) = 2 ^ (e2 - e1) * 2 ^ (- e2)) as Hs
        by (rewrite <- pow2_split by lia; f_equal; lia).
      assert (4 <= 2 ^ (e2 - e1))
        by (change 4 with (2 ^ 2) at 1; apply Z.pow_le_mono_r; lia).
      assert (c * 2 ^ (e2 - e1) < 2 * t).
      { apply (Z.mul_lt_mono_pos_r (2 ^ (- e2))); [done|].
        rewrite <- Z.mul_assoc, <- Hs. lia. }
      assert (c * 4 <= c * 2 ^ (e2 - e1)) by (apply Z.mul_le_mono_nonneg_l; lia).
      assert (2 * c < t) by lia.
      rewrite (proj2 (Z.ltb_ge (9 * t) (10 * c))) by lia.
      destruct (Z.ltb_spec m (2 ^ 53)); rewrite threshold_ltb.
      * rewrite (proj2 (Z.ltb_ge _ _)), (proj2 (Z.eqb_neq _ _)) by lia. done.
      * rewrite (proj2 (Z.ltb_ge _ _)) by lia. simpl.
        by destruct (e1 - e2 - 53 + 1 + 1 =? - 53).
Qed.

End FloatFacts.

Section ThresholdClaim.

Import Spark Immigration FloatFacts.

Lemma position_elem c names : c ∈ names -> is_Some (position c names).
Proof.
  induction names as [|n names IH]; [by inversion 1|].
  intros Hc. simpl. case_bool_decide as Hn; [by eexists|].
  apply elem_of_cons in Hc as [->|Hc]; [done|].
  destruct (IH Hc) as [i ->]. by eexists.
Qed.

Lemma null_count_ok df c :
  c ∈ schema df -> exists n, null_count df c = Ok n /\ 0 <= n <= count df.
Proof.
  intros [i Hi]%position_elem. unfold null_count, column. rewrite Hi.
  eexists. split; [reflexivity|]. unfold count. split; [lia|].
  apply Nat2Z.inj_le.
  etrans; [apply length_filter|]. by rewrite length_fmap.
Qed.

Lemma empty_cols_loop_run df cols :
  0 < count df < 2 ^ 50 -> (forall c, c ∈ cols -> c ∈ schema df) ->
  empty_cols_loop df cols = Ok (filter (fun c => above_threshold df c = true) cols).
Proof.
  intros Hn. induction cols as [|c cols IH]; intros Hcols; [done|].
  assert (c ∈ schema df) as Hc by (apply Hcols, elem_of_cons; by left).
  destruct (null_count_ok df c Hc) as (n & Hnc & Hb).
  cbn [empty_cols_loop]. unfold null_fraction, mbind, result_bind, rbind. rewrite Hnc.
  rewrite exceeds_threshold by lia.
  rewrite IH by (intros c' Hc'; apply Hcols, elem_of_cons; by right).
  rewrite filter_cons.
  assert (above_threshold df c = (9 * count df <? 10 * n)) as Ha
    by (unfold above_threshold; by rewrite Hnc).
  destruct (9 * count df <? 10 * n).
  - by rewrite decide_True.
  - rewrite decide_False; [done|]. by rewrite Ha.
Qed.

Lemma select_fmap_elem {A : Type} (f : A -> bool) (l : list A) x :
  x ∈ select (f <$> l) l <-> x ∈ l /\ f x = true.
Proof.
  induction l as [|y l IH]; csimpl.
  - split; [by inversion 1|by intros [H _]; inversion H].
  - destruct (f y) eqn:Ey; rewrite ?elem_of_cons, IH; split.
    + intros [->|[H1 H2]]; auto.
    + intros [[->|H1] H2]; auto.
    + intros [H1 H2]; auto.
    + intros [[->|H1] H2]; [congruence|auto].
Qed.

Lemma is_missing_iff v : is_missing v = true <-> null_or_nan v.
Proof.
  unfold is_missing. destruct v as [|x|z|s|y m d]; simpl; try done.
  - destruct x; simpl; split; done.
  - rewrite orb_false_r, !orb_true_iff, !bool_decide_eq_true.
    rewrite !elem_of_cons, elem_of_nil. tauto.
Qed.

(** What the code counts is the number of null-or-NaN values. *)
Lemma null_count_cells df c i :
  position c (schema df) = Some i -> null_count df c = Ok (missing_cells df i).
Proof.
  intros Hi. unfold null_count, column, missing_cells. rewrite Hi.
  unfold mbind, result_bind, rbind. do 2 f_equal.
  induction (rows df) as [|row l IH]; [done|]. csimpl.
  rewrite !filter_cons.
  destruct (decide (is_missing (field i row) = true)) as [H|H],
           (decide (null_or_nan (field i row))) as [H'|H']; simpl;
    rewrite ?IH; try done; by apply is_missing_iff in H || apply is_missing_iff in H'.
Qed.

Lemma position_some_elem c names i : position c names = Some i -> c ∈ names.
Proof.
  revert i. induction names as [|n names IH]; intros i; [done|].
  cbn [position]. case_bool_decide as Hn; [subst; intros _; by left|].
  destruct (position c names) as [i'|]; [|done].
  intros _. right. by eapply IH.
Qed.

(** Dropping columns leaves the values of the others as they are. *)
Lemma select_position (keep : string -> bool) names c i :
  position c names = Some i -> keep c = true ->
  exists j, position c (select (keep <$> names) names) = Some j /\
    forall row : list scell, field j (select (keep <$> names) row) = field i row.
Proof.
  revert i. induction names as [|n names IH]; intros i; [done|].
  cbn [position]. case_bool_decide as Hn.
  - intros [= <-] Hk. subst n. csimpl. rewrite Hk. cbn [position].
    rewrite bool_decide_eq_true_2 by done.
    exists 0%nat. split; [done|]. by intros [|v row].
  - destruct (position c names) as [i'|] eqn:Ei; [|done].
    intros [= <-] Hk. destruct (IH i' eq_refl Hk) as (j & Hj & Hf).
    csimpl. destruct (keep n) eqn:Ekn.
    + cbn [position]. rewrite bool_decide_eq_false_2 by done. rewrite Hj.
      exists (S j). split; [done|]. intros [|v row]; [done|]. apply Hf.
    + exists j. split; [done|]. intros [|v row]; [|apply Hf].
      specialize (Hf []). by destruct (keep <$> names).
Qed.

Lemma drop_column_kept cols df c :
  c ∈ schema (drop cols df) -> column (drop cols df) c = column df c.
Proof.
  unfold drop. cbn [schema]. intros Hc.
  apply select_fmap_elem in Hc as [Hc Hk].
  destruct (position_elem _ _ Hc) as [i Hi].
  destruct (select_position (fun c => negb (bool_decide (c ∈ cols))) _ _ _ Hi Hk)
    as (j & Hj & Hf).
  unfold column. cbn [schema rows]. rewrite Hi, Hj. f_equal.
  rewrite <- list_fmap_compose. apply list_fmap_ext. intros k row _. apply Hf.
Qed.

(** C3, as the code has it. For a raw table that has rows, fewer than
    [2 ^ 50] of them, step 1 finishes; it removes no row and adds no
    column; a column of the raw table is dropped exactly when the number
    of its null-or-NaN values, divided by the number of rows, is above
    9/10, and it is kept otherwise, with its values as they were. Up to
    this number of rows the quotient of doubles that the code compares
    with the literal 0.9 decides the comparison of the exact fraction
    with 9/10. *)
Theorem column_dropped_iff_above_threshold df_sas :
  rows df_sas <> [] -> count df_sas < 2 ^ 50 ->
  exists a,
    df_sas_clean_a df_sas = Ok a /\
    count a = count df_sas /\
    (forall c, c ∈ schema a -> c ∈ schema df_sas /\ column a c = column df_sas c) /\
    forall c i, position c (schema df_sas) = Some i ->
      (c ∉ schema a <->
       (9 # 10 < null_ratio (missing_cells df_sas i) (count df_sas))%Q).
Proof.
  intros Hrows Hsize.
  assert (0 < count df_sas) as Hpos.
  { unfold count. destruct (rows df_sas); [done|]. simpl length. lia. }
  unfold df_sas_clean_a, empty_cols, mbind, result_bind, rbind.
  rewrite empty_cols_loop_run by (done || lia).
  eexists. split; [reflexivity|]. split; [|split].
  - unfold drop, count. cbn [rows]. by rewrite length_fmap.
  - intros c Hc. split; [|by apply drop_column_kept].
    unfold drop in Hc. cbn [schema] in Hc.
    by apply select_fmap_elem in Hc as [Hc _].
  - intros c i Hi.
    pose proof (position_some_elem _ _ _ Hi) as Hc.
    pose proof (null_count_cells _ _ _ Hi) as Hnc.
    destruct (null_count_ok df_sas c Hc) as (n & Hnc' & Hb).
    rewrite Hnc in Hnc'. injection Hnc' as <-.
    unfold drop. cbn [schema].
    rewrite select_fmap_elem, negb_true_iff, bool_decide_eq_false.
    rewrite list_elem_of_filter. unfold above_threshold. rewrite Hnc.
    unfold null_ratio, Qlt. cbn [Qnum Qden]. rewrite Z2Pos.id by lia.
    rewrite Z.ltb_lt. split.
    + intros H.
      destruct (Z.lt_ge_cases (9 * count df_sas) (10 * missing_cells df_sas i)); [lia|].
      exfalso. apply H. split; [done|]. intros [? _]. lia.
    + intros H [_ Hn]. apply Hn. split; [lia|done].
Qed.

Lemma column_dropped_iff_above_threshold_witness :
  rows Samples.sparse <> [] /\ count Samples.sparse < 2 ^ 50 /\
  exists a,
    df_sas_clean_a Samples.sparse = Ok a /\
    count a = count Samples.sparse /\
    (forall c, c ∈ schema a ->
       c ∈ schema Samples.sparse /\ column a c = column Samples.sparse c) /\
    forall c i, position c (schema Samples.sparse) = Some i ->
      (c ∉ schema a <->
       (9 # 10 < null_ratio (missing_cells Samples.sparse i) (count Samples.sparse))%Q).
Proof.
  assert (rows Samples.sparse <> []) as Hrows by done.
  assert (count Samples.sparse < 2 ^ 50) as Hsize by reflexivity.
  split; [exact Hrows|]. split; [exact Hsize|].
  exact (column_dropped_iff_above_threshold Samples.sparse Hrows Hsize).
Defined.

Lemma filter_replicate {A : Type} (P : A -> Prop) `{forall x, Decision (P x)}
    (n : nat) (x : A) :
  filter P (replicate n x) = if decide (P x) then replicate n x else [].
Proof.
  induction n as [|n IH]; [by destruct (decide (P x))|].
  cbn [replicate]. rewrite filter_cons, IH. by destruct (decide (P x)).
Qed.

Lemma count_vast : count Samples.vast = 2000000000000001.
Proof.
  unfold count, Samples.vast. cbn [rows].
  rewrite length_app, !length_replicate, Nat2Z.inj_add, !Z2Nat.id by done.
  reflexivity.
Qed.

Lemma missing_cells_vast : missing_cells Samples.vast 0 = 1800000000000001.
Proof.
  unfold missing_cells, Samples.vast. cbn [rows].
  rewrite filter_app, !filter_replicate.
  rewrite decide_True by exact I.
  rewrite decide_False.
  2:{ intros H. cbn [field lookup list_lookup default null_or_nan] in H.
      repeat (apply elem_of_cons in H as [H|H]; [by vm_compute in H|]).
      by apply elem_of_nil in H. }
  rewrite app_nil_r, length_replicate, Z2Nat.id by done.
  reflexivity.
Qed.

(** C3 as stated fails for very large tables. Of the 2 000 000 000 000 001
    rows of the table 1 800 000 000 000 001 are null in the column, which
    is more than 9/10; the quotient of the two counts as doubles is the
    double 0.9, which is not above the threshold, and the column is
    kept. *)
Lemma threshold_keeps_column_of_vast_table :
  count Samples.vast = 2000000000000001 /\
  missing_cells Samples.vast 0 = 1800000000000001 /\
  (9 # 10 < null_ratio (missing_cells Samples.vast 0) (count Samples.vast))%Q /\
  null_fraction Samples.vast "occup"
    = Ok (divide 1800000000000001 2000000000000001) /\
  exceeds (divide 1800000000000001 2000000000000001) = Ok false /\
  empty_cols Samples.vast = Ok [] /\
  schema <$> df_sas_clean_a Samples.vast = Ok ["occup"].
Proof.
  assert (exceeds (divide 1800000000000001 2000000000000001) = Ok false) as He
    by (vm_compute; reflexivity).
  assert (null_fraction Samples.vast "occup"
          = Ok (divide 1800000000000001 2000000000000001)) as Hf.
  { unfold null_fraction.
    rewrite (null_count_cells Samples.vast "occup" 0 eq_refl).
    unfold mbind, result_bind, rbind.
    by rewrite missing_cells_vast, count_vast. }
  assert (empty_cols Samples.vast = Ok []) as Hcols.
  { unfold empty_cols. change (schema Samples.vast) with ["occup"].
    cbn [empty_cols_loop]. rewrite Hf.
    unfold mbind, result_bind, rbind. rewrite He. reflexivity. }
  split; [apply count_vast|]. split; [apply missing_cells_vast|].
  split; [by rewrite missing_cells_vast, count_vast|].
  split; [exact Hf|]. split; [exact He|]. split; [exact Hcols|].
  unfold df_sas_clean_a, mbind, result_bind, rbind. rewrite Hcols.
  reflexivity.
Qed.

(** Of ten rows the column with nine nulls is kept and the column with ten
    is dropped. *)
Example empty_cols_sample :
  empty_cols Samples.sparse = Ok ["all_null"] /\
  schema <$> df_sas_clean_a Samples.sparse = Ok ["cicid"; "nine_of_ten"].
Proof. split; vm_compute; reflexivity. Qed.

End ThresholdClaim.

(** * Further properties of the notebook *)

(** ** What the patterns of the parser extract *)

Module PatternFacts.

Import RegexFacts.

(** A run of the group that ends where the class ends: when the rest of
    the pattern matches there, nothing is given back. *)
Lemma greedy_group c k seg rest g r :
  no c seg -> stops_at c rest ->
  k rest (rev seg ++ g) = Some r ->
  greedy (Not c) true k (seg ++ rest) g = Some r.
Proof.
  intros Hseg Hrest. revert g.
  induction Hseg as [|x seg Hx Hseg IH]; intros g Hk; simpl in *.
  - destruct Hrest as [->|[rest' ->]]; simpl; [done|].
    by rewrite Ascii.eqb_refl.
  - apply Ascii.eqb_neq in Hx. rewrite Hx. simpl.
    rewrite IH; [done|]. by rewrite <- app_assoc in Hk.
Qed.

Lemma run_lit_other r c x s :
  x <> c -> run (One (Lit c) :: r) false (x :: s) [] = None.
Proof. intros Hx%Ascii.eqb_neq. simpl. by rewrite Hx. Qed.

Lemma search_skip r c u s :
  no c u -> search (One (Lit c) :: r) (u ++ s) = search (One (Lit c) :: r) s.
Proof.
  induction 1 as [|x u Hx Hu IH]; [done|]. simpl app.
  unfold search; fold search. by rewrite run_lit_other.
Qed.

Lemma search_lit_none r c u : no c u -> search (One (Lit c) :: r) u = None.
Proof.
  induction 1 as [|x u Hx Hu IH]; [done|].
  unfold search; fold search. by rewrite run_lit_other.
Qed.

(** ['([^']+)'] *)
Lemma search_quoted u seg rest :
  no quote u -> seg <> [] -> no quote seg ->
  search re_quoted (u ++ quote :: seg ++ quote :: rest) = Some seg.
Proof.
  intros Hu Hne Hseg. unfold re_quoted. rewrite search_skip by done.
  destruct seg as [|x seg]; [done|].
  inversion Hseg as [|? ? Hx Hseg']; subst.
  unfold search; fold search. simpl.
  apply Ascii.eqb_neq in Hx. rewrite Hx. simpl.
  rewrite (greedy_group quote _ seg (quote :: rest) [x] (x :: seg)); try done.
  - right. by eexists.
  - simpl. rewrite rev_app_distr, rev_involutive. done.
Qed.

(** ['([^']+)] *)
Lemma search_after_quote u seg rest :
  no quote u -> seg <> [] -> no quote seg -> stops_at quote rest ->
  search re_after_quote (u ++ quote :: seg ++ rest) = Some seg.
Proof.
  intros Hu Hne Hseg Hrest. unfold re_after_quote. rewrite search_skip by done.
  destruct seg as [|x seg]; [done|].
  inversion Hseg as [|? ? Hx Hseg']; subst.
  unfold search; fold search. simpl.
  apply Ascii.eqb_neq in Hx. rewrite Hx. simpl.
  rewrite (greedy_group quote _ seg rest [x] (x :: seg)); try done.
  simpl. by rewrite rev_app_distr, rev_involutive.
Qed.

(** [([^']+)'] *)
Lemma search_before_quote seg rest :
  seg <> [] -> no quote seg ->
  search re_before_quote (seg ++ quote :: rest) = Some seg.
Proof.
  intros Hne Hseg. unfold re_before_quote.
  destruct seg as [|x seg]; [done|].
  inversion Hseg as [|? ? Hx Hseg']; subst.
  simpl app. unfold search; fold search. simpl.
  apply Ascii.eqb_neq in Hx. rewrite Hx. simpl.
  rewrite (greedy_group quote _ seg (quote :: rest) [x] (x :: seg)); try done.
  - right. by eexists.
  - simpl. by rewrite rev_app_distr, rev_involutive.
Qed.

Lemma greedy_space k ws s g r :
  blank_text ws -> starts_solid s -> k s g = Some r ->
  greedy Space false k (ws ++ s) g = Some r.
Proof.
  intros Hws Hs Hk. induction Hws as [|x ws Hx Hws IH]; cbn [app greedy accepts].
  - destruct s as [|y s]; [done|]. cbn [starts_solid] in Hs.
    cbn [greedy accepts]. by rewrite Hs.
  - rewrite Hx. cbn [push]. by rewrite IH.
Qed.

Lemma run_group_only seg rest :
  seg <> [] -> no quote seg -> stops_at quote rest ->
  run [Open; Plus (Not quote); Close] false (seg ++ rest) [] = Some seg.
Proof.
  intros Hne Hseg Hrest. destruct seg as [|x seg]; [done|].
  inversion Hseg as [|? ? Hx Hseg']; subst. simpl.
  apply Ascii.eqb_neq in Hx. rewrite Hx. simpl.
  rewrite (greedy_group quote _ seg rest [x] (x :: seg)); try done.
  simpl. by rewrite rev_app_distr, rev_involutive.
Qed.

(** [\s+([^']+)] on text that starts with whitespace *)
Lemma search_after_space ws seg rest :
  ws <> [] -> blank_text ws -> starts_solid seg -> no quote seg ->
  stops_at quote rest ->
  search re_after_space (ws ++ seg ++ rest) = Some seg.
Proof.
  intros Hne Hws Hs Hseg Hrest. unfold re_after_space.
  destruct ws as [|x ws]; [done|].
  inversion Hws as [|? ? Hx Hws']; subst.
  simpl app. unfold search; fold search.
  cbn [run accepts]. rewrite Hx.
  rewrite (greedy_space _ ws (seg ++ rest) _ seg); try done.
  - destruct seg; simpl in *; done.
  - cbn [push]. apply run_group_only; try done. by destruct seg.
Qed.

(** [([^']+)\n] on a line: the group gives the line feed back. *)
Lemma greedy_before_newline body g :
  no quote body ->
  greedy (Not quote) true (run [Close; One (Lit newline)] true) (body ++ [newline]) g
  = Some (rev g ++ body).
Proof.
  intros Hb. revert g. induction Hb as [|x body Hx Hb IH]; intros g; simpl.
  - by rewrite app_nil_r.
  - apply Ascii.eqb_neq in Hx. rewrite Hx. simpl.
    rewrite IH. simpl. by rewrite <- app_assoc.
Qed.

Lemma search_before_newline body :
  body <> [] -> no quote body ->
  search re_before_newline (body ++ [newline]) = Some body.
Proof.
  intros Hne Hb. unfold re_before_newline.
  destruct body as [|x body]; [done|].
  inversion Hb as [|? ? Hx Hb']; subst.
  simpl app. unfold search; fold search. simpl.
  apply Ascii.eqb_neq in Hx. rewrite Hx. simpl.
  by rewrite greedy_before_newline.
Qed.

End PatternFacts.
Module TableFacts.

Import Parser ParserFacts RegexFacts PatternFacts.

Lemma split1_app sep k v :
  no sep k -> split1 sep (k ++ sep :: v) = (k, Some v).
Proof.
  induction 1 as [|x k Hx Hk IH]; simpl.
  - by rewrite Ascii.eqb_refl.
  - apply Ascii.eqb_neq in Hx. by rewrite Hx, IH.
Qed.

Lemma astype_int_lookup (s s' : Series) (i : nat) c :
  astype_int s = Ok s' -> s !! i = Some c ->
  exists c', cell_to_int c = Ok c' /\ s' !! i = Some c'.
Proof.
  revert s' i. induction s as [|x s IH]; intros s' i; [done|]. simpl.
  unfold mbind, result_bind, rbind.
  destruct (cell_to_int x) as [x'|] eqn:Ex; [|done].
  destruct (astype_int s) as [r|] eqn:Er; [|done].
  intros [= <-]. destruct i as [|i]; simpl.
  - intros [= <-]. by exists x'.
  - by apply IH.
Qed.

(** The country table in terms of the lines of its range *)
Lemma parse_cntyl_inv lines df :
  parse_cntyl lines = Ok df ->
  exists codes,
    astype_int (key_cell eq_sign <$> slice 9 297 lines) = Ok codes /\
    columns df !! "i94cntyl" = Some codes /\
    columns df !! "country"
      = Some (cleaned re_quoted (value_cell eq_sign <$> slice 9 297 lines)).
Proof.
  unfold parse_cntyl. intros H. table_nrows H.
  destruct (existsb (has_char eq_sign) (slice 9 297 lines)) eqn:Ee.
  - rewrite split_expand_lines in H by done.
    unfold set_names in H. simpl in H.
    unfold exec, mbind, FrameM_bind in H. rewrite assign_clean_field_run in H.
    simpl in H. revert H. lookup_cols.
    unfold assign_astype_int, getcol, setcol. simpl. lookup_cols.
    destruct (astype_int _) as [codes|] eqn:Ec; [|done].
    intros [= <-]. exists codes. simpl. split; [done|]. by lookup_cols.
  - rewrite split_expand_lines_none in H by done. done.
Qed.

Lemma parse_mode_inv lines df :
  parse_mode lines = Ok df ->
  columns df !! "i94mode"
    = Some (cleaned re_after_space (key_cell eq_sign <$> slice 972 976 lines)) /\
  columns df !! "mode"
    = Some (cleaned re_quoted (value_cell eq_sign <$> slice 972 976 lines)).
Proof.
  unfold parse_mode. intros H. table_nrows H.
  destruct (existsb (has_char eq_sign) (slice 972 976 lines)) eqn:Ee.
  - rewrite split_expand_lines in H by done.
    unfold set_names in H. simpl in H.
    unfold exec, mbind, FrameM_bind in H. rewrite assign_clean_field_run in H.
    simpl in H. revert H. lookup_cols.
    rewrite assign_clean_field_run. simpl. lookup_cols.
    intros [= <-]. simpl. split; by lookup_cols.
  - rewrite split_expand_lines_none in H by done. done.
Qed.

Lemma parse_addr_inv lines df :
  parse_addr lines = Ok df ->
  columns df !! "i94addr"
    = Some (cleaned re_quoted (key_cell eq_sign <$> slice 981 1036 lines)) /\
  columns df !! "state"
    = Some (cleaned re_quoted (value_cell eq_sign <$> slice 981 1036 lines)).
Proof.
  unfold parse_addr. intros H. table_nrows H.
  destruct (existsb (has_char eq_sign) (slice 981 1036 lines)) eqn:Ee.
  - rewrite split_expand_lines in H by done.
    unfold set_names in H. simpl in H.
    unfold exec, mbind, FrameM_bind in H. rewrite assign_clean_field_run in H.
    simpl in H. revert H. lookup_cols.
    rewrite assign_clean_field_run. simpl. lookup_cols.
    intros [= <-]. simpl. split; by lookup_cols.
  - rewrite split_expand_lines_none in H by done. done.
Qed.

Lemma parse_visa_inv lines df :
  parse_visa lines = Ok df ->
  columns df !! "i94visa" = Some (key_cell eq_sign <$> slice 1046 1049 lines) /\
  columns df !! "visa"
    = Some (cleaned re_before_newline (value_cell eq_sign <$> slice 1046 1049 lines)).
Proof.
  unfold parse_visa. intros H. table_nrows H.
  destruct (existsb (has_char eq_sign) (slice 1046 1049 lines)) eqn:Ee.
  - rewrite split_expand_lines in H by done.
    unfold set_names in H. simpl in H.
    unfold exec in H. rewrite assign_clean_field_run in H.
    simpl in H. revert H. lookup_cols.
    intros [= <-]. simpl. split; by lookup_cols.
  - rewrite split_expand_lines_none in H by done. done.
Qed.

Lemma parse_port_inv lines df :
  parse_port lines = Ok df ->
  columns df !! "i94port"
    = Some (cleaned re_quoted (key_cell eq_sign <$> slice 302 962 lines)) /\
  columns df !! "port"
    = Some (cleaned re_after_quote
              ((fun line => before_comma (value_cell eq_sign line))
               <$> slice 302 962 lines)) /\
  columns df !! "addr"
    = Some (cleaned re_before_quote
              ((fun line => after_comma (value_cell eq_sign line))
               <$> slice 302 962 lines)).
Proof.
  unfold parse_port. intros H. table_nrows H.
  destruct (existsb (has_char eq_sign) (slice 302 962 lines)) eqn:Ee.
  - rewrite split_expand_lines in H by done.
    set (V := value_cell eq_sign <$> slice 302 962 lines) in *.
    change (column 1 [key_cell eq_sign <$> slice 302 962 lines; V])
      with (Ok V : result Series) in H.
    unfold split_expand in H.
    destruct (existsb _ (split_cell comma <$> V)).
    + unfold column, set_names in H. simpl in H.
      unfold exec, mbind, FrameM_bind in H. rewrite assign_clean_field_run in H.
      simpl in H. revert H. lookup_cols.
      rewrite assign_clean_field_run. simpl. lookup_cols.
      rewrite assign_clean_field_run. simpl. lookup_cols.
      intros [= <-]. simpl. lookup_cols.
      unfold before_comma, after_comma, V.
      by rewrite <- !list_fmap_compose.
    + done.
  - rewrite split_expand_lines_none in H by done. done.
Qed.

End TableFacts.
Section ParserRows.

Import Parser ParserFacts RegexFacts PatternFacts TableFacts.

Lemma key_cell_app line k v :
  of_string line = k ++ eq_sign :: v -> no eq_sign k ->
  key_cell eq_sign line = Str (to_string k) /\
  value_cell eq_sign line = Str (to_string v).
Proof.
  intros Hl Hk. unfold key_cell, value_cell.
  by rewrite Hl, split1_app.
Qed.

Lemma iloc_fmap_cleaned df col r (f : string -> cell) rows (i : nat) line l seg :
  columns df !! col = Some (cleaned r (f <$> rows)) ->
  rows !! i = Some line -> f line = Str (to_string l) -> search r l = Some seg ->
  iloc df col i = Some (Str (to_string (upper (strip seg)))).
Proof.
  intros Hc Hi Hf Hs. unfold iloc. rewrite Hc. simpl.
  eapply cleaned_row_match; [|done].
  by rewrite list_lookup_fmap, Hi, <- Hf.
Qed.

(** The country table, row by row. A line [k = u'name'rest] of the country
    range gives the row whose code is the integer [k] and whose country is
    [name], stripped and in upper case. *)
Theorem cntyl_row lines df (i : nat) line k u name rest :
  parse_cntyl lines = Ok df ->
  slice 9 297 lines !! i = Some line ->
  of_string line = k ++ eq_sign :: u ++ quote :: name ++ quote :: rest ->
  no eq_sign k -> no quote u -> name <> [] -> no quote name ->
  exists z,
    parse_int k = Some z /\
    iloc df "i94cntyl" i = Some (Int z) /\
    iloc df "country" i = Some (Str (to_string (upper (strip name)))).
Proof.
  intros Hp Hi Hl Hk Hu Hne Hname.
  destruct (parse_cntyl_inv _ _ Hp) as (codes & Hcodes & Hc1 & Hc2).
  destruct (key_cell_app _ _ _ Hl Hk) as [Hkey Hval].
  destruct (astype_int_lookup _ _ i (Str (to_string k)) Hcodes) as (c' & Hc' & Hi').
  { by rewrite list_lookup_fmap, Hi, <- Hkey. }
  simpl in Hc'. rewrite of_to_string in Hc'.
  destruct (parse_int k) as [z|]; [|done].
  exists z. split; [done|]. split.
  - unfold iloc. rewrite Hc1. simpl. rewrite Hi'.
    destruct (_ && _); [|done]. by injection Hc' as <-.
  - eapply iloc_fmap_cleaned; [done|done|done|]. by apply search_quoted.
Qed.

Lemma cntyl_row_witness :
  exists df,
    parse_cntyl Samples.labels = Ok df /\
    iloc df "i94cntyl" 0 = Some (Int 582) /\
    iloc df "country" 0 = Some (Str "MEXICO AIR SEA, AND NOT REPORTED").
Proof.
  destruct (parse_cntyl Samples.labels) as [df|] eqn:E;
    [|vm_compute in E; discriminate E].
  exists df. split; [done|].
  destruct (cntyl_row Samples.labels df 0
              ("   582 =  'MEXICO Air Sea, and Not Reported' " +:+ Samples.nl)
              (of_string "   582 ") (of_string "  ")
              (of_string "MEXICO Air Sea, and Not Reported")
              (of_string (" " +:+ Samples.nl)) E)
    as (z & Hz & H1 & H2); try (by repeat constructor); try reflexivity.
  vm_compute in Hz. injection Hz as <-. by split.
Defined.

Lemma comma_parts a b :
  no comma a ->
  before_comma (Str (to_string (a ++ comma :: b))) = Str (to_string a) /\
  after_comma (Str (to_string (a ++ comma :: b))) = Str (to_string b).
Proof.
  intros Ha. unfold before_comma, after_comma, split_cell.
  by rewrite of_to_string, split1_app.
Qed.

Lemma comma_parts_none a :
  no comma a ->
  before_comma (Str (to_string a)) = Str (to_string a) /\
  after_comma (Str (to_string a)) = NA.
Proof.
  intros Ha. unfold before_comma, after_comma, split_cell.
  by rewrite of_to_string, split1_none.
Qed.

Lemma no_app c (a b : chars) : no c a -> no c b -> no c (a ++ b).
Proof. apply Forall_app_2. Qed.

(** The port table, row by row. A line ['key' = 'name, state   '] of the
    port range gives the row (key, name, state), each stripped and in
    upper case. *)
Theorem port_row lines df (i : nat) line u0 key w0 u name st rest :
  parse_port lines = Ok df ->
  slice 302 962 lines !! i = Some line ->
  of_string line
  = (u0 ++ quote :: key ++ quote :: w0)
    ++ eq_sign :: (u ++ quote :: name) ++ comma :: st ++ quote :: rest ->
  no eq_sign (u0 ++ quote :: key ++ quote :: w0) ->
  no quote u0 -> key <> [] -> no quote key ->
  no quote u -> no comma u -> name <> [] -> no quote name -> no comma name ->
  st <> [] -> no quote st ->
  iloc df "i94port" i = Some (Str (to_string (upper (strip key)))) /\
  iloc df "port" i = Some (Str (to_string (upper (strip name)))) /\
  iloc df "addr" i = Some (Str (to_string (upper (strip st)))).
Proof.
  intros Hp Hi Hl Hk Hu0 Hkey Hkey' Hu Hu' Hn Hn' Hn'' Hst Hst'.
  destruct (parse_port_inv _ _ Hp) as (Hc1 & Hc2 & Hc3).
  destruct (key_cell_app _ _ _ Hl Hk) as [Hkc Hvc].
  assert (no comma (u ++ quote :: name)) as Hnc.
  { apply no_app; [done|]. by constructor. }
  destruct (comma_parts (u ++ quote :: name) (st ++ quote :: rest) Hnc) as [Hb Ha].
  split; [|split].
  - eapply iloc_fmap_cleaned; [done|done|done|]. by apply search_quoted.
  - eapply (iloc_fmap_cleaned _ _ _ _ _ _ _ (u ++ quote :: name));
      [done|done|by cbv beta; rewrite Hvc|].
    pose proof (search_after_quote u name [] Hu Hn Hn') as H.
    rewrite app_nil_r in H. apply H. by left.
  - eapply iloc_fmap_cleaned; [done|done|by cbv beta; rewrite Hvc|].
    by apply search_before_quote.
Qed.

Lemma port_row_witness :
  exists df,
    parse_port Samples.labels = Ok df /\
    iloc df "i94port" 0 = Some (Str "ALC") /\
    iloc df "port" 0 = Some (Str "ALCAN") /\
    iloc df "addr" 0 = Some (Str "AK").
Proof.
  destruct (parse_port Samples.labels) as [df|] eqn:E;
    [|vm_compute in E; discriminate E].
  exists df. split; [done|].
  apply (port_row Samples.labels df 0
           ("   'ALC'	=	'ALCAN, AK             '" +:+ Samples.nl)
           (of_string "   ") (of_string "ALC") (of_string "	")
           (of_string "	") (of_string "ALCAN")
           (of_string " AK             ") (of_string Samples.nl) E);
    try (by repeat constructor); reflexivity.
Defined.

Lemma cleaned_row_missing r (s : Series) (i : nat) :
  s !! i = Some NA -> cleaned r s !! i = Some NA.
Proof. intros Hi. by rewrite cleaned_lookup, Hi. Qed.

(** A line of the port range whose value has no comma gives a row without
    state: ['key' = 'name   '] gives (key, name, missing). *)
Theorem port_row_without_state lines df (i : nat) line k u name rest :
  parse_port lines = Ok df ->
  slice 302 962 lines !! i = Some line ->
  of_string line = k ++ eq_sign :: u ++ quote :: name ++ rest ->
  no eq_sign k -> no quote u -> name <> [] -> no quote name ->
  stops_at quote rest -> no comma (u ++ quote :: name ++ rest) ->
  iloc df "port" i = Some (Str (to_string (upper (strip name)))) /\
  iloc df "addr" i = Some NA.
Proof.
  intros Hp Hi Hl Hk Hu Hn Hn' Hrest Hnc.
  destruct (parse_port_inv _ _ Hp) as (Hc1 & Hc2 & Hc3).
  destruct (key_cell_app _ _ _ Hl Hk) as [Hkc Hvc].
  destruct (comma_parts_none _ Hnc) as [Hb Ha].
  split.
  - eapply iloc_fmap_cleaned; [done|done|by cbv beta; rewrite Hvc|].
    by apply search_after_quote.
  - unfold iloc. rewrite Hc3. simpl. apply cleaned_row_missing.
    rewrite list_lookup_fmap, Hi. cbv [fmap option_fmap option_map].
    by rewrite Hvc, Ha.
Qed.

(** The travel-mode table, row by row. A line [ws code = 'name'] that
    starts with whitespace gives the row (code, name): the code stays
    text. *)
Theorem mode_row lines df (i : nat) line ws code u name rest :
  parse_mode lines = Ok df ->
  slice 972 976 lines !! i = Some line ->
  of_string line = (ws ++ code) ++ eq_sign :: u ++ quote :: name ++ quote :: rest ->
  no eq_sign (ws ++ code) ->
  ws <> [] -> blank_text ws -> starts_solid code -> no quote code ->
  no quote u -> name <> [] -> no quote name ->
  iloc df "i94mode" i = Some (Str (to_string (upper (strip code)))) /\
  iloc df "mode" i = Some (Str (to_string (upper (strip name)))).
Proof.
  intros Hp Hi Hl Hk Hws Hws' Hc Hc' Hu Hn Hn'.
  destruct (parse_mode_inv _ _ Hp) as (Hc1 & Hc2).
  destruct (key_cell_app _ _ _ Hl Hk) as [Hkc Hvc].
  split.
  - eapply iloc_fmap_cleaned; [done|done|done|].
    pose proof (search_after_space ws code [] Hws Hws' Hc Hc') as H.
    rewrite app_nil_r in H. apply H. by left.
  - eapply iloc_fmap_cleaned; [done|done|done|]. by apply search_quoted.
Qed.

Lemma mode_row_witness :
  exists df,
    parse_mode Samples.labels = Ok df /\
    iloc df "i94mode" 0 = Some (Str "1") /\
    iloc df "mode" 0 = Some (Str "AIR").
Proof.
  destruct (parse_mode Samples.labels) as [df|] eqn:E;
    [|vm_compute in E; discriminate E].
  exists df. split; [done|].
  apply (mode_row Samples.labels df 0 ("	1 = 'Air'" +:+ Samples.nl)
           (of_string "	") (of_string "1 ") (of_string " ") (of_string "Air")
           (of_string Samples.nl) E);
    try (by repeat constructor); reflexivity.
Defined.

(** The state table, row by row. *)
Theorem addr_row lines df (i : nat) line u0 key w0 u name rest :
  parse_addr lines = Ok df ->
  slice 981 1036 lines !! i = Some line ->
  of_string line
  = (u0 ++ quote :: key ++ quote :: w0) ++ eq_sign :: u ++ quote :: name ++ quote :: rest ->
  no eq_sign (u0 ++ quote :: key ++ quote :: w0) ->
  no quote u0 -> key <> [] -> no quote key ->
  no quote u -> name <> [] -> no quote name ->
  iloc df "i94addr" i = Some (Str (to_string (upper (strip key)))) /\
  iloc df "state" i = Some (Str (to_string (upper (strip name)))).
Proof.
  intros Hp Hi Hl Hk Hu0 Hkey Hkey' Hu Hn Hn'.
  destruct (parse_addr_inv _ _ Hp) as (Hc1 & Hc2).
  destruct (key_cell_app _ _ _ Hl Hk) as [Hkc Hvc].
  split; (eapply iloc_fmap_cleaned; [done|done|done|]); by apply search_quoted.
Qed.

Lemma addr_row_witness :
  exists df,
    parse_addr Samples.labels = Ok df /\
    iloc df "i94addr" 0 = Some (Str "AL") /\
    iloc df "state" 0 = Some (Str "ALABAMA").
Proof.
  destruct (parse_addr Samples.labels) as [df|] eqn:E;
    [|vm_compute in E; discriminate E].
  exists df. split; [done|].
  apply (addr_row Samples.labels df 0 ("	'AL'='ALABAMA'" +:+ Samples.nl)
           (of_string "	") (of_string "AL") [] [] (of_string "ALABAMA")
           (of_string Samples.nl) E);
    try (by repeat constructor); reflexivity.
Defined.

(** The visa table, row by row. A line [k = name] gives the row whose key
    is the text [k] as it stands, whitespace included, and whose value is
    [name], stripped and in upper case. *)
Theorem visa_row lines df (i : nat) line k body :
  parse_visa lines = Ok df ->
  slice 1046 1049 lines !! i = Some line ->
  of_string line = k ++ eq_sign :: body ++ [newline] ->
  no eq_sign k -> body <> [] -> no quote body ->
  iloc df "i94visa" i = Some (Str (to_string k)) /\
  iloc df "visa" i = Some (Str (to_string (upper (strip body)))).
Proof.
  intros Hp Hi Hl Hk Hb Hb'.
  destruct (parse_visa_inv _ _ Hp) as (Hc1 & Hc2).
  destruct (key_cell_app _ _ _ Hl Hk) as [Hkc Hvc].
  split.
  - unfold iloc. rewrite Hc1. simpl. by rewrite list_lookup_fmap, Hi, <- Hkc.
  - eapply iloc_fmap_cleaned; [done|done|done|]. by apply search_before_newline.
Qed.

Lemma visa_row_witness :
  exists df,
    parse_visa Samples.labels = Ok df /\
    iloc df "i94visa" 0 = Some (Str "   1 ") /\
    iloc df "visa" 0 = Some (Str "BUSINESS").
Proof.
  destruct (parse_visa Samples.labels) as [df|] eqn:E;
    [|vm_compute in E; discriminate E].
  exists df. split; [done|].
  apply (visa_row Samples.labels df 0 ("   1 = Business" +:+ Samples.nl)
           (of_string "   1 ") (of_string " Business") E);
    try (by repeat constructor); reflexivity.
Defined.

Lemma port_row_without_state_witness :
  exists df,
    parse_port Samples.port_lines = Ok df /\
    iloc df "port" 1 = Some (Str "NOT REPORTED/UNKNOWN") /\
    iloc df "addr" 1 = Some NA.
Proof.
  destruct (parse_port Samples.port_lines) as [df|] eqn:E;
    [|vm_compute in E; discriminate E].
  exists df. split; [done|].
  assert (to_string (upper (strip (of_string "NOT REPORTED/UNKNOWN  ")))
          = "NOT REPORTED/UNKNOWN") as Hname by (vm_compute; reflexivity).
  rewrite <- Hname.
  apply (port_row_without_state Samples.port_lines df 1
           ("   'XXX'	=	'NOT REPORTED/UNKNOWN  '" +:+ Samples.nl)
           (of_string "   'XXX'	") (of_string "	")
           (of_string "NOT REPORTED/UNKNOWN  ") (of_string ("'" +:+ Samples.nl)) E).
  - vm_compute; reflexivity.
  - vm_compute; reflexivity.
  - by repeat constructor.
  - by repeat constructor.
  - done.
  - by repeat constructor.
  - right. by eexists.
  - by repeat constructor.
Defined.

End ParserRows.
Module TextFacts.

Import RegexFacts.

Lemma upper_char_idemp c : upper_char (upper_char c) = upper_char c.
Proof. by destruct c as [[] [] [] [] [] [] [] []]. Qed.

Lemma isspace_upper_char c : isspace (upper_char c) = isspace c.
Proof. by destruct c as [[] [] [] [] [] [] [] []]. Qed.

Lemma upper_idemp s : upper (upper s) = upper s.
Proof.
  unfold upper. rewrite <- list_fmap_compose.
  apply list_fmap_ext. intros i c _. apply upper_char_idemp.
Qed.

Lemma lstrip_upper s : lstrip (upper s) = upper (lstrip s).
Proof.
  induction s as [|c s IH]; [done|]. cbn [upper fmap list_fmap lstrip].
  rewrite isspace_upper_char. by destruct (isspace c).
Qed.

Lemma upper_rev s : upper (rev s) = rev (upper s).
Proof.
  unfold upper. induction s as [|c s IH]; [done|]. simpl.
  by rewrite fmap_app, IH.
Qed.

Lemma strip_upper s : strip (upper s) = upper (strip s).
Proof.
  unfold strip, rstrip.
  by rewrite lstrip_upper, <- upper_rev, lstrip_upper, upper_rev.
Qed.

Lemma lstrip_idemp s : lstrip (lstrip s) = lstrip s.
Proof.
  induction s as [|c s IH]; [done|]. simpl.
  destruct (isspace c) eqn:E; [done|]. simpl. by rewrite E.
Qed.

Lemma lstrip_snoc s c : isspace c = false -> lstrip (s ++ [c]) = lstrip s ++ [c].
Proof.
  intros Hc. induction s as [|x s IH]; simpl; [by rewrite Hc|].
  by destruct (isspace x).
Qed.

(** Stripping on the right leaves a solid first character in place. *)
Lemma rstrip_cons c s : isspace c = false -> rstrip (c :: s) = c :: rstrip s.
Proof.
  intros Hc. unfold rstrip. simpl.
  by rewrite lstrip_snoc, rev_app_distr.
Qed.

Lemma lstrip_rstrip_lstrip s : lstrip (rstrip (lstrip s)) = rstrip (lstrip s).
Proof.
  induction s as [|c s IH]; [done|]. simpl.
  destruct (isspace c) eqn:E; [done|].
  rewrite rstrip_cons by done. simpl. by rewrite E.
Qed.

Lemma rstrip_idemp s : rstrip (rstrip s) = rstrip s.
Proof. unfold rstrip. by rewrite rev_involutive, lstrip_idemp. Qed.

Lemma strip_idemp s : strip (strip s) = strip s.
Proof. unfold strip. by rewrite lstrip_rstrip_lstrip, rstrip_idemp. Qed.

End TextFacts.

Section CleanFieldForm.

Import RegexFacts TextFacts.

(** What [clean_field] leaves in a column: every value is missing or a
    text that [strip] and [upper] leave as it is, so the values have no
    whitespace at either end and no lower-case letter; a missing value
    stays missing, and the column keeps its length. *)
Theorem clean_field_normal_form col r df s df' :
  clean_field col r df = Ok (s, df') ->
  (forall (i : nat) c, s !! i = Some c ->
     c = NA \/
     exists t, c = Str (to_string t) /\ strip t = t /\ upper t = t) /\
  (forall old (i : nat),
     columns df !! col = Some old -> old !! i = Some NA -> s !! i = Some NA) /\
  (forall old, columns df !! col = Some old -> length s = length old).
Proof.
  intros H. rewrite clean_field_run in H.
  destruct (columns df !! col) as [old|] eqn:E; [|done].
  injection H as <- <-. split; [|split].
  - intros i c Hc. rewrite cleaned_lookup in Hc.
    destruct (old !! i) as [x|]; [|done]. injection Hc as <-.
    destruct x as [|x| |]; simpl; try (by left).
    destruct (search r (of_string x)) as [seg|]; [|by left].
    right. simpl. rewrite !of_to_string.
    exists (upper (strip seg)). split; [done|].
    by rewrite strip_upper, strip_idemp, upper_idemp.
  - intros old' i [= <-] Hi. by rewrite cleaned_lookup, Hi.
  - intros old' [= <-]. apply length_cleaned.
Qed.

Lemma clean_field_normal_form_witness :
  let df := mkFrame [0; 1]%nat {[ "iso_region" := [Str "us- ak "; NA] ]} in
  let s := [Str "AK"; NA] in
  (forall (i : nat) c, s !! i = Some c ->
     c = NA \/
     exists t, c = Str (to_string t) /\ strip t = t /\ upper t = t) /\
  (forall old (i : nat),
     columns df !! "iso_region" = Some old -> old !! i = Some NA -> s !! i = Some NA) /\
  (forall old, columns df !! "iso_region" = Some old -> length s = length old).
Proof.
  intros df s.
  apply (clean_field_normal_form "iso_region" re_after_hyphen df s
           (mkFrame [0; 1]%nat {[ "iso_region" := s ]})).
  reflexivity.
Defined.

End CleanFieldForm.

Section RaceKeys.

Import Demographics DemographicsFacts.

Lemma fst_fractions rows : fst <$> fractions rows = remove_dups (omap key2 rows).
Proof.
  unfold fractions, groupby_sum. rewrite <- !list_fmap_compose.
  induction (remove_dups (omap key2 rows)) as [|k ks IH]; [done|].
  csimpl. by rewrite IH.
Qed.

(** The race table has one row for every pair of a state code and a race
    that some city row carries, and no other row: its keys are pairwise
    distinct, and rows without a state code or without a race
    contribute no key. *)
Theorem race_keys df_demo rows out :
  demo_rows df_demo = Ok rows ->
  df_demo_race_dwh df_demo = Ok out ->
  NoDup (fst <$> out) /\
  forall s r,
    (s, r) ∈ fst <$> out <->
    s <> NA /\ r <> NA /\ exists row, row ∈ rows /\ state_code row = s /\ race row = r.
Proof.
  intros Hrows Hout.
  unfold df_demo_race_dwh, mbind, result_bind, rbind in Hout.
  rewrite Hrows in Hout. injection Hout as <-.
  rewrite fst_fractions. split; [apply NoDup_remove_dups|].
  intros s r. rewrite elem_of_remove_dups, list_elem_of_omap. split.
  - intros (row & Hin & Hk). apply key2_some in Hk as ([= -> ->] & H1 & H2).
    repeat split; try done. by exists row.
  - intros (H1 & H2 & row & Hin & <- & <-). exists row. split; [done|].
    by apply key2_some.
Qed.

Lemma race_keys_witness :
  NoDup (fst <$> Samples.value [] (df_demo_race_dwh Samples.demo)) /\
  forall s r,
    (s, r) ∈ fst <$> Samples.value [] (df_demo_race_dwh Samples.demo) <->
    s <> NA /\ r <> NA /\
    exists row, row ∈ Samples.value [] (demo_rows Samples.demo)
                /\ state_code row = s /\ race row = r.
Proof.
  apply (race_keys Samples.demo); reflexivity.
Defined.

End RaceKeys.

Section RaceBounds.

Import Demographics DemographicsFacts.

Lemma total_nonneg rows :
  (forall row, row ∈ rows -> 0 <= numeric (count row)) -> 0 <= total rows.
Proof.
  induction rows as [|r rows IH]; intros H; [done|].
  rewrite total_cons.
  assert (0 <= numeric (count r)) by (apply H, elem_of_cons; by left).
  assert (0 <= total rows) by (apply IH; intros; apply H, elem_of_cons; by right).
  lia.
Qed.

Lemma total_filter_mono (P Q : demo_row -> Prop)
    `{forall x, Decision (P x)} `{forall x, Decision (Q x)} rows :
  (forall row, row ∈ rows -> 0 <= numeric (count row)) ->
  (forall row, P row -> Q row) ->
  0 <= total (filter P rows) <= total (filter Q rows).
Proof.
  intros Hpos HPQ. induction rows as [|r rows IH]; [done|].
  assert (0 <= numeric (count r)) by (apply Hpos, elem_of_cons; by left).
  assert (0 <= total (filter P rows) <= total (filter Q rows)) as IH'
    by (apply IH; intros; apply Hpos, elem_of_cons; by right).
  assert (0 <= total (filter Q rows)) by lia.
  rewrite !filter_cons.
  destruct (decide (P r)) as [HP|HP], (decide (Q r)) as [HQ|HQ];
    rewrite ?total_cons; try lia.
  by specialize (HPQ r HP).
Qed.

Lemma fractions_elem rows k v :
  (k, v) ∈ fractions rows ->
  k ∈ omap key2 rows /\
  v = divide (total (group key2 k rows)) (total (group key1 (fst k) rows)).
Proof.
  unfold fractions. intros Hin.
  apply list_elem_of_fmap in Hin as ([k' a] & [= <- ->] & Hin). simpl.
  unfold groupby_sum in Hin at 1.
  apply list_elem_of_fmap in Hin as (k'' & [= <- ->] & Hin).
  rewrite elem_of_remove_dups in Hin. split; [done|].
  rewrite assoc_groupby. rewrite decide_True; [done|].
  apply list_elem_of_omap in Hin as (row & Hrow & Hk).
  apply list_elem_of_omap. exists row. split; [done|].
  apply key2_some in Hk as (-> & H1 & H2). simpl. by apply key1_some.
Qed.

(** Every fraction of the race table is the count of the pair divided by
    the count of its state. When no count is negative it lies between 0
    and 1; a state whose counts add up to zero has no finite fraction. *)
Theorem race_fraction_bounds df_demo rows out k v :
  demo_rows df_demo = Ok rows ->
  df_demo_race_dwh df_demo = Ok out ->
  (forall row, row ∈ rows -> 0 <= numeric (count row)) ->
  (k, v) ∈ out ->
  match v with
  | Some q =>
      total (group key1 (fst k) rows) <> 0 /\
      (q == inject_Z (total (group key2 k rows))
            / inject_Z (total (group key1 (fst k) rows)))%Q /\
      (0 <= q)%Q /\ (q <= 1)%Q
  | None => total (group key1 (fst k) rows) = 0
  end.
Proof.
  intros Hrows Hout Hpos Hin.
  unfold df_demo_race_dwh, mbind, result_bind, rbind in Hout.
  rewrite Hrows in Hout. injection Hout as <-.
  apply fractions_elem in Hin as [Hk ->].
  assert (0 <= total (group key2 k rows) <= total (group key1 (fst k) rows)) as Hb.
  { unfold group. apply total_filter_mono; [done|].
    intros row (-> & H1 & H2)%key2_some. simpl. by apply key1_some. }
  set (A := total (group key2 k rows)) in *.
  set (T := total (group key1 (fst k) rows)) in *.
  unfold divide. destruct (T =? 0) eqn:ET.
  - by apply Z.eqb_eq in ET.
  - apply Z.eqb_neq in ET. split; [done|]. split; [reflexivity|].
    assert (0 < inject_Z T)%Q as HT.
    { change 0%Q with (inject_Z 0). rewrite <- Zlt_Qlt. lia. }
    split.
    + apply Qle_shift_div_l; [done|]. rewrite Qmult_0_l.
      change 0%Q with (inject_Z 0). rewrite <- Zle_Qle. lia.
    + apply Qle_shift_div_r; [done|]. rewrite Qmult_1_l.
      rewrite <- Zle_Qle. lia.
Qed.

Lemma race_fraction_bounds_witness :
  total (group key1 (Str "CA") (Samples.value [] (demo_rows Samples.demo))) <> 0 /\
  (30 # 40 == inject_Z (total (group key2 (Str "CA", Str "White")
                                 (Samples.value [] (demo_rows Samples.demo))))
              / inject_Z (total (group key1 (Str "CA")
                                   (Samples.value [] (demo_rows Samples.demo)))))%Q /\
  (0 <= 30 # 40)%Q /\ (30 # 40 <= 1)%Q.
Proof.
  apply (race_fraction_bounds Samples.demo
           (Samples.value [] (demo_rows Samples.demo))
           (Samples.value [] (df_demo_race_dwh Samples.demo))
           (Str "CA", Str "White") (Some (30 # 40)%Q)).
  - reflexivity.
  - reflexivity.
  - intros row Hrow. vm_compute in Hrow.
    repeat (apply elem_of_cons in Hrow as [->|Hrow]; [by vm_compute|]).
    by apply elem_of_nil in Hrow.
  - apply list_elem_of_In. vm_compute. right. by left.
Defined.

End RaceBounds.
Module NameFacts.

Lemma of_string_app a b : of_string (a +:+ b) = of_string a ++ of_string b.
Proof.
  unfold of_string. induction a as [|c a IH]; [done|].
  simpl. by rewrite IH.
Qed.

Lemma ends_with_app a suffix : ends_with suffix (a +:+ suffix) = true.
Proof.
  unfold ends_with. apply bool_decide_eq_true_2.
  rewrite of_string_app, rev_app_distr.
  rewrite take_app_le by (by rewrite length_rev).
  rewrite take_ge; [done|]. by rewrite length_rev.
Qed.

Lemma plain_not_renamed c a :
  plain c = true -> a +:+ "_x" <> c /\ a +:+ "_y" <> c.
Proof.
  unfold plain. intros [H1 H2]%andb_prop.
  split; intros <-; by rewrite ends_with_app in *.
Qed.

End NameFacts.

Module JoinFacts.

Import Merge MergeFacts NameFacts.

Lemma left_name_inv right lo ro c' c :
  left_name right lo ro c' = c -> plain c = true -> c' = c.
Proof.
  unfold left_name. intros H Hp.
  destruct (_ && _); [|done].
  by destruct (plain_not_renamed c c' Hp).
Qed.

Lemma right_name_inv left c' c :
  right_name left c' = c -> plain c = true -> c' = c.
Proof.
  unfold right_name. intros H Hp.
  destruct (bool_decide _); [|done].
  by destruct (plain_not_renamed c c' Hp).
Qed.

(** Where a column of the merged frame comes from *)
Lemma merge_left_lookup_inv left right lo ro df c s :
  merge_left left right lo ro = Ok df -> columns df !! c = Some s ->
  exists lkeys rkeys,
    columns left !! lo = Some lkeys /\ columns right !! ro = Some rkeys /\
    let ix := indexers lkeys rkeys 0 (nrows left) in
    (exists c' s', columns left !! c' = Some s' /\
                   left_name right lo ro c' = c /\ s = take_left ix s') \/
    (exists c' s', columns right !! c' = Some s' /\ ~ (c' = lo /\ c' = ro) /\
                   right_name left c' = c /\ s = take_right ix s').
Proof.
  unfold merge_left.
  destruct (columns left !! lo) as [lkeys|] eqn:El; [|done].
  destruct (columns right !! ro) as [rkeys|] eqn:Er; [|done].
  intros [= <-] Hc. exists lkeys, rkeys. split; [done|]. split; [done|].
  simpl in Hc. apply elem_of_list_to_map_2, elem_of_app in Hc as [Hc|Hc].
  - left. unfold left_columns in Hc.
    apply list_elem_of_fmap in Hc as ([c' s'] & [= -> ->] & Hin).
    apply elem_of_map_to_list in Hin. by exists c', s'.
  - right. unfold right_columns in Hc.
    apply list_elem_of_fmap in Hc as ([c' s'] & [= -> ->] & Hin).
    apply list_elem_of_filter in Hin as [Hf Hin].
    apply elem_of_map_to_list in Hin. exists c', s'. simpl in *.
    repeat split; try done.
    intros [H1 H2]. rewrite !bool_decide_eq_true_2 in Hf by done. done.
Qed.

(** A plain name that only the left frame has: the merged frame holds the
    left values, row by row of the join. *)
Lemma merge_left_lookup_left left right lo ro df c lkeys rkeys :
  merge_left left right lo ro = Ok df ->
  columns left !! lo = Some lkeys -> columns right !! ro = Some rkeys ->
  plain c = true -> columns right !! c = None ->
  columns df !! c
  = take_left (indexers lkeys rkeys 0 (nrows left)) <$> columns left !! c.
Proof.
  intros Hm Hl Hr Hp Hrc.
  destruct (columns df !! c) as [s|] eqn:Hc.
  - destruct (merge_left_lookup_inv _ _ _ _ _ _ _ Hm Hc)
      as (lkeys' & rkeys' & Hl' & Hr' & [H|H]).
    + destruct H as (c' & s' & Hs' & Hn & ->).
      apply left_name_inv in Hn; [|done]. subst c'.
      rewrite Hs'. simpl. congruence.
    + destruct H as (c' & s' & Hs' & _ & Hn & _).
      apply right_name_inv in Hn; [|done]. subst c'. congruence.
  - destruct (columns left !! c) as [s|] eqn:Hlc; [|done]. exfalso.
    unfold merge_left in Hm. rewrite Hl, Hr in Hm. injection Hm as <-.
    simpl in Hc. apply not_elem_of_list_to_map in Hc. apply Hc.
    rewrite fmap_app. apply elem_of_app. left.
    unfold left_columns. rewrite <- list_fmap_compose.
    apply list_elem_of_fmap. exists (c, s). split.
    + cbv [compose]. simpl. unfold left_name.
      replace (bool_decide (is_Some (columns right !! c))) with false; [done|].
      symmetry. apply bool_decide_eq_false_2. rewrite Hrc. by intros [? ?].
    + by apply elem_of_map_to_list.
Qed.


End JoinFacts.

Module UniqueKeyFacts.

Import Merge MergeFacts.

Lemma matches_found k rkeys j (p : nat) :
  NoDup rkeys -> rkeys !! p = Some k -> matches k rkeys j = [(j + p)%nat].
Proof.
  revert j p. induction rkeys as [|k' rkeys IH]; intros j p Hnd Hp; [done|].
  inversion Hnd as [|? ? Hk' Hnd']; subst. simpl.
  destruct p as [|p]; simpl in Hp.
  - injection Hp as ->. rewrite bool_decide_eq_true_2 by done.
    rewrite matches_absent by done. f_equal. lia.
  - rewrite bool_decide_eq_false_2.
    + rewrite (IH (S j) p) by done. f_equal. lia.
    + intros ->. apply Hk'. by eapply list_elem_of_lookup_2.
Qed.

Lemma join_row_hit rkeys i k (p : nat) :
  NoDup rkeys -> rkeys !! p = Some k -> join_row rkeys i k = [(i, Some p)].
Proof.
  intros Hnd Hp. unfold join_row. by rewrite (matches_found k rkeys 0 p).
Qed.

Lemma join_row_miss rkeys i k : k ∉ rkeys -> join_row rkeys i k = [(i, None)].
Proof. intros Hk. unfold join_row. by rewrite matches_absent. Qed.

(** With pairwise distinct right keys, row [j] of the join is left row
    [j] with its one match, if it has one. *)
Lemma indexers_lookup lkeys rkeys i n (j : nat) :
  NoDup rkeys -> (j < n)%nat ->
  exists o,
    indexers lkeys rkeys i n !! j = Some ((i + j)%nat, o) /\
    join_row rkeys (i + j) (at_row lkeys (i + j)) = [((i + j)%nat, o)].
Proof.
  intros Hnd. revert i j. induction n as [|n IH]; intros i j Hj; [lia|].
  simpl.
  assert (exists o, join_row rkeys i (at_row lkeys i) = [(i, o)]) as [o Ho].
  { destruct (decide (at_row lkeys i ∈ rkeys)) as [Hin|Hout].
    - apply list_elem_of_lookup_1 in Hin as [p Hp].
      exists (Some p). by apply join_row_hit.
    - exists None. by apply join_row_miss. }
  rewrite Ho. destruct j as [|j]; simpl.
  - exists o. by rewrite Nat.add_0_r.
  - destruct (IH (S i) j) as (o' & H1 & H2); [lia|].
    exists o'. by replace (i + S j)%nat with (S i + j)%nat by lia.
Qed.

Lemma take_left_unique lkeys rkeys (s : Series) n :
  NoDup rkeys -> length s = n -> take_left (indexers lkeys rkeys 0 n) s = s.
Proof.
  intros Hnd Hs. apply list_eq. intros j. unfold take_left.
  rewrite list_lookup_fmap.
  destruct (decide (j < n)%nat) as [Hj|Hj].
  - destruct (indexers_lookup lkeys rkeys 0 n j Hnd Hj) as (o & -> & _).
    simpl. unfold at_row.
    destruct (lookup_lt_is_Some_2 s j) as [v Hv]; [lia|]. by rewrite Hv.
  - rewrite (lookup_ge_None_2 s) by lia.
    rewrite lookup_ge_None_2; [done|].
    rewrite indexers_length_unique by done. lia.
Qed.


End UniqueKeyFacts.

Section AirportJoin.

Import Merge MergeFacts Airport AirportFacts NameFacts JoinFacts UniqueKeyFacts.

Lemma join_lookup df_port df_airport joined c :
  join df_port df_airport = Ok joined -> c <> "ident" ->
  exists merged,
    merge_left df_port df_airport "i94port" "ident" = Ok merged /\
    columns joined !! c = columns merged !! c.
Proof.
  unfold join, mbind, result_bind, rbind.
  destruct (merge_left _ _ _ _) as [merged|] eqn:Em; [|done].
  unfold drop_column. destruct (columns merged !! "ident"); [|done].
  intros [= <-] Hc. exists merged. split; [done|]. simpl.
  by rewrite lookup_delete_ne.
Qed.

(** Cell 46 when no two airports share an identifier: the columns of the
    port table pass through the join unchanged. *)
Theorem join_keeps_port_columns df_port df_airport joined ident c :
  join df_port df_airport = Ok joined ->
  wf_frame df_port ->
  columns df_airport !! "ident" = Some ident -> NoDup ident ->
  plain c = true -> columns df_airport !! c = None ->
  nrows joined = nrows df_port /\
  columns joined !! c = columns df_port !! c.
Proof.
  intros Hj Hwf Hid Hnd Hp Hc.
  assert (c <> "ident") as Hne by (intros ->; congruence).
  destruct (join_lookup _ _ _ c Hj Hne) as (merged & Hm & ->).
  destruct (join_inv _ _ _ Hj) as (merged' & Hm' & Hix & _).
  rewrite Hm in Hm'. injection Hm' as <-.
  split.
  { unfold nrows at 1. rewrite Hix. by eapply merge_left_nrows_unique. }
  destruct (merge_left_inv _ _ _ _ _ Hm) as (lkeys & rkeys & Hl & Hr & _).
  rewrite Hr in Hid. injection Hid as ->.
  rewrite (merge_left_lookup_left _ _ _ _ _ c _ _ Hm Hl Hr Hp Hc).
  destruct (columns df_port !! c) as [s|] eqn:Hs; [|done]. simpl.
  f_equal. apply take_left_unique; [done|]. by apply (Hwf c).
Qed.

Lemma wf_ports : wf_frame Samples.ports.
Proof.
  intros c s. unfold Samples.ports. cbn [columns nrows index length].
  rewrite !lookup_insert_Some, lookup_singleton_Some.
  intros [[_ <-]|[_ [[_ <-]|[_ [_ <-]]]]]; done.
Qed.


Lemma join_keeps_port_columns_witness :
  exists joined,
    join Samples.ports Samples.airports = Ok joined /\
    nrows joined = nrows Samples.ports /\
    columns joined !! "port" = columns Samples.ports !! "port".
Proof.
  destruct (join Samples.ports Samples.airports) as [joined|] eqn:E;
    [|by vm_compute in E].
  exists joined. split; [done|].
  apply (join_keeps_port_columns Samples.ports Samples.airports joined
           [Str "XYZ"; Str "ABC"; Str "QQQ"] "port" E).
  - exact wf_ports.
  - reflexivity.
  - compute_done.
  - reflexivity.
  - reflexivity.
Defined.



End AirportJoin.

(** ** The casts of cell 16 *)

Section CastClaims.

Import Spark Immigration FloatFacts.

Lemma truncate_double_of_long n :
  0 <= n < 2 ^ 53 -> truncate (double_of_long n) = n.
Proof.
  intros Hn. destruct (Z.eq_dec n 0) as [->|Hn0]; [done|].
  destruct (double_of_long_pos n) as (m & e & -> & Hm & He & Hv); [lia|].
  unfold truncate. rewrite Hv.
  destruct (0 <=? e) eqn:E0.
  - apply Z.leb_le in E0. replace e with 0 by lia. simpl. lia.
  - rewrite Z.div_mul; [done|].
    assert (0 < 2 ^ (- e)) by (apply Z.pow_pos_nonneg; lia). lia.
Qed.

(** Cell 16 on one value. A double that holds a whole number from 0 on
    becomes that number as an integer as long as it fits in 32 bits; a
    larger number becomes the largest 32-bit integer. *)
Theorem cast_integer_of_whole_double n :
  0 <= n < 2 ^ 53 ->
  cast_integer (SDouble (double_of_long n))
  = SInt (if n <=? 2147483647 then n else 2147483647).
Proof.
  intros Hn. unfold cast_integer, double_to_int.
  rewrite (truncate_double_of_long n Hn).
  assert (double_of_long n <> S754_nan /\
          forall s, double_of_long n <> S754_infinity s) as [H1 H2].
  { destruct (Z.eq_dec n 0) as [->|Hn0]; [by split|].
    destruct (double_of_long_pos n) as (m & e & -> & _); [lia|]. by split. }
  assert (Z.max int_min (Z.min int_max n)
          = if n <=? 2147483647 then n else 2147483647) as Hc.
  { unfold int_min, int_max.
    destruct (n <=? 2147483647) eqn:E; [apply Z.leb_le in E|apply Z.leb_gt in E]; lia. }
  destruct (double_of_long n) as [s|s| |s m e] eqn:Ed.
  - by rewrite Hc.
  - by destruct (H2 s).
  - done.
  - by rewrite Hc.
Qed.

Lemma cast_integer_of_whole_double_witness :
  0 <= 55425872433 < 2 ^ 53 /\
  cast_integer (SDouble (double_of_long 55425872433)) = SInt 2147483647.
Proof.
  split; [lia|].
  apply (cast_integer_of_whole_double 55425872433). lia.
Defined.

Lemma mapM_total {A B : Type} (g : A -> result B) (f : A -> B) (l : list A) :
  (forall x, g x = Ok (f x)) -> mapM (M := result) g l = Ok (f <$> l).
Proof.
  intros Hg. induction l as [|x l IH]; [done|].
  cbn [mapM]. unfold mbind, mret, result_bind, result_ret, rbind in *.
  by rewrite Hg, IH.
Qed.

Lemma withColumn_cast c df :
  withColumn c (fun v => Ok (cast_integer v)) df
  = match position c (schema df) with
    | Some i =>
        Ok (mkSparkDF (schema df)
              ((fun row => <[i := cast_integer (field i row)]> row) <$> rows df))
    | None => Err AnalysisException
    end.
Proof.
  unfold withColumn. destruct (position c (schema df)) as [i|]; [|done].
  unfold mbind at 1, result_bind, rbind.
  by rewrite (mapM_total _ (fun row => <[i := cast_integer (field i row)]> row)).
Qed.

Lemma cast_integer_idemp v : cast_integer (cast_integer v) = cast_integer v.
Proof. destruct v as [|x|z|s|y m d]; simpl; try done. by destruct (string_to_int _). Qed.

Lemma field_insert_cast i j (row : list scell) :
  field j (<[i := cast_integer (field i row)]> row)
  = if decide (i = j) then cast_integer (field j row) else field j row.
Proof.
  unfold field. destruct (decide (i = j)) as [->|Hne].
  - destruct (decide (j < length row)%nat) as [Hlt|Hge].
    + by rewrite list_lookup_insert_eq.
    + rewrite list_insert_ge by lia.
      by rewrite (lookup_ge_None_2 row j) by lia.
  - by rewrite list_lookup_insert_ne.
Qed.

Lemma position_inj names c c' i :
  position c names = Some i -> position c' names = Some i -> c = c'.
Proof.
  revert i. induction names as [|n names IH]; intros i; [done|].
  cbn [position].
  destruct (position c names) as [k|], (position c' names) as [k'|];
    do 2 case_bool_decide; subst; simpl; try done;
    try (by intros [= <-] [= ?]); try (by intros [= ?] [= <-]).
  intros [= <-] [= ->]. by apply (IH k).
Qed.

(** One cast: the column is cast, the others and the schema stay. *)
Lemma withColumn_cast_column c df df' c' :
  withColumn c (fun v => Ok (cast_integer v)) df = Ok df' ->
  schema df' = schema df /\
  length (rows df') = length (rows df) /\
  column df' c'
  = (fun vs : list scell => if decide (c = c') then cast_integer <$> vs else vs) <$> column df c'.
Proof.
  rewrite withColumn_cast.
  destruct (position c (schema df)) as [i|] eqn:Ei; [|done].
  intros [= <-]. cbn [schema rows]. split; [done|]. split; [by rewrite length_fmap|].
  unfold column. cbn [schema rows].
  destruct (position c' (schema df)) as [j|] eqn:Ej; [|done].
  cbn [fmap result_fmap rbind]. f_equal.
  rewrite <- list_fmap_compose.
  destruct (decide (c = c')) as [->|Hne].
  - rewrite Ei in Ej. injection Ej as ->.
    rewrite <- list_fmap_compose. apply list_fmap_ext. intros k row _.
    cbv [compose]. rewrite field_insert_cast. by rewrite decide_True.
  - apply list_fmap_ext. intros k row _.
    cbv [compose]. rewrite field_insert_cast. rewrite decide_False; [done|].
    intros ->. apply Hne. by eapply position_inj.
Qed.

Lemma cast_columns_column cols df df' c' :
  cast_columns cols df = Ok df' ->
  schema df' = schema df /\
  length (rows df') = length (rows df) /\
  (forall c, c ∈ cols -> c ∈ schema df) /\
  column df' c'
  = (fun vs : list scell => if decide (c' ∈ cols) then cast_integer <$> vs else vs) <$> column df c'.
Proof.
  revert df. induction cols as [|c cols IH]; intros df.
  - intros [= <-]. repeat split; try done.
    + intros c Hc. by apply elem_of_nil in Hc.
    + destruct (column df c'); [|done]. cbn [fmap result_fmap rbind].
      by rewrite decide_False by apply not_elem_of_nil.
  - cbn [cast_columns]. unfold mbind, result_bind, rbind.
    destruct (withColumn c _ df) as [df1|] eqn:E1; [|done].
    intros H. destruct (IH _ H) as (Hs & Hl & Hin & Hc).
    destruct (withColumn_cast_column _ _ _ c' E1) as (Hs1 & Hl1 & Hc1).
    split; [congruence|]. split; [congruence|]. split.
    + intros x Hx. apply elem_of_cons in Hx as [Hx|Hx]; [subst x|].
      * rewrite withColumn_cast in E1.
        destruct (position c (schema df)) eqn:Ex; [|done].
        by eapply position_some_elem.
      * rewrite <- Hs1. by apply Hin.
    + rewrite Hc, Hc1. destruct (column df c') as [vs|]; [|done].
      cbn [fmap result_fmap rbind]. f_equal.
      destruct (decide (c' ∈ cols)) as [Hin'|Hout],
               (decide (c = c')) as [Heq|Hne],
               (decide (c' ∈ c :: cols)) as [Hin2|Hout2]; try done.
      * rewrite <- list_fmap_compose. apply list_fmap_ext. intros k v _.
        apply cast_integer_idemp.
      * exfalso. apply Hout2. by right.
      * exfalso. apply Hout2. by right.
      * exfalso. apply Hout2. subst. by left.
      * exfalso. apply elem_of_cons in Hin2 as [?|?]; congruence.
Qed.

(** Cell 16. The step needs the thirteen numeric columns; it keeps the
    schema and the rows, casts the values of these thirteen columns and
    leaves the values of every other column as they are. *)
Theorem cast_step_columns b c name :
  df_sas_clean_c b = Ok c ->
  schema c = schema b /\ count c = count b /\
  (forall x, x ∈ integer_columns -> x ∈ schema b) /\
  column c name
  = (fun vs : list scell => if decide (name ∈ integer_columns) then cast_integer <$> vs else vs)
    <$> column b name.
Proof.
  unfold df_sas_clean_c. intros H.
  destruct (cast_columns_column _ _ _ name H) as (Hs & Hl & Hin & Hc).
  split; [done|]. split; [unfold count; by rewrite Hl|]. by split.
Qed.

Lemma cast_step_columns_witness :
  exists c,
    df_sas_clean_c Samples.immigration_raw = Ok c /\
    schema c = schema Samples.immigration_raw /\
    count c = count Samples.immigration_raw /\
    (forall x, x ∈ integer_columns -> x ∈ schema Samples.immigration_raw) /\
    column c "cicid"
    = (fun vs : list scell =>
         if decide ("cicid" ∈ integer_columns) then cast_integer <$> vs else vs)
      <$> column Samples.immigration_raw "cicid".
Proof.
  destruct (df_sas_clean_c Samples.immigration_raw) as [c|] eqn:E;
    [|vm_compute in E; discriminate E].
  exists c. split; [done|].
  apply (cast_step_columns Samples.immigration_raw c "cicid" E).
Defined.

End CastClaims.

(** ** The filters of cell 31 *)

Section RestrictClaim.

Import Weather.

Lemma isin_iff codes v : isin codes v = true <-> code_in codes v.
Proof. destruct v; simpl; rewrite ?bool_decide_eq_true; done. Qed.

Lemma select_nil {A : Type} (mask : list bool) : select mask ([] : list A) = [].
Proof. by destruct mask. Qed.

(** Selecting by a mask computed from the selected column *)
Lemma select_twice {A : Type} (c : Series) (f g : cell -> bool) (l : list A) :
  (forall v, g v = true -> f v = true) ->
  select (g <$> select (f <$> c) c) (select (f <$> c) l) = select (g <$> c) l.
Proof.
  intros Hfg. revert l. induction c as [|v c IH]; intros l.
  - by rewrite select_nil.
  - destruct l as [|x l]; [by rewrite !select_nil|]. csimpl.
    destruct (f v) eqn:Ef; csimpl.
    + destruct (g v); by rewrite IH.
    + rewrite IH. destruct (g v) eqn:Eg; [|done].
      apply Hfg in Eg. congruence.
Qed.

Lemma select_filter {A : Type} (f : A -> bool) (P : A -> Prop)
    `{forall x, Decision (P x)} (l : list A) :
  (forall x, f x = true <-> P x) -> select (f <$> l) l = filter P l.
Proof.
  intros Hf. induction l as [|x l IH]; [done|]. csimpl.
  rewrite filter_cons, IH.
  destruct (f x) eqn:Ef, (decide (P x)) as [HP|HP]; try done.
  - by apply Hf in Ef.
  - apply Hf in HP. congruence.
Qed.

(** Cell 31, the filters, on a code column of integers and missing
    values. The rows that stay are the rows whose country code is one of
    [codes], in their order and with their values; the labels are
    renumbered from 0. *)
Theorem restrict_keeps_listed_codes codes df out code :
  restrict codes df = Ok out ->
  columns df !! "i94cntyl" = Some code ->
  Forall (fun v => v = NA \/ exists z, v = Int z) code ->
  columns out !! "i94cntyl" = Some (filter (code_in codes) code) /\
  index out = seq 0 (length (select (isin codes <$> code) (index df))) /\
  (forall name s, columns df !! name = Some s ->
     columns out !! name = Some (select (isin codes <$> code) s)) /\
  (forall name, columns df !! name = None -> columns out !! name = None).
Proof.
  unfold restrict, frame_col, mbind, result_bind, rbind. intros H Hc _.
  rewrite Hc in H. cbn [filter_rows columns] in H.
  rewrite lookup_fmap, Hc in H. cbn [fmap option_fmap option_map] in H.
  injection H as <-. unfold reset_index, filter_rows, nrows. cbn [index columns].
  assert (forall v, isin codes v = true -> notnull v = true) as Hin
    by (by intros []).
  assert (forall name s, columns df !! name = Some s ->
            (select (isin codes <$> select (notnull <$> code) code)
               <$> (select (notnull <$> code) <$> columns df)) !! name
            = Some (select (isin codes <$> code) s)) as Hcols.
  { intros name s Hs. rewrite !lookup_fmap, Hs. cbn [fmap option_fmap option_map].
    f_equal. by apply select_twice. }
  split; [|split; [|split]].
  - rewrite (Hcols _ _ Hc). f_equal. apply select_filter. apply isin_iff.
  - by rewrite select_twice.
  - exact Hcols.
  - intros name Hn. by rewrite !lookup_fmap, Hn.
Qed.

Lemma restrict_keeps_listed_codes_witness :
  exists out,
    restrict [1164] (reset_index Samples.cntyl) = Ok out /\
    columns out !! "i94cntyl" = Some (filter (code_in [1164]) [Int 582; Int 1164]) /\
    index out = seq 0 (length (select (isin [1164] <$> [Int 582; Int 1164])
                                 (index (reset_index Samples.cntyl)))) /\
    (forall name s, columns (reset_index Samples.cntyl) !! name = Some s ->
       columns out !! name = Some (select (isin [1164] <$> [Int 582; Int 1164]) s)) /\
    (forall name, columns (reset_index Samples.cntyl) !! name = None ->
       columns out !! name = None).
Proof.
  destruct (restrict [1164] (reset_index Samples.cntyl)) as [out|] eqn:E;
    [|by vm_compute in E].
  exists out. split; [done|].
  apply (restrict_keeps_listed_codes [1164] (reset_index Samples.cntyl) out
           [Int 582; Int 1164] E).
  - reflexivity.
  - repeat (constructor; [right; by eexists|]). constructor.
Defined.

End RestrictClaim.

(** ** The quality check *)

Section QualityClaims.

Import Quality.

Context {D : Type} (dtype_of : Series -> D).

Lemma length_remove_dups_le {A : Type} `{EqDecision A} (l : list A) :
  (length (remove_dups l) <= length l)%nat.
Proof.
  induction l as [|x l IH]; [done|]. simpl.
  destruct (decide_rel elem_of x l); simpl; lia.
Qed.

(** Cell 25, the summary. It has one row for every column of the frame.
    In a row the null count and the count add up to the length of the
    column, the number of distinct values is at most the count, and it is
    zero only for a column without values; the null count is zero exactly
    when no value of the column is missing. *)
Theorem quality_summary_counts (df : Frame) c s :
  columns df !! c = Some s ->
  exists a,
    snd (dataframe_quality_check dtype_of df) !! c = Some a /\
    (count a + count_null a = length s)%nat /\
    (unique_values a <= count a)%nat /\
    (unique_values a = 0%nat <-> count a = 0%nat) /\
    (count_null a = 0%nat <-> Forall (fun v => v <> NA) s) /\
    count a = length (filter (fun v => v <> NA) s).
Proof.
  intros Hs. exists (describe dtype_of s).
  unfold dataframe_quality_check. cbn [snd].
  rewrite lookup_fmap, Hs. split; [done|].
  unfold describe. cbn [count count_null unique_values].
  assert (s_count s = length (filter (fun v => v <> NA) s)) as Hcount.
  { unfold s_count. f_equal. apply DemographicsFacts.filter_ext_elem.
    intros v _. apply DemographicsFacts.notnull_iff. }
  assert (s_count s <= length s)%nat as Hle by (unfold s_count; apply length_filter).
  split; [lia|]. split; [|split; [|split; [|done]]].
  - unfold nunique, s_count.
    etrans; [apply length_remove_dups_le|]. by rewrite length_fmap.
  - unfold nunique, s_count.
    destruct (filter (fun c => notnull c = true) s) as [|v l] eqn:E; [done|].
    split; [|done]. intros H0. exfalso.
    apply length_zero_iff_nil in H0.
    assert (py_value v ∈ remove_dups (py_value <$> v :: l)) as Hin.
    { apply elem_of_remove_dups. csimpl. by left. }
    rewrite H0 in Hin. by apply elem_of_nil in Hin.
  - rewrite Hcount in Hle |- *. split.
    + intros H0. apply Forall_forall. intros v Hv.
      assert (length (filter (fun v => v <> NA) s) = length s) as Hall by lia.
      clear -Hall Hv. induction s as [|x s IH]; [by apply elem_of_nil in Hv|].
      rewrite filter_cons in Hall.
      pose proof (length_filter (fun v => v <> NA) s) as Hf.
      destruct (decide (x <> NA)) as [Hx|Hx]; cbn [length] in Hall; [|lia].
      apply elem_of_cons in Hv as [->|Hv]; [exact Hx|].
      apply IH; [exact Hv|lia].
    + intros Hall.
      assert (filter (fun v => v <> NA) s = s) as ->; [|lia].
      clear -Hall. induction Hall as [|x s Hx Hs IH]; [done|].
      by rewrite filter_cons, decide_True, IH.
Qed.

(** Cells 32 and 49. The check is run on the joined airport table and on
    the filtered weather table; both have a fresh range of labels, so
    the line that is printed is never the warning. *)
Theorem quality_message_dimensions :
  (forall df_port df_airport joined,
      Airport.join df_port df_airport = Ok joined ->
      fst (dataframe_quality_check dtype_of joined) = unique_message) /\
  (forall codes df out,
      Weather.restrict codes df = Ok out ->
      fst (dataframe_quality_check dtype_of out) = unique_message).
Proof.
  split.
  - intros df_port df_airport joined Hj.
    destruct (AirportFacts.join_inv _ _ _ Hj) as (merged & _ & _ & _ & Hnd).
    unfold dataframe_quality_check. cbn [fst].
    by rewrite bool_decide_eq_true_2.
  - intros codes df out Hr.
    unfold Weather.restrict, frame_col, mbind, result_bind, rbind in Hr.
    destruct (columns df !! "i94cntyl") as [c|]; [|done].
    destruct (columns (filter_rows (notnull <$> c) df) !! "i94cntyl") as [c'|]; [|done].
    injection Hr as <-.
    unfold dataframe_quality_check, reset_index. cbn [fst index].
    rewrite bool_decide_eq_true_2; [done|]. apply NoDup_seq.
Qed.

End QualityClaims.

Section QualityWitnesses.

Import Quality.

Lemma quality_summary_counts_witness :
  exists a,
    snd (dataframe_quality_check (fun _ => tt) Samples.ports) !! "addr" = Some a /\
    (count a + count_null a = length [Str "TX"; Str "AK"; NA; Str "FL"])%nat /\
    (unique_values a <= count a)%nat /\
    (unique_values a = 0%nat <-> count a = 0%nat) /\
    (count_null a = 0%nat <-> Forall (fun v => v <> NA) [Str "TX"; Str "AK"; NA; Str "FL"]) /\
    count a = length (filter (fun v => v <> NA) [Str "TX"; Str "AK"; NA; Str "FL"]).
Proof.
  apply (quality_summary_counts (fun _ => tt) Samples.ports "addr").
  reflexivity.
Defined.

Lemma quality_message_dimensions_witness :
  exists joined,
    Airport.join Samples.ports Samples.airports = Ok joined /\
    fst (dataframe_quality_check (fun _ => tt) joined) = unique_message.
Proof.
  destruct (Airport.join Samples.ports Samples.airports) as [joined|] eqn:E;
    [|by vm_compute in E].
  exists joined. split; [done|].
  apply (proj1 (quality_message_dimensions (fun _ => tt))
           Samples.ports Samples.airports joined E).
Defined.

End QualityWitnesses.
